(** * Pyxelate ([src/pyxelate/pyx.py]): palette fitting and image quantisation

    A shallow embedding of the classes [BGM] and [Pyx].

    - numpy arrays of shape (h, w, d) are records holding the shape, the
      dtype and the samples as nested lists (rows of pixels of samples);
    - samples are rationals in lowest terms ([Qc]): integer samples embed as
      they are, a float64 sample is the rational it holds (no NaN, no
      infinity).  Where the rounding of float64 decides an integer result
      the operation is the float64 one: the proportional size of
      [_get_size] is computed on binary64 floats, and the products by 255
      of [_image_to_int] and of the quantisation in [colors] are rounded to
      the nearest float64 by [binary64].  The arithmetic on the samples of
      an image (means, the scaling about one half, the thresholds and sums
      of the dithers) is left exact; the theorems about those stages hold
      for all values of the samples;
    - Python exceptions are the [Err] results of a small error monad;
    - the attributes that [fit] and [colors] mutate ([model], [is_fitted],
      [palette_cache]) are fields of the [Pyx] record, threaded explicitly;
    - scikit-learn, scikit-image and scipy are collaborators behind the
      class [Externals]; what the code itself computes around them is
      embedded in full. *)

From Stdlib Require Import ZArith QArith Qcanon Qround Floats Uint63 Lia.
From Stdlib Require String.
From stdpp Require Import base tactics numbers option list.
Import String.StringSyntax.
Delimit Scope string_scope with string.

Close Scope Q_scope.
Close Scope Qc_scope.
Set Default Proof Using "Type".

(** ** Exceptions and the error monad *)

(** The [assert]s of [Pyx.transform], [Pyx.colors] and [Pyx.__init__]. *)
Inductive assertion :=
| NotFitted       (* "Call 'fit(image_as_numpy)' first before calling 'transform(image_as_numpy)'!" *)
| ColorsNotFitted (* "Call 'fit(image_as_numpy)' first!" *)
| TooManyColors   (* "Too many colors for such a small image! ..." *)
| InvalidArgument. (* the assertions of [Pyx.__init__] on its arguments *)

Inductive error :=
| AssertionError (a : assertion)
| ValueError
| TypeError
| ZeroDivisionError
| IndexError
| AttributeError
| LibraryError.   (* raised inside scikit-learn *)

Inductive result (A : Type) :=
| Ok (a : A)
| Err (e : error).
Arguments Ok {A} a.
Arguments Err {A} e.

#[global] Instance result_ret : MRet result := fun A a => Ok a.
#[global] Instance result_bind : MBind result := fun A B k m =>
  match m with
  | Ok a => k a
  | Err e => Err e
  end.

(** [assert cond, msg] *)
Definition py_assert (cond : bool) (a : assertion) : result unit :=
  if cond then Ok tt else Err (AssertionError a).

Definition is_ok {A} (r : result A) : bool :=
  match r with Ok _ => true | Err _ => false end.

#[global] Instance assertion_eq_dec : EqDecision assertion.
Proof. solve_decision. Defined.

(** [r] is the failure of the assertion [a]; [no_assertion a r]: it is not. *)
Definition raises {B} (a : assertion) (r : result B) : bool :=
  match r with
  | Err (AssertionError b) => bool_decide (a = b)
  | _ => false
  end.

Definition no_assertion {B} (a : assertion) (r : result B) : Prop :=
  raises a r = false.

(** A [for] loop over [l] whose body may raise. *)
Fixpoint for_each {S B} (body : B -> S -> result S) (l : list B) (s : S) : result S :=
  match l with
  | [] => Ok s
  | x :: l' => s' ← body x s; for_each body l' s'
  end.

(** [range(a, b)] and [range(a, b, 2)] *)
Definition py_range (a b : nat) : list nat := seq a (b - a).
Definition py_range2 (a b : nat) : list nat :=
  map (fun k => a + 2 * k) (seq 0 ((b - a + 1) / 2)).

(** ** Arrays *)

Inductive dtype := Integer | Floating.

(** An array of shape [(shape_h, shape_w, shape_d)]: [rows] holds [shape_h]
    rows of [shape_w] pixels of [shape_d] samples. *)
Record ndarray (A : Type) := NDArray {
  shape_h : nat;
  shape_w : nat;
  shape_d : nat;
  kind : dtype;
  rows : list (list (list A))
}.
Arguments NDArray {A} _ _ _ _ _.
Arguments shape_h {A} _.
Arguments shape_w {A} _.
Arguments shape_d {A} _.
Arguments kind {A} _.
Arguments rows {A} _.

(** The samples fill the shape. *)
Definition shaped {A} (X : ndarray A) : Prop :=
  length (rows X) = shape_h X /\
  Forall (fun r => length r = shape_w X /\
                   Forall (fun p => length p = shape_d X) r) (rows X).

(** An array filled from a function of the indices. *)
Definition tabulate {A} (h w d : nat) (f : nat -> nat -> nat -> A) : list (list (list A)) :=
  map (fun y => map (fun x => map (fun c => f y x c) (seq 0 d)) (seq 0 w)) (seq 0 h).

Section Geometry.
Context {A : Type}.

(** One axis of [np.pad(..., "edge")]: the first element [before] times, the
    list, the last element [after] times. *)
Definition edge_axis {B} (before after : nat) (l : list B) : list B :=
  match l with
  | [] => []
  | x :: _ => replicate before x ++ l ++ replicate after (List.last l x)
  end.

(** [np.pad(X, ((h1, h2), (w1, w2), (0, 0)), "edge")]; numpy refuses to
    extend an empty axis. *)
Definition np_pad_edge (X : ndarray A) (h1 h2 w1 w2 : nat) : result (ndarray A) :=
  if ((shape_h X =? 0) && (0 <? h1 + h2)) || ((shape_w X =? 0) && (0 <? w1 + w2))
  then Err ValueError
  else Ok (NDArray (h1 + shape_h X + h2) (w1 + shape_w X + w2) (shape_d X) (kind X)
                   (edge_axis h1 h2 (map (edge_axis w1 w2) (rows X)))).

(** Where a slice bound [i] lands on an axis of length [n]: a negative bound
    counts from the end, and both are clipped to the axis. *)
Definition slice_index (n : nat) (i : Z) : nat :=
  Z.to_nat (if (i <? 0)%Z then Z.max 0 (i + Z.of_nat n) else Z.min i (Z.of_nat n)).

(** [l[start:stop]], [stop = None] for an open end. *)
Definition py_slice {B} (start : Z) (stop : option Z) (l : list B) : list B :=
  let n := length l in
  let s := slice_index n start in
  let e := from_option (slice_index n) n stop in
  take (e - s) (drop s l).

Definition slice_length (n : nat) (start : Z) (stop : option Z) : nat :=
  from_option (slice_index n) n stop - slice_index n start.

(** [X[slice(s0, e0), slice(s1, e1), :]] *)
Definition np_slice (X : ndarray A) (s0 : Z) (e0 : option Z) (s1 : Z) (e1 : option Z)
  : ndarray A :=
  NDArray (slice_length (shape_h X) s0 e0) (slice_length (shape_w X) s1 e1)
          (shape_d X) (kind X)
          (map (py_slice s1 e1) (py_slice s0 e0 (rows X))).

(** [Pyx._pad]: with [nh] and [nw] both [None] it pads, otherwise it removes
    the padding of an image that had [nh] rows and [nw] columns. *)
Definition _pad (X : ndarray A) (pad_size : nat) (nh nw : option nat) : result (ndarray A) :=
  match nh, nw with
  | None, None =>
      if pad_size =? 0 then Err ZeroDivisionError else
      let h := shape_h X in
      let w := shape_w X in
      let h1 := if 0 <? h mod pad_size then 1 else 0 in
      let h2 := if h mod pad_size =? 1 then 1 else 0 in
      let w1 := if 0 <? w mod pad_size then 1 else 0 in
      let w2 := if w mod pad_size =? 1 then 1 else 0 in
      np_pad_edge X h1 h2 w1 w2
  | Some nh, Some nw =>
      if pad_size =? 0 then Err ZeroDivisionError else
      Ok (np_slice X
            (if 0 <? nh mod pad_size then 1 else 0)
            (if nh mod pad_size =? 1 then Some (-1)%Z else None)
            (if 0 <? nw mod pad_size then 1 else 0)
            (if nw mod pad_size =? 1 then Some (-1)%Z else None))
  | _, _ => Err TypeError
  end.

End Geometry.

(** What [_pad] adds before and after an axis of length [n]. *)
Definition pad_before (n t : nat) : nat := if 0 <? n mod t then 1 else 0.
Definition pad_after (n t : nat) : nat := if n mod t =? 1 then 1 else 0.

(** ** Samples, channels and pixels *)

Definition pixel := list Qc.
Definition channel := list (list Qc).
Abbreviation image := (ndarray Qc).

(** The rational [n / d] and the integer [z] as samples. *)
Definition frac (n : Z) (d : positive) : Qc := Q2Qc (n # d).
Definition of_int (z : Z) : Qc := Q2Qc (inject_Z z).

Definition tab2 {B} (h w : nat) (f : nat -> nat -> B) : list (list B) :=
  map (fun y => map (fun x => f y x) (seq 0 w)) (seq 0 h).

(** [c[y][x]] and [X[y][x][k]] of arrays whose samples fill their shape. *)
Definition at2 (c : channel) (y x : nat) : Qc := nth x (nth y c []) 0%Qc.
Definition at3 (r : list (list (list Qc))) (y x k : nat) : Qc :=
  nth k (nth x (nth y r []) []) 0%Qc.

(** [X[:, :, k]] *)
Definition chan (X : image) (k : nat) : channel :=
  map (map (fun px => nth k px 0%Qc)) (rows X).

(** [X[:, :, :3]] *)
Definition rgb_of (X : image) : image :=
  NDArray (shape_h X) (shape_w X) (Nat.min 3 (shape_d X)) (kind X)
          (map (map (take 3)) (rows X)).

Definition map_image (f : Qc -> Qc) (k : dtype) (X : image) : image :=
  NDArray (shape_h X) (shape_w X) (shape_d X) k (map (map (map f)) (rows X)).

Definition Qleb (a b : Qc) : bool := Qle_bool a b.
Definition Qltb (a b : Qc) : bool := negb (Qle_bool b a).

(** [np.clip(x, lo, hi)] *)
Definition np_clip (lo hi x : Qc) : Qc :=
  if Qltb x lo then lo else if Qltb hi x then hi else x.

(** [.astype(int)] of a float: truncation towards zero. *)
Definition astype_int (x : Qc) : Z :=
  if Qleb 0 x then Qfloor x else Qceiling x.

(** The integer nearest [num / den] for [den > 0], a tie going to the even
    one. *)
Definition round_half_even (num den : Z) : Z :=
  let q := (num / den)%Z in
  match (2 * (num mod den) ?= den)%Z with
  | Lt => q
  | Gt => (q + 1)%Z
  | Eq => if Z.even q then q else (q + 1)%Z
  end.

(** [round (a / d / 2 ^ e) * 2 ^ e] for [a >= 0] and [d > 0]. *)
Definition magnitude (a d e : Z) : Qc :=
  if (0 <=? e)%Z
  then Q2Qc (inject_Z (round_half_even a (d * 2 ^ e) * 2 ^ e))
  else Q2Qc (Qmake (round_half_even (a * 2 ^ (- e)) d) (Z.to_pos (2 ^ (- e)))).

(** The exponent float64 gives the last bit of [a / d], for [a, d > 0]:
    52 below the integer part [k] of its binary logarithm, and no less than
    -1074. *)
Definition exponent (a d : Z) : Z :=
  let k0 := (Z.log2 a - Z.log2 d)%Z in
  let below := if (0 <=? k0)%Z then (a <? d * 2 ^ k0)%Z else (a * 2 ^ (- k0) <? d)%Z in
  let k := if below then (k0 - 1)%Z else k0 in
  Z.max (k - 52) (-1074).

(** The result of a float64 operation whose exact result is [x]: the
    nearest number [m * 2 ^ e] with [m] below [2 ^ 53] and [e >= -1074]
    (subnormals included), a tie going to the even [m].  A number that
    float64 holds is its own rounding.  Overflow to infinity is left out. *)
Definition binary64 (x : Qc) : Qc :=
  let n := Qnum x in
  let d := Zpos (Qden x) in
  let a := Z.abs n in
  if (a =? 0)%Z then 0%Qc else
  let v := magnitude a d (exponent a d) in
  if (n <? 0)%Z then (- v)%Qc else v.

(** The rational a finite float holds. *)
Definition float_value (f : float) : option Qc :=
  match Prim2SF f with
  | S754_zero _ => Some 0%Qc
  | S754_finite s m e =>
      let v := if (0 <=? e)%Z then Q2Qc (inject_Z (Zpos m * 2 ^ e))
               else Q2Qc (Qmake (Zpos m) (Z.to_pos (2 ^ (- e)))) in
      Some (if s then (- v)%Qc else v)
  | _ => None
  end.

(** [.astype(np.uint8)] of an integer: wrap-around modulo 256. *)
Definition astype_uint8 (z : Z) : Z := (z mod 256)%Z.

(** [np.argmax(l)] and [np.argmin(l)]: the first index of an extremal
    element.  numpy raises on an empty sequence; every row taken below has
    [n_components] entries, and scikit-learn fits no model without
    components, so the empty case is the index 0 here. *)
Fixpoint arg_best (better : Qc -> Qc -> bool) (l : list Qc) (i best : nat) (v : Qc) : nat :=
  match l with
  | [] => best
  | x :: l' => if better x v then arg_best better l' (S i) i x
               else arg_best better l' (S i) best v
  end.

Definition np_argmax (l : list Qc) : nat :=
  match l with
  | [] => 0
  | x :: l' => arg_best (fun a b => Qltb b a) l' 1 0 x
  end.

Definition np_argmin (l : list Qc) : nat :=
  match l with
  | [] => 0
  | x :: l' => arg_best (fun a b => Qltb a b) l' 1 0 x
  end.

(** [np.max(l)] *)
Definition np_max (l : list Qc) : Qc :=
  match l with
  | [] => 0%Qc
  | x :: l' => fold_left (fun m y => if Qltb m y then y else m) l' x
  end.

Fixpoint mapM_res {B C} (f : B -> result C) (l : list B) : result (list C) :=
  match l with
  | [] => Ok []
  | x :: l' => y ← f x; ys ← mapM_res f l'; Ok (y :: ys)
  end.

(** [a[i]] for [0 <= i]: an index past the end raises. *)
Definition index {B} (l : list B) (i : nat) : result B :=
  match l !! i with
  | Some x => Ok x
  | None => Err IndexError
  end.

(** ** Configuration *)

(** The [palette] argument: a number of colours to find, or the colours
    themselves.  A [BasePalette], a list, a tuple and a float array all go
    through the float branch of [_image_to_int] ([FloatColors]); an array of
    integer dtype is returned by it as it is ([IntColors]).  Each colour is
    its three samples. *)
Inductive palette_spec :=
| Count (k : nat)
| FloatColors (cs : list (list Qc))
| IntColors (cs : list (list Z)).

(** [isinstance(self.palette, (int, float))] *)
Definition find_palette_of (pal : palette_spec) : bool :=
  match pal with Count _ => true | _ => false end.

(** [self.palette] when a number, [len(self.palette)] otherwise: the
    [n_components] that [BGM.__init__] gives the mixture. *)
Definition palette_size (pal : palette_spec) : nat :=
  match pal with
  | Count k => k
  | FloatColors cs => length cs
  | IntColors cs => length cs
  end.

Inductive dither_mode := DitherNone | Naive | Bayer | Floyd | Atkinson.

(** The [dither] argument as a caller passes it to [__init__]: [None], a
    string, or any other object (a member of an [Enum], a number). *)
Inductive dither_arg :=
| DitherPyNone
| DitherStr (s : String.string)
| DitherObject.

(** [dither in (None, "none", "naive", "bayer", "floyd", "atkinson")]: the
    mode an accepted argument selects in [transform], where [None] and
    ["none"] select the same branch; [None] for an argument that is none of
    the six. *)
Definition dither_of (a : dither_arg) : option dither_mode :=
  match a with
  | DitherPyNone => Some DitherNone
  | DitherStr s =>
      if String.eqb s "none"%string then Some DitherNone
      else if String.eqb s "naive"%string then Some Naive
      else if String.eqb s "bayer"%string then Some Bayer
      else if String.eqb s "floyd"%string then Some Floyd
      else if String.eqb s "atkinson"%string then Some Atkinson
      else None
  | DitherObject => None
  end.

(** A mode as the argument that names it: where a statement passes a mode
    to [__init__], it passes this string. *)
Definition dither_name (d : dither_mode) : dither_arg :=
  DitherStr match d with
            | DitherNone => "none"%string
            | Naive => "naive"%string
            | Bayer => "bayer"%string
            | Floyd => "floyd"%string
            | Atkinson => "atkinson"%string
            end.
Coercion dither_name : dither_mode >-> dither_arg.

Inductive boundary := Reflect | Constant | Nearest | Mirror | Wrap.

(** ** Collaborators

    The numeric libraries, as the code calls them.  A function that returns
    an array returns the sample at each index; the embedding fills the shape
    the library documents for the result from it. *)
Class Externals := {
  (** the fitted parameters of a [BayesianGaussianMixture] *)
  Model : Type;
  (** [BayesianGaussianMixture.fit] with the parameters and the
      initialisation [BGM] sets from the palette; [None] when it raises *)
  sk_fit : palette_spec -> list pixel -> option Model;
  (** [means_[i][c]] *)
  sk_means : Model -> nat -> nat -> Qc;
  (** component [i] of the weighted log-probabilities of one sample, whose
      argmax [predict] returns *)
  sk_weighted_log_prob : Model -> pixel -> nat -> Qc;
  (** component [i] of [BayesianGaussianMixture.predict_proba] of one sample *)
  sk_predict_proba : Model -> pixel -> nat -> Qc;
  (** [skimage.transform.resize(X, (h, w), anti_aliasing)] *)
  resize : image -> nat -> nat -> bool -> nat -> nat -> nat -> Qc;
  rgb2hsv : pixel -> nat -> Qc;
  hsv2rgb : pixel -> nat -> Qc;
  equalize_adapthist : image -> nat -> nat -> nat -> Qc;
  skimage_sobel : channel -> nat -> nat -> Qc;
  (** [skimage.morphology.dilation(dim, selem=square(3))] *)
  skimage_dilation : channel -> nat -> nat -> Qc;
  (** [skimage.filters.median(dim, square(3))] *)
  skimage_median : channel -> nat -> nat -> Qc;
  (** [scipy.ndimage.convolve(input, weights, mode)] *)
  convolve : channel -> channel -> boundary -> nat -> nat -> Qc;
  np_sqrt : Qc -> Qc;
  (** [np.power(x, 1. / 6.)] *)
  np_power_sixth : Qc -> Qc
}.

Section Model.
Context `{ext : Externals}.

(** *** class BGM *)

Definition row_of (n : nat) (f : nat -> Qc) : list Qc := map f (seq 0 n).

(** scikit-learn validates its input: an array with no sample is refused. *)
Definition sk_check (X : list pixel) : result unit :=
  match X with
  | [] => Err LibraryError
  | _ => Ok tt
  end.

(** [BayesianGaussianMixture.predict]: per sample, the argmax over the
    [n_components] weighted log-probabilities. *)
Definition predict (pal : palette_spec) (m : Model) (X : list pixel) : result (list nat) :=
  _ ← sk_check X;
  Ok (map (fun px => np_argmax (row_of (palette_size pal) (sk_weighted_log_prob m px))) X).

(** [super().predict_proba(X)]: one row of [n_components] posteriors per
    sample. *)
Definition super_predict_proba (pal : palette_spec) (m : Model) (X : list pixel)
  : result (list (list Qc)) :=
  _ ← sk_check X;
  Ok (map (fun px => row_of (palette_size pal) (sk_predict_proba m px)) X).

(** [BGM.predict_proba] *)
Definition predict_proba (pal : palette_spec) (m : Model) (X : list pixel)
  : result (list (list Qc)) :=
  p ← super_predict_proba pal m X;
  match pal with
  | Count k => if k <? 3 then Ok (map (map np_sqrt) p) else Ok p
  | FloatColors cs => if length cs <? 3 then Ok (map (map np_sqrt) p) else Ok p
  | IntColors cs => if length cs <? 3 then Ok (map (map np_sqrt) p) else Ok p
  end.

(** [BGM.fit]: the convergence warning aside, the fit of the library. *)
Definition BGM_fit (pal : palette_spec) (X : list pixel) : result Model :=
  match sk_fit pal X with
  | Some m => Ok m
  | None => Err LibraryError
  end.

(** *** class Pyx *)

Record Pyx := MkPyx {
  height : option nat;
  width : option nat;
  factor : option nat;
  upscale : nat * nat;
  depth : nat;
  palette : palette_spec;
  dither : dither_mode;
  sobel : nat;
  alpha : Qc;
  boost : bool;
  (** the fitted parameters of [self.model], [None] before the first fit *)
  model : option Model;
  is_fitted : bool;
  palette_cache : option (list (list Z))
}.

Definition BGM_RESIZE : nat := 256.
Definition SCALE_RGB : Qc := frac 107 100.
Definition HIST_BRIGHTNESS : Qc := frac 119 100.
Definition COLOR_QUANT : Z := 8.
Definition DITHER_NAIVE_BOOST : Qc := frac 133 100.
Definition DITHER_BAYER_MATRIX : channel :=
  [ [ frac (-1) 2  ; frac 0 1     ; frac (-3) 8  ; frac 1 8    ];
    [ frac 1 4     ; frac (-1) 4  ; frac 3 8     ; frac (-1) 8 ];
    [ frac (-5) 16 ; frac 3 16    ; frac (-7) 16 ; frac 1 16   ];
    [ frac 7 16    ; frac (-1) 16 ; frac 5 16    ; frac (-3) 16 ] ].

Definition is_some {B} (o : option B) : bool :=
  match o with Some _ => true | None => false end.

(** [Pyx.__init__]; [upscale] is the pair ([u] alone is [(u, u)]), and
    [self.dither] is kept as the mode the accepted argument selects. *)
Definition Pyx_init (height width factor : option nat) (upscale : nat * nat) (depth : nat)
    (palette : palette_spec) (dither : dither_arg) (sobel : nat) (alpha : Qc)
    (boost : bool) : result Pyx :=
  if (is_some width || is_some height) && is_some factor then Err ValueError else
  _ ← py_assert (from_option (Nat.leb 1) true height) InvalidArgument;
  _ ← py_assert (from_option (Nat.leb 1) true width) InvalidArgument;
  _ ← py_assert (from_option (Nat.leb 1) true factor) InvalidArgument;
  _ ← py_assert (2 <=? sobel) InvalidArgument;
  _ ← py_assert ((1 <=? upscale.1) && (1 <=? upscale.2)) InvalidArgument;
  _ ← py_assert (0 <? depth) InvalidArgument;
  if palette_size palette <? 2 then Err ValueError else
  match dither_of dither with
  | None => Err (AssertionError InvalidArgument)
  | Some dither =>
      Ok (MkPyx height width factor upscale depth palette dither sobel alpha boost
                None false None)
  end.

(** What [__init__] establishes and no method changes. *)
Definition valid (p : Pyx) : Prop :=
  2 <= sobel p /\ 0 < depth p /\ 1 <= (upscale p).1 /\ 1 <= (upscale p).2 /\
  2 <= palette_size (palette p) /\
  from_option (fun f => 1 <= f) True (factor p).

Definition with_model (p : Pyx) (m : Model) : Pyx :=
  MkPyx (height p) (width p) (factor p) (upscale p) (depth p) (palette p) (dither p)
        (sobel p) (alpha p) (boost p) (Some m) true (palette_cache p).

Definition with_cache (p : Pyx) (c : list (list Z)) : Pyx :=
  MkPyx (height p) (width p) (factor p) (upscale p) (depth p) (palette p) (dither p)
        (sobel p) (alpha p) (boost p) (model p) (is_fitted p) (Some c).

(** A Python [int] as a float (exact below 2^53), and [int(f)] of a float:
    truncation towards zero, an error on infinities and NaN. *)
Definition float_of_nat (n : nat) : float :=
  PrimFloat.of_uint63 (Uint63.of_Z (Z.of_nat n)).

Definition int_of_float (f : float) : result nat :=
  match Prim2SF f with
  | S754_zero _ => Ok 0
  | S754_finite s m e =>
      let a := match e with
               | Z0 => Zpos m
               | Zpos q => (Zpos m * 2 ^ Zpos q)%Z
               | Zneg q => (Zpos m / 2 ^ Zpos q)%Z
               end in
      Ok (Z.to_nat (if s then (- a)%Z else a))
  | _ => Err ValueError
  end.

(** [Pyx._get_size] *)
Definition _get_size (p : Pyx) (original_height original_width : nat) : result (nat * nat) :=
  match height p, width p, factor p with
  | Some h, Some w, _ => Ok (h, w)
  | Some h, None, _ =>
      if original_height =? 0 then Err ZeroDivisionError else
      w ← int_of_float (float_of_nat h / float_of_nat original_height
                        * float_of_nat original_width)%float;
      Ok (h, w)
  | None, Some w, _ =>
      if original_width =? 0 then Err ZeroDivisionError else
      h ← int_of_float (float_of_nat w / float_of_nat original_width
                        * float_of_nat original_height)%float;
      Ok (h, w)
  | None, None, Some f =>
      if f =? 0 then Err ZeroDivisionError else
      Ok (original_height / f, original_width / f)
  | None, None, None => Ok (original_height, original_width)
  end.

(** [Pyx._image_to_float] *)
Definition _image_to_float (X : image) : image :=
  match kind X with
  | Integer => map_image (fun x => np_clip 0 1 (x / of_int 255))%Qc Floating X
  | Floating => X
  end.

(** [Pyx._image_to_int], on a palette of colours: the float64 sample times
    [255.] in float64, clipped and truncated. *)
Definition _image_to_int (pal : palette_spec) : result (list (list Z)) :=
  match pal with
  | FloatColors cs =>
      Ok (map (map (fun x =>
            astype_int (np_clip 0 (of_int 255) (binary64 (binary64 x * of_int 255)))%Qc)) cs)
  | IntColors cs => Ok cs
  | Count _ => Err AttributeError
  end.

(** One sample of a colour of the found palette:
    [np.clip(c * 255 // COLOR_QUANT * COLOR_QUANT, 0, 255).astype(int)], then
    [c[c < COLOR_QUANT * 2] = 0] and [c[c > 255 - COLOR_QUANT * 2] = 255].
    The product [c * 255] is the float64 one; the floor division by 8 and
    the product with 8 that follow are exact in float64. *)
Definition quantise (c : Qc) : Z :=
  let q := (of_int (Qfloor (binary64 (binary64 c * of_int 255) / of_int COLOR_QUANT))
            * of_int COLOR_QUANT)%Qc in
  let c := astype_int (np_clip 0 (of_int 255) q)%Qc in
  let c := if (c <? COLOR_QUANT * 2)%Z then 0%Z else c in
  if (255 - COLOR_QUANT * 2 <? c)%Z then 255%Z else c.

(** Colour [i] of the found palette, from [means_[i]]. *)
Definition found_colour (m : Model) (i : nat) : list Z :=
  let c := row_of 3 (rgb2hsv (row_of 3 (sk_means m i))) in
  let c := imap (fun k v => if 1 <=? k then v * SCALE_RGB else v)%Qc c in
  let c := row_of 3 (hsv2rgb c) in
  map quantise c.

(** The property [Pyx.colors]: the colours and the instance with its cache
    filled. *)
Definition colors (p : Pyx) : result (list (list Z) * Pyx) :=
  match palette_cache p with
  | Some c => Ok (c, p)
  | None =>
      c ← (if find_palette_of (palette p) then
             _ ← py_assert (is_fitted p) ColorsNotFitted;
             match model p with
             | Some m => Ok (map (found_colour m) (seq 0 (palette_size (palette p))))
             | None => Err AttributeError
             end
           else _image_to_int (palette p));
      Ok (c, with_cache p c)
  end.

(** [@adapt_rgb(each_channel)] around a filter that keeps the shape: on an
    image with 3 or 4 channels the filter runs on each channel and the
    results are stacked.  On any other array skimage hands the whole array to
    the filter; the filters here are two-dimensional and raise on it. *)
Definition each_channel (f : channel -> nat -> nat -> Qc) (X : image) : result image :=
  if (shape_d X =? 3) || (shape_d X =? 4) then
    Ok (NDArray (shape_h X) (shape_w X) (shape_d X) (kind X)
          (tabulate (shape_h X) (shape_w X) (shape_d X)
             (fun y x c => f (chan X c) y x)))
  else Err ValueError.

(** [rgb2hsv] and [hsv2rgb] on an image: the last axis must hold 3 samples. *)
Definition convert_colour (f : pixel -> nat -> Qc) (X : image) : result image :=
  if shape_d X =? 3 then
    Ok (NDArray (shape_h X) (shape_w X) 3 Floating
          (map (map (fun px => row_of 3 (f px))) (rows X)))
  else Err ValueError.

(** [Pyx._dilate] *)
Definition _dilate (p : Pyx) (X : image) : result image :=
  let h := shape_h X in
  let w := shape_w X in
  X_ ← _pad X 3 None None;
  let mask := chan X_ 3 in
  alter ← each_channel skimage_dilation (rgb_of X_);
  (* X_[:, :, :3][mask < self.alpha] = alter[mask < self.alpha] *)
  let X_ := NDArray (shape_h X_) (shape_w X_) (shape_d X_) (kind X_)
              (imap (fun y row =>
                 imap (fun x px =>
                   if Qltb (at2 mask y x) (alpha p)
                   then row_of 3 (at3 (rows alter) y x) ++ drop 3 px
                   else px) row) (rows X_)) in
  _pad X_ 3 (Some h) (Some w).

(** [Pyx._median] *)
Definition _median (X : image) : result image :=
  let h := shape_h X in
  let w := shape_w X in
  X_ ← _pad X 3 None None;
  X_ ← convert_colour rgb2hsv X_;
  X_ ← each_channel skimage_median X_;
  X_ ← convert_colour hsv2rgb X_;
  _pad X_ 3 (Some h) (Some w).

Definition Qsum (l : list Qc) : Qc := fold_right Qcplus 0%Qc l.

(** [view_as_blocks(a, (s, s)).sum((2, 3))] of an [h] by [w] array: the sums
    over its [s] by [s] tiles, once the shape is a multiple of the tile. *)
Definition view_as_blocks_sum (s h w : nat) (a : nat -> nat -> Qc)
  : result (nat -> nat -> Qc) :=
  if s =? 0 then Err ValueError else
  if (h mod s =? 0) && (w mod s =? 0) then
    Ok (fun by_ bx =>
          Qsum (map (fun dy =>
            Qsum (map (fun dx => a (by_ * s + dy) (bx * s + dx)) (seq 0 s))) (seq 0 s)))
  else Err ValueError.

(** The [_wrapper] of [_pyxelate], on one channel [dim] of shape [(h, w)]. *)
Definition pyxelate_wrapper (s h w : nat) (dim : channel) : result (nat -> nat -> Qc) :=
  let sobel := fun y x => (skimage_sobel dim y x + frac 1 100000000)%Qc in
  sobel_norm ← view_as_blocks_sum s h w sobel;
  sum_prod ← view_as_blocks_sum s h w (fun y x => sobel y x * at2 dim y x)%Qc;
  Ok (fun y x => sum_prod y x / sobel_norm y x)%Qc.

(** [Pyx._pyxelate] *)
Definition _pyxelate (p : Pyx) (X : image) : result image :=
  X_pad ← _pad X (sobel p) None None;
  if (shape_d X_pad =? 3) || (shape_d X_pad =? 4) then
    cs ← mapM_res (fun c => pyxelate_wrapper (sobel p) (shape_h X_pad) (shape_w X_pad)
                              (chan X_pad c))
                  (seq 0 (shape_d X_pad));
    let oh := shape_h X_pad / sobel p in
    let ow := shape_w X_pad / sobel p in
    Ok (NDArray oh ow (shape_d X_pad) Floating
          (tabulate oh ow (shape_d X_pad)
             (fun y x c => nth c cs (fun _ _ => 0%Qc) y x)))
  else Err ValueError.

(** [resize(X, (h, w), anti_aliasing=aa)]: the channels stay. *)
Definition resize_to (X : image) (h w : nat) (aa : bool) : image :=
  NDArray h w (shape_d X) Floating (tabulate h w (shape_d X) (resize X h w aa)).

(** [X.reshape(-1, n)] *)
Definition reshape_rows (n : nat) (X : image) : result (list pixel) :=
  let flat := concat (concat (rows X)) in
  if n =? 0 then Err ValueError else
  if length flat mod n =? 0 then Ok (reshape (replicate (length flat / n) n) flat)
  else Err ValueError.

(** The samples [fit] hands to the mixture. *)
Definition fit_samples (p : Pyx) (X : image) : result (list pixel) :=
  let h := shape_h X in
  let w := shape_w X in
  let d := shape_d X in
  X_ ← (if 3 <? d then
          D ← _dilate p X;
          X_ ← reshape_rows 4 D;
          let alpha_mask := map (fun r => nth 3 r 0%Qc) X_ in
          let X_ := filter (fun r => Qleb (alpha p) (nth 3 r 0%Qc) = true) X_ in
          let X_ := [X_] in
          let X_ := resize_to (rgb_of X) 1 (Nat.min h BGM_RESIZE * Nat.min w BGM_RESIZE) false in
          Ok X_
        else
          Ok (resize_to (rgb_of X) (Nat.min h BGM_RESIZE) (Nat.min w BGM_RESIZE) false));
  X_ ← reshape_rows 3 (_image_to_float X_);
  if find_palette_of (palette p)
  then Ok (map (map (fun v => (v - frac 1 2) * SCALE_RGB + frac 1 2)%Qc) X_)
  else Ok X_.

(** [Pyx.fit] *)
Definition fit (p : Pyx) (X : image) : result Pyx :=
  X_ ← fit_samples p X;
  m ← BGM_fit (palette p) X_;
  Ok (with_model p m).

(** *** The dithering branches of [Pyx.transform]

    Each takes the instance, the flat sequence [reshaped] of the
    [final_h * final_w] downsampled pixels and returns the colour chosen for
    each pixel, with the instance as [self.colors] leaves it. *)

(** [self.model] of a fitted instance; scikit-learn raises on a mixture that
    was never fitted. *)
Definition the_model (p : Pyx) : result Model :=
  match model p with
  | Some m => Ok m
  | None => Err LibraryError
  end.

(** [a[i] = x] *)
Definition store {B} (l : list B) (i : nat) (x : B) : result (list B) :=
  if i <? length l then Ok (<[i := x]> l) else Err IndexError.

(** An index pair within an array of shape [(h, w)]. *)
Definition check_index (y x h w : nat) : result unit :=
  if (y <? h) && (x <? w) then Ok tt else Err IndexError.

Definition dither_none (p : Pyx) (reshaped : list pixel) : result (list (list Z) * Pyx) :=
  mdl ← the_model p;
  probs ← predict (palette p) mdl reshaped;
  '(cols, p) ← colors p;
  X_ ← mapM_res (index cols) probs;
  Ok (X_, p).

(** One turn of the loop of the naive branch, at the even flat index [i]:
    the index it looks at, and whether it substitutes there. *)
Definition naive_target (final_w i : nat) : nat :=
  let m := (i / final_w) mod 2 in
  if final_w mod 2 =? 0 then i + m else i.

Definition naive_step (final_w : nat) (cols : list (list Z)) (p2 : list nat)
    (v1 v2 : list bool) (i : nat) (X_ : list (list Z)) : result (list (list Z)) :=
  if final_w =? 0 then Err ZeroDivisionError else
  let m := (i / final_w) mod 2 in
  let pad := final_w mod 2 =? 0 in
  let i := if pad then i + m else i in
  b ← (if negb (m =? 0) then index v1 i else index v2 i);
  if (b : bool) then
    j ← index p2 i;
    c ← index cols j;
    store X_ i c
  else Ok X_.

Definition dither_naive (p : Pyx) (reshaped : list pixel) (final_w : nat)
  : result (list (list Z) * Pyx) :=
  mdl ← the_model p;
  probs ← predict_proba (palette p) mdl reshaped;
  let best := map np_argmax probs in
  '(cols, p) ← colors p;
  X_ ← mapM_res (index cols) best;
  (* probs[np.arange(len(p)), p] = 0 *)
  let probs := zip_with (fun row i => <[i := 0%Qc]> row) probs best in
  let p2 := map np_argmax probs in
  let n := of_int (Z.of_nat (length cols)) in
  let v1 := map (fun row => Qltb (1 / (n + 1)) (np_max row))%Qc probs in
  let v2 := map (fun row => Qltb (1 / (n * DITHER_NAIVE_BOOST + 1)) (np_max row))%Qc probs in
  X_ ← for_each (naive_step final_w cols p2 v1 v2) (py_range2 0 (length X_)) X_;
  Ok (X_, p).

(** [probs[:, i]] *)
Definition column (probs : list (list Qc)) (i : nat) : result (list Qc) :=
  mapM_res (fun row => index row i) probs.

(** [a.reshape((h, w))] of a flat sequence of [h * w] values. *)
Definition as_grid (w : nat) (a : list Qc) : nat -> nat -> Qc :=
  fun y x => nth (y * w + x) a 0%Qc.

(** The index map of the Bayer branch: per colour the posterior map
    convolved with the Bayer matrix, per pixel the argmin over the colours. *)
Definition bayer_maps (probs : list (list Qc)) (n_colors final_h final_w : nat)
  : result (list (nat -> nat -> Qc)) :=
  mapM_res (fun i =>
      col ← column probs i;
      Ok (convolve (tab2 final_h final_w (as_grid final_w col))
                   DITHER_BAYER_MATRIX Reflect))
    (seq 0 n_colors).

Definition bayer_index (maps : list (nat -> nat -> Qc)) (y x : nat) : nat :=
  np_argmin (map (fun cv => cv y x) maps).

Definition dither_bayer (p : Pyx) (reshaped : list pixel) (final_h final_w : nat)
  : result (list (list Z) * Pyx) :=
  mdl ← the_model p;
  probs ← predict_proba (palette p) mdl reshaped;
  '(cols, p) ← colors p;
  maps ← bayer_maps probs (length cols) final_h final_w;
  let probs := tab2 final_h final_w (bayer_index maps) in
  X_ ← mapM_res (index cols) (concat probs);
  Ok (X_, p).

(** The arrays the two error-diffusion branches update in place are
    functions of the indices; every access checks its indices against the
    shape, as numpy does. *)
Definition add_at (a : nat -> nat -> nat -> Qc) (y x : nat) (v : list Qc)
  : nat -> nat -> nat -> Qc :=
  fun i y' x' => if (y' =? y) && (x' =? x) then (a i y' x' + nth i v 0)%Qc else a i y' x'.

Definition set_at (a : nat -> nat -> nat) (y x r : nat) : nat -> nat -> nat :=
  fun y' x' => if (y' =? y) && (x' =? x) then r else a y' x'.

Definition floyd_state : Type := (nat -> nat -> nat -> Qc) * (nat -> nat -> nat).

(** The body of the double loop of the Floyd-Steinberg branch. *)
Definition floyd_step (k h w y x : nat) (st : floyd_state) : result floyd_state :=
  let '(probs, res) := st in
  _ ← check_index (y + 1) (x + 1) h w;
  let quant_error := map (fun i => probs i y x / of_int 16)%Qc (seq 0 k) in
  let r := np_argmax quant_error in
  let res := set_at res y x r in
  let quant_error := <[r := 0%Qc]> quant_error in
  let probs := add_at probs y (x + 1) (map (fun e => e * of_int 7)%Qc quant_error) in
  let probs := add_at probs (y + 1) (x - 1) (map (fun e => e * of_int 3)%Qc quant_error) in
  let probs := add_at probs (y + 1) x (map (fun e => e * of_int 5)%Qc quant_error) in
  let probs := add_at probs (y + 1) (x + 1) quant_error in
  Ok (probs, res).

(** [res[y, x] = np.argmax(probs[:, y, x])] *)
Definition floyd_edge (k h w y x : nat) (st : floyd_state) : result floyd_state :=
  let '(probs, res) := st in
  _ ← check_index y x h w;
  Ok (probs, set_at res y x (np_argmax (map (fun i => probs i y x) (seq 0 k)))).

Definition dither_floyd (p : Pyx) (reshaped : list pixel) (final_h final_w : nat)
  : result (list (list Z) * Pyx) :=
  mdl ← the_model p;
  probs ← predict_proba (palette p) mdl reshaped;
  '(cols, p) ← colors p;
  let k := length cols in
  probs ← mapM_res (column probs) (seq 0 k);
  let probs := fun i y x =>
    np_power_sixth (as_grid final_w (nth i probs []) y x) in
  let res := fun _ _ => 0 in
  st ← for_each (fun y st =>
          for_each (floyd_step k final_h final_w y) (py_range 1 (final_w - 1)) st)
        (py_range 0 (final_h - 1)) (probs, res);
  (* fix edges *)
  st ← for_each (fun y st =>
          st ← floyd_edge k final_h final_w y (final_w - 1) st;
          floyd_edge k final_h final_w y 0 st)
        (py_range 0 final_h) st;
  st ← for_each (floyd_edge k final_h final_w (final_h - 1))
        (py_range 1 (final_w - 1)) st;
  X_ ← mapM_res (index cols) (concat (tab2 final_h final_w st.2));
  Ok (X_, p).

(** Where [np.pad(..., "reflect")] reads index [i] of an axis of length [n]
    (the edge sample is not repeated; an axis of one element repeats it). *)
Definition reflect_index (n : nat) (i : Z) : nat :=
  if n <=? 1 then 0 else
  let period := (2 * (Z.of_nat n - 1))%Z in
  let j := (i mod period)%Z in
  Z.to_nat (if (j <? Z.of_nat n)%Z then j else (period - j)%Z).

Definition atkinson_state : Type := (nat -> nat -> nat -> Qc) * (nat -> nat -> nat).

(** The body of the double loop of the Atkinson branch, on the padded
    image of shape [(h + 2, w + 3)]. *)
Definition atkinson_step (p : Pyx) (mdl : Model) (h w y x : nat) (st : atkinson_state)
  : result atkinson_state :=
  let '(X_, res) := st in
  _ ← check_index (y + 2) (x + 2) (h + 2) (w + 3);
  let px := row_of 3 (X_ y x) in
  pred ← predict_proba (palette p) mdl [px];
  let r := np_argmax (concat pred) in
  let res := set_at res y x r in
  let quant_error :=
    zip_with (fun v mu => (v - mu) / of_int 8)%Qc px (row_of 3 (sk_means mdl r)) in
  let add := fun (a : nat -> nat -> nat -> Qc) y' x' =>
    fun y0 x0 c => if (y0 =? y') && (x0 =? x') then (a y0 x0 c + nth c quant_error 0)%Qc
                   else a y0 x0 c in
  let X_ := add X_ y (x + 1) in
  let X_ := add X_ y (x + 2) in
  let X_ := add X_ (y + 1) (x - 1) in
  let X_ := add X_ (y + 1) x in
  let X_ := add X_ (y + 1) (x + 1) in
  let X_ := add X_ (y + 2) x in
  Ok (X_, res).

Definition dither_atkinson (p : Pyx) (X_ : image) (final_h final_w : nat)
  : result (list (list Z) * Pyx) :=
  mdl ← the_model p;
  let res := fun _ _ => 0 in
  (* np.pad(X_, ((0, 2), (1, 2), (0, 0)), "reflect") *)
  if (final_h =? 0) || (final_w =? 0) then Err ValueError else
  let X_ := fun y x c =>
    at3 (rows X_) (reflect_index final_h (Z.of_nat y))
                  (reflect_index final_w (Z.of_nat x - 1)) c in
  st ← for_each (fun y st =>
          for_each (atkinson_step p mdl final_h final_w y) (py_range 1 (final_w + 1)) st)
        (py_range 0 final_h) (X_, res);
  (* res[:final_h, 1:final_w+1] *)
  let res := tab2 final_h final_w (fun y x => st.2 y (x + 1)) in
  '(cols, p) ← colors p;
  X_ ← mapM_res (index cols) (concat res);
  Ok (X_, p).

(** *** [Pyx.transform] *)

(** [np.repeat(l, n, axis)] along the axis [l] lists. *)
Definition np_repeat {B} (n : nat) (l : list B) : list B :=
  concat (map (replicate n) l).

(** [X_[:, :, 3]] as an image of one channel, for [resize]. *)
Definition alpha_channel (X : image) : image :=
  NDArray (shape_h X) (shape_w X) 1 (kind X)
          (map (map (fun px => [nth 3 px 0%Qc])) (rows X)).

(** The adjustment of contrast: [rgb2hsv(equalize_adapthist(X_))],
    [X_[:, :, 1:] *= HIST_BRIGHTNESS], [hsv2rgb(np.clip(X_, 0., 1.))]. *)
Definition adjust_contrast (X_ : image) : result image :=
  let E := NDArray (shape_h X_) (shape_w X_) (shape_d X_) Floating
             (tabulate (shape_h X_) (shape_w X_) (shape_d X_) (equalize_adapthist X_)) in
  X_ ← convert_colour rgb2hsv E;
  let X_ := NDArray (shape_h X_) (shape_w X_) (shape_d X_) (kind X_)
              (map (map (imap (fun k v => if 1 <=? k then v * HIST_BRIGHTNESS else v)%Qc))
                   (rows X_)) in
  convert_colour hsv2rgb (map_image (np_clip 0 1) Floating X_).

(** One turn of [for _ in range(self.depth)], on an input of [d] channels. *)
Definition downsample_step (p : Pyx) (d : nat) (X_ : image) : result image :=
  X_ ← (if boost p && (d =? 3) then _median X_ else Ok X_);
  _pyxelate p X_.

(** The image before dithering and the resized alpha mask: everything
    [transform] does between its assertions and [np.reshape]. *)
Definition downsample (p : Pyx) (X : image) : result (image * option image) :=
  let h := shape_h X in
  let w := shape_w X in
  let d := shape_d X in
  '(new_h, new_w) ← _get_size p h w;
  '(X_, alpha_mask) ← (if 3 <? d then
                         X_ ← _dilate p X;
                         Ok (X_, Some (resize_to (alpha_channel X_) new_h new_w true))
                       else Ok (X, None));
  let '(new_h, new_w) :=
    if negb (depth p =? 0)
    then (new_h * sobel p ^ depth p, new_w * sobel p ^ depth p)
    else (new_h, new_w) in
  let X_ := resize_to (rgb_of X_) new_h new_w true in
  X_ ← (if boost p then adjust_contrast X_ else Ok X_);
  X_ ← for_each (fun _ => downsample_step p d) (py_range 0 (depth p)) X_;
  Ok (X_, alpha_mask).

(** [np.reshape(X_, (n, 3))] of an image. *)
Definition reshape_pixels (n : nat) (X_ : image) : result (list pixel) :=
  if shape_d X_ =? 3 then Ok (concat (rows X_))
  else if shape_h X_ * shape_w X_ * shape_d X_ =? n * 3
       then reshape_rows 3 X_ else Err ValueError.

(** [np.reshape(X_, (final_h, final_w, 3))] of the chosen colours. *)
Definition reshape_colours (final_h final_w : nat) (X_ : list (list Z))
  : result (list (list (list Z))) :=
  let flat := concat X_ in
  if length flat =? final_h * final_w * 3 then
    Ok (map (fun y => map (fun x => map (fun c => nth ((y * final_w + x) * 3 + c) flat 0%Z)
                                        (seq 0 3))
                          (seq 0 final_w))
            (seq 0 final_h))
  else Err ValueError.

(** [alpha_mask[alpha_mask >= self.alpha] = 255], then
    [alpha_mask[alpha_mask < self.alpha] = 0], then [.astype(int)]. *)
Definition resolve_alpha (a : Qc) (v : Qc) : Z :=
  let v := if Qleb a v then of_int 255 else v in
  let v := if Qltb v a then 0%Qc else v in
  astype_int v.

(** [np.dstack((X_[:, :, :3], alpha_mask.astype(int)))] *)
Definition attach_alpha (a : Qc) (final_h final_w : nat) (X_ : list (list (list Z)))
    (alpha_mask : option image) : result (nat * list (list (list Z))) :=
  match alpha_mask with
  | None => Ok (3, X_)
  | Some mask =>
      if (shape_h mask =? final_h) && (shape_w mask =? final_w) then
        Ok (4, imap (fun y row =>
                 imap (fun x px => take 3 px ++ [resolve_alpha a (at3 (rows mask) y x 0)])
                      row) X_)
      else Err ValueError
  end.

Definition dither_stage (p : Pyx) (X_ : image) (reshaped : list pixel)
    (final_h final_w : nat) : result (list (list Z) * Pyx) :=
  match dither p with
  | DitherNone => dither_none p reshaped
  | Naive => dither_naive p reshaped final_w
  | Bayer => dither_bayer p reshaped final_h final_w
  | Floyd => dither_floyd p reshaped final_h final_w
  | Atkinson => dither_atkinson p X_ final_h final_w
  end.

(** [Pyx.transform]: the image, and the instance with the palette cache as
    the call leaves it. *)
Definition transform (p : Pyx) (X : image) : result (ndarray Z * Pyx) :=
  _ ← py_assert (is_fitted p) NotFitted;
  _ ← py_assert (palette_size (palette p) <? shape_h X * shape_w X) TooManyColors;
  '(X_, alpha_mask) ← downsample p X;
  let final_h := shape_h X_ in
  let final_w := shape_w X_ in
  let X_ := if find_palette_of (palette p)
            then map_image (fun v => (v - frac 1 2) * SCALE_RGB + frac 1 2)%Qc Floating X_
            else X_ in
  reshaped ← reshape_pixels (final_h * final_w) X_;
  '(X_, p) ← dither_stage p X_ reshaped final_h final_w;
  X_ ← reshape_colours final_h final_w X_;
  '(d, X_) ← attach_alpha (alpha p) final_h final_w X_ alpha_mask;
  let X_ := np_repeat (upscale p).1 (map (np_repeat (upscale p).2) X_) in
  Ok (NDArray (final_h * (upscale p).1) (final_w * (upscale p).2) d Integer
              (map (map (map astype_uint8)) X_), p).

End Model.

(** ** The vocabulary of the statements *)

(** A colour of integer samples: three samples in [0, 255]. *)
Definition colour_wf (col : list Z) : Prop :=
  length col = 3 /\ Forall (fun v => (0 <= v <= 255)%Z) col.

(** The colours of a palette given as colours have three samples each, and
    integer samples are samples of the data model, within [0, 255]. *)
Definition palette_wf (pal : palette_spec) : Prop :=
  match pal with
  | Count _ => True
  | FloatColors cs => Forall (fun c => length c = 3) cs
  | IntColors cs => Forall colour_wf cs
  end.

(** [n] colours. *)
Definition colours_wf (n : nat) (c : list (list Z)) : Prop :=
  length c = n /\ Forall colour_wf c.

(** An instance built by [__init__] and fitted: what [fit] and [colors]
    establish and keep. *)
Definition ready `{ext : Externals} (p : Pyx) : Prop :=
  valid p /\ is_fitted p = true /\ is_some (model p) = true /\
  palette_wf (palette p) /\
  from_option (colours_wf (palette_size (palette p))) True (palette_cache p).

(** [q] is [p] up to the palette cache. *)
Definition same_config `{ext : Externals} (p q : Pyx) : Prop :=
  height q = height p /\ width q = width p /\ factor q = factor p /\
  upscale q = upscale p /\ depth q = depth p /\ palette q = palette p /\
  dither q = dither p /\ sobel q = sobel p /\ alpha q = alpha p /\
  boost q = boost p /\ model q = model p /\ is_fitted q = is_fitted p.

(** What every branch returns on [n] pixels: [n] colours, each one of
    [self.colors], and the instance as [colors] leaves it. *)
Definition dither_result `{ext : Externals} (p : Pyx) (n : nat)
    (r : result (list (list Z) * Pyx)) : Prop :=
  exists chosen cols p',
    r = Ok (chosen, p') /\ colors p = Ok (cols, p') /\
    colours_wf (palette_size (palette p)) cols /\ same_config p p' /\ ready p' /\
    length chosen = n /\ Forall (fun c => c ∈ cols) chosen.

(** The maps the Bayer branch takes its argmin over: for each colour [i] its
    posterior map, convolved with the Bayer matrix in reflect mode. *)
Definition bayer_map `{ext : Externals} (probs : list (list Qc)) (final_h final_w i : nat) : nat -> nat -> Qc :=
  convolve (tab2 final_h final_w (as_grid final_w (map (fun row => nth i row 0%Qc) probs)))
           DITHER_BAYER_MATRIX Reflect.

(** The flat indices the loop of the naive branch looks at, for [n] pixels. *)
Definition naive_visits (final_w n : nat) : list nat :=
  map (naive_target final_w) (py_range2 0 n).

(** The pixels of an [h] by [w] image all satisfy [P]. *)
Definition grid_of {B} (h w : nat) (P : B -> Prop) (G : list (list B)) : Prop :=
  length G = h /\ Forall (fun row => length row = w /\ Forall P row) G.

(** What an output pixel is: [d] samples of a byte, and for an image
    without alpha one of the colours [cols]. *)
Definition output_pixel (d : nat) (opaque : Prop) (cols : list (list Z)) (px : list Z) : Prop :=
  length px = d /\ Forall (fun v => (0 <= v < 256)%Z) px /\ (opaque -> px ∈ cols).

(** ** The routine of [src/PyxelateRutine.py] and the plottable palette *)

Section Routine.
Context `{ext : Externals}.

(** The property [Pyx._palette], [self._image_to_float(self.colors.reshape(-1, 3))]:
    [self.colors] is an integer array of shape (n, 1, 3); the array of shape
    (n, 3) that [reshape] returns is held as one row of n pixels. *)
Definition _palette (p : Pyx) : result (list pixel * Pyx) :=
  '(c, p) ← colors p;
  flat ← reshape_rows 3 (NDArray (length c) 1 3 Integer (map (fun col => [map of_int col]) c));
  Ok (concat (rows (_image_to_float (NDArray 1 (length flat) 3 Integer [flat]))), p).

(** [run], on the image that [io.imread] returned and the colours that
    [Pal.from_hex] made of the hexadecimal strings (a palette of float
    samples); it returns the image it hands to [io.imsave].  The other
    arguments of [Pyx] are the defaults of [__init__]. *)
Definition run (image_ : image) (downSample : nat) (colours : list (list Qc))
    (dither : dither_mode) : result (ndarray Z) :=
  pyx ← Pyx_init None None (Some downSample) (1, 1) 1 (FloatColors colours) dither 3
                 (frac 6 10) true;
  pyx ← fit pyx image_;
  '(new_image, _) ← transform pyx image_;
  Ok new_image.

End Routine.

(** The number of distinct colours among those of a palette. *)
Definition effective_colours (c : list (list Z)) : nat := length (remove_dups c).

(** What [fit] and [transform] do to a sample before the mixture sees it:
    [((X_ - .5) * SCALE_RGB) + .5] when the palette is to be found, nothing
    when it is given. *)
Definition scale_rgb `{ext : Externals} (p : Pyx) (v : Qc) : Qc :=
  if find_palette_of (palette p) then ((v - frac 1 2) * SCALE_RGB + frac 1 2)%Qc else v.

(** A sample of a found colour: 0, 255 or a multiple of [COLOR_QUANT]
    between the two thresholds. *)
Definition quantised (v : Z) : Prop :=
  v = 0%Z \/ v = 255%Z \/ ((16 <= v <= 232)%Z /\ (v mod 8 = 0)%Z).

(** The axis lengths [n] that [_pad] brings to a multiple of [t]. *)
Definition pad_fits (n t : nat) : Prop :=
  n mod t = 0 \/ (n mod t = 1 /\ t = 3) \/ (2 <= n mod t /\ n mod t + 1 = t).

(** A pixel of the image [transform] returns: a colour of [cols], followed
    for an input with an alpha channel by an alpha sample of 0 or 255. *)
Definition palette_pixel (with_alpha : bool) (cols : list (list Z)) (px : list Z) : Prop :=
  exists col, col ∈ cols /\
    if with_alpha then exists a, px = col ++ [a] /\ (a = 0%Z \/ a = 255%Z) else px = col.

(** ** A small instance of the collaborators

    Simple executable stand-ins with the interfaces of the libraries, to run
    the embedding on concrete images: a mixture whose means are the first
    samples (or the given colours) and whose posterior falls with the squared
    distance, a nearest-neighbour resize, identity colour conversions and
    filters, a horizontal-difference edge detector, the reflected
    convolution, and rational approximations of the two roots.  The theorems
    below hold for every instance of [Externals]. *)
Module Toy.

Definition dist2 (a b : pixel) : Qc :=
  Qsum (zip_with (fun x y => (x - y) * (x - y))%Qc a b).

Definition first_samples (pal : palette_spec) (X : list pixel) : option (list pixel) :=
  if length X <? palette_size pal then None else
  match pal with
  | Count k => Some (take k X)
  | FloatColors cs => Some cs
  | IntColors cs => Some (map (map (fun z => of_int z / of_int 255)%Qc) cs)
  end.

Definition closeness (m : list pixel) (px : pixel) (i : nat) : Qc :=
  (1 / (1 + dist2 px (nth i m [])))%Qc.

Definition proba (m : list pixel) (px : pixel) (i : nat) : Qc :=
  (closeness m px i / Qsum (map (closeness m px) (seq 0 (length m))))%Qc.

Definition nearest (X : image) (h w : nat) (aa : bool) (y x c : nat) : Qc :=
  let v := at3 (rows X) (y * shape_h X / h) (x * shape_w X / w) c in
  match kind X with
  | Integer => (v / of_int 255)%Qc
  | Floating => v
  end.

Definition edges (c : channel) (y x : nat) : Qc :=
  let d := (at2 c y (x + 1) - at2 c y x)%Qc in
  if Qltb d 0 then (- d)%Qc else d.

(** [scipy.ndimage.convolve], mode reflect (d c b a | a b c d | d c b a),
    the kernel centred at its index [size // 2]. *)
Definition reflect_scipy (n : nat) (i : Z) : nat :=
  let period := (2 * Z.of_nat n)%Z in
  let j := (i mod period)%Z in
  Z.to_nat (if (j <? Z.of_nat n)%Z then j else (period - 1 - j)%Z).

Definition conv (a w : channel) (mode : boundary) (y x : nat) : Qc :=
  let kh := length w in
  let kw := length (nth 0 w []) in
  let h := length a in
  let wd := length (nth 0 a []) in
  Qsum
    (flat_map (fun i => map (fun j =>
        (at2 w i j *
         at2 a (reflect_scipy h (Z.of_nat y + Z.of_nat (kh / 2) - Z.of_nat i))
               (reflect_scipy wd (Z.of_nat x + Z.of_nat (kw / 2) - Z.of_nat j)))%Qc)
      (seq 0 kw)) (seq 0 kh)).

(** The square root to four decimals. *)
Definition sqrt4 (q : Qc) : Qc :=
  Q2Qc (Qmake (Z.sqrt (Qnum q * Zpos (Qden q) * 100000000)) (Qden q * 10000)).

#[global] Instance ext : Externals := {|
  Model := list pixel;
  sk_fit := first_samples;
  sk_means := fun m i c => nth c (nth i m []) 0%Qc;
  sk_weighted_log_prob := fun m px i => (- dist2 px (nth i m []))%Qc;
  sk_predict_proba := proba;
  resize := nearest;
  rgb2hsv := fun px k => nth k px 0%Qc;
  hsv2rgb := fun px k => nth k px 0%Qc;
  equalize_adapthist := fun X y x c => at3 (rows X) y x c;
  skimage_sobel := edges;
  skimage_dilation := at2;
  skimage_median := at2;
  convolve := conv;
  np_sqrt := sqrt4;
  np_power_sixth := fun q => sqrt4 (sqrt4 q)
|}.

(** Whether two arrays of posteriors hold the same numbers. *)
Definition same_rows (a b : list (list Qc)) : bool :=
  (length a =? length b) &&
  forallb (fun '((r1, r2) : list Qc * list Qc) =>
     (length r1 =? length r2) && forallb (fun xy : Qc * Qc => Qeq_bool xy.1 xy.2) (combine r1 r2))
    (combine a b).

(** A 4 x 4 image of integer samples, dark on the left and bright on the
    right, and its negative. *)
Definition dark : pixel := map of_int [10; 20; 30]%Z.
Definition bright : pixel := map of_int [200; 220; 240]%Z.
Definition grey : pixel := map of_int [120; 130; 140]%Z.
Definition row_a : list pixel := [dark; grey; bright; bright].
Definition row_b : list pixel := [bright; bright; grey; dark].
Definition img_a : image := NDArray 4 4 3 Integer [row_a; row_a; row_a; row_a].
Definition img_b : image := NDArray 4 4 3 Integer [row_b; row_b; row_b; row_b].

(** A 1 x 2 image: two pixels. *)
Definition img_2px : image := NDArray 1 2 3 Integer [[dark; bright]].

(** A 1 x 1 image. *)
Definition img_1px : image := NDArray 1 1 3 Integer [[dark]].

(** A mixture fitted to two colours, and an instance that holds it. *)
Definition model_a : @Model ext := [map (fun v => v / of_int 255)%Qc dark;
                                    map (fun v => v / of_int 255)%Qc bright].
Definition fitted_a : Pyx :=
  MkPyx None None None (1, 1) 1 (Count 2) DitherNone 3 (frac 6 10) false
        (Some model_a) true None.
Definition colors_a : list (list Z) := map (found_colour model_a) (seq 0 2).

(** [Pyx(palette=k, dither=d, sobel=s, depth=n, upscale=u, boost=False)] *)
Definition make (k : nat) (d : dither_mode) (s n u : nat) : result Pyx :=
  Pyx_init None None None (u, u) n (Count k) d s (frac 6 10) false.

(** [Pyx(palette=2, boost=False)] as [__init__] leaves it, and with
    [factor=2]. *)
Definition fresh : Pyx :=
  MkPyx None None None (1, 1) 1 (Count 2) DitherNone 3 (frac 6 10) false None false None.
Definition halving : Pyx :=
  MkPyx None None (Some 2) (1, 1) 1 (Count 2) DitherNone 3 (frac 6 10) false None false None.

(** A palette of two float colours, with samples outside [0, 1], and an
    instance that holds it. *)
Definition given_colours : list (list Qc) :=
  [ [frac 0 1; frac 1 2; frac 1 1]; [frac 2 1; frac (-1) 1; frac 1 4] ].
Definition given : Pyx :=
  MkPyx None None None (1, 1) 1 (FloatColors given_colours) DitherNone 3 (frac 6 10) false
        None false None.

(** [fitted_a] with [factor=8], with [dither="floyd"], with [upscale=(2, 3)]. *)
Definition coarse : Pyx :=
  MkPyx None None (Some 8) (1, 1) 1 (Count 2) DitherNone 3 (frac 6 10) false
        (Some model_a) true None.
Definition floyd_a : Pyx :=
  MkPyx None None None (1, 1) 1 (Count 2) Floyd 3 (frac 6 10) false
        (Some model_a) true None.
Definition enlarged : Pyx :=
  MkPyx None None None (2, 3) 1 (Count 2) DitherNone 3 (frac 6 10) false
        (Some model_a) true None.

(** [img_a] with an alpha channel: transparent on the left, opaque on the
    right. *)
Definition img_rgba : image :=
  NDArray 4 4 4 Integer
    (map (imap (fun x px => px ++ [of_int (if x <? 2 then 0 else 255)])) (rows img_a)).

End Toy.

(** ** Padding: inverse pair and divisibility *)

Section GeometryFacts.
Context {A : Type}.

Lemma length_edge_axis {B} (b a : nat) (l : list B) :
  l <> [] -> length (edge_axis b a l) = b + length l + a.
Proof.
  destruct l as [|x l]; [done|]. intros _. unfold edge_axis.
  rewrite !length_app, !length_replicate. lia.
Qed.

Lemma py_slice_open {B} (s : nat) (l : list B) :
  py_slice (Z.of_nat s) None l = drop s l.
Proof.
  unfold py_slice, slice_index. simpl from_option.
  destruct (Z.ltb_spec (Z.of_nat s) 0); [lia|].
  destruct (Nat.le_gt_cases s (length l)).
  - replace (Z.to_nat _) with s by lia.
    apply firstn_all2. rewrite length_drop. lia.
  - replace (Z.to_nat _) with (length l) by lia.
    rewrite Nat.sub_diag, !drop_ge by lia. done.
Qed.

Lemma py_slice_but_last {B} (s : nat) (l : list B) :
  py_slice (Z.of_nat s) (Some (-1)%Z) l = take (length l - 1 - s) (drop s l).
Proof.
  unfold py_slice, slice_index. simpl from_option.
  destruct (Z.ltb_spec (Z.of_nat s) 0); [lia|].
  simpl Z.ltb. cbv iota.
  replace (Z.to_nat (Z.max _ _)) with (length l - 1) by lia.
  destruct (Nat.le_gt_cases s (length l)).
  - by replace (Z.to_nat (Z.min _ _)) with s by lia.
  - replace (Z.to_nat (Z.min _ _)) with (length l) by lia.
    rewrite !drop_ge by lia. by rewrite !take_nil.
Qed.

(** Cropping [b] leading and [a] trailing elements undoes one axis of edge
    padding, for the pad widths [_pad] uses. *)
Lemma py_slice_edge_axis {B} (b a : nat) (l : list B) :
  a <= 1 ->
  py_slice (Z.of_nat b) (if a =? 1 then Some (-1)%Z else None) (edge_axis b a l) = l.
Proof.
  intros Ha. destruct l as [|x l].
  { destruct (a =? 1); [rewrite py_slice_but_last|rewrite py_slice_open];
      simpl; by rewrite ?drop_nil, ?take_nil. }
  unfold edge_axis. set (l0 := x :: l).
  destruct a as [|[|a]]; [ | | lia]; simpl "=?"; cbv iota.
  - rewrite py_slice_open. simpl replicate. rewrite app_nil_r.
    rewrite drop_app_length'; [done | by rewrite length_replicate].
  - rewrite py_slice_but_last.
    rewrite drop_app_length' by (by rewrite length_replicate).
    rewrite !length_app, !length_replicate.
    replace (b + (length l0 + 1) - 1 - b) with (length l0) by lia.
    by rewrite take_app_length.
Qed.

Lemma slice_length_crop (n b a : nat) :
  a <= 1 ->
  slice_length (b + n + a) (Z.of_nat b) (if a =? 1 then Some (-1)%Z else None) = n.
Proof.
  intros Ha. unfold slice_length, slice_index.
  destruct (Z.ltb_spec (Z.of_nat b) 0); [lia|].
  destruct a as [|[|a]]; [ | | lia]; simpl "=?"; cbv iota; simpl from_option.
  - lia.
  - simpl Z.ltb. cbv iota. lia.
Qed.

Lemma pad_reduces (X : ndarray A) (t : nat) :
  t <> 0 ->
  _pad X t None None =
  Ok (NDArray (pad_before (shape_h X) t + shape_h X + pad_after (shape_h X) t)
              (pad_before (shape_w X) t + shape_w X + pad_after (shape_w X) t)
              (shape_d X) (kind X)
              (edge_axis (pad_before (shape_h X) t) (pad_after (shape_h X) t)
                 (map (edge_axis (pad_before (shape_w X) t) (pad_after (shape_w X) t))
                      (rows X)))).
Proof.
  intros Ht. unfold _pad, np_pad_edge.
  destruct (Nat.eqb_spec t 0) as [|_]; [done|].
  fold (pad_before (shape_h X) t) (pad_after (shape_h X) t)
       (pad_before (shape_w X) t) (pad_after (shape_w X) t).
  assert (Hz : forall n, n = 0 -> pad_before n t + pad_after n t = 0).
  { intros n ->. unfold pad_before, pad_after. by rewrite Nat.Div0.mod_0_l. }
  destruct (Nat.eqb_spec (shape_h X) 0) as [->%Hz| ];
    destruct (Nat.eqb_spec (shape_w X) 0) as [->%Hz| ]; simpl; done.
Qed.

Lemma unpad_reduces (P : ndarray A) (t nh nw : nat) :
  t <> 0 ->
  _pad P t (Some nh) (Some nw) =
  Ok (np_slice P (Z.of_nat (pad_before nh t))
                 (if pad_after nh t =? 1 then Some (-1)%Z else None)
                 (Z.of_nat (pad_before nw t))
                 (if pad_after nw t =? 1 then Some (-1)%Z else None)).
Proof.
  intros Ht. unfold _pad, pad_before, pad_after.
  destruct (Nat.eqb_spec t 0) as [|_]; [done|].
  by destruct (0 <? nh mod t), (nh mod t =? 1), (0 <? nw mod t), (nw mod t =? 1).
Qed.

Lemma pad_after_le (n t : nat) : pad_after n t <= 1.
Proof. unfold pad_after. destruct (_ =? _); lia. Qed.

Lemma pad_before_le (n t : nat) : pad_before n t <= 1.
Proof. unfold pad_before. destruct (_ <? _); lia. Qed.

(** C1: for every image [X] of shape (h, w, d) and every tile size
    [t >= 2], padding succeeds and removing the padding with the original
    height and width gives [X] back, sample for sample and with its shape:
    [_pad(_pad(X, t), t, h, w) == X]. *)
Theorem pad_unpad_inverse (X : ndarray A) (t : nat) :
  2 <= t ->
  exists P, _pad X t None None = Ok P /\
            _pad P t (Some (shape_h X)) (Some (shape_w X)) = Ok X.
Proof.
  intros Ht. eexists. split; [apply pad_reduces; lia|].
  rewrite unpad_reduces by lia. f_equal.
  destruct X as [h w d k r]. unfold np_slice. simpl in *.
  rewrite !slice_length_crop by apply pad_after_le. f_equal.
  rewrite py_slice_edge_axis by apply pad_after_le.
  rewrite map_map. rewrite <- (map_id r) at 2.
  apply map_ext. intros row. apply py_slice_edge_axis, pad_after_le.
Qed.

(** What [_pad] adds is at most one row or column on each side ... *)
Lemma pad_shape (X : ndarray A) (t : nat) (P : ndarray A) :
  t <> 0 -> _pad X t None None = Ok P ->
  shape_h P = pad_before (shape_h X) t + shape_h X + pad_after (shape_h X) t /\
  shape_w P = pad_before (shape_w X) t + shape_w X + pad_after (shape_w X) t /\
  shape_d P = shape_d X /\ kind P = kind X.
Proof. intros Ht. rewrite pad_reduces by done. by intros [= <-]. Qed.

(** ... and with the tile size 3, the one the code pads to outside
    [_pyxelate], the padded axis is a multiple of the tile. *)
Lemma pad3_multiple (n : nat) :
  (pad_before n 3 + n + pad_after n 3) mod 3 = 0.
Proof.
  unfold pad_before, pad_after.
  pose proof (Nat.mod_upper_bound n 3 ltac:(lia)) as Hlt.
  pose proof (Nat.div_mod_eq n 3) as Hn.
  destruct (n mod 3) as [|[|[|r]]] eqn:Hr; [ | | |lia];
    cbn [Nat.ltb Nat.leb Nat.eqb].
  - replace (0 + n + 0) with (n / 3 * 3) by lia. apply Nat.Div0.mod_mul.
  - replace (1 + n + 1) with ((n / 3 + 1) * 3) by lia. apply Nat.Div0.mod_mul.
  - replace (1 + n + 0) with ((n / 3 + 1) * 3) by lia. apply Nat.Div0.mod_mul.
Qed.

(** An axis that is a multiple of the tile is left alone. *)
Lemma pad_multiple (n t : nat) :
  n mod t = 0 -> pad_before n t = 0 /\ pad_after n t = 0.
Proof. unfold pad_before, pad_after. by intros ->. Qed.

End GeometryFacts.

(** The witness of C1: a 4 x 4 image and the tile size 3. *)
Lemma pad_unpad_inverse_witness :
  2 <= 3 /\
  exists P, _pad Toy.img_a 3 None None = Ok P /\
            _pad P 3 (Some 4) (Some 4) = Ok Toy.img_a.
Proof. split; [lia | apply (pad_unpad_inverse Toy.img_a 3); lia]. Defined.

(** C2, at the tile size 2: padding a 1 x 1 image gives a 3 x 3 image,
    and 3 is no multiple of 2.  The comment in [_pad] reads "pad edges so
    image is divisible by pad_size". *)
Theorem pad_tile2_not_multiple :
  (P ← _pad Toy.img_1px 2 None None;
   Ok (shape_h P, shape_w P, shape_h P mod 2, shape_w P mod 2)) = Ok (3, 3, 1, 1).
Proof. reflexivity. Qed.

(** ** The error monad *)

Lemma bind_ok {B C} (m : result B) (k : B -> result C) (c : C) :
  m ≫= k = Ok c <-> exists b, m = Ok b /\ k b = Ok c.
Proof.
  destruct m as [b|e]; simpl; split.
  - eauto.
  - by intros (? & [= ->] & ?).
  - done.
  - by intros (? & ? & ?).
Qed.

Lemma bind_err {B C} (m : result B) (k : B -> result C) (e : error) :
  m ≫= k = Err e <-> m = Err e \/ exists b, m = Ok b /\ k b = Err e.
Proof.
  destruct m as [b|e']; simpl; split.
  - intros H. right. by exists b.
  - by intros [|(? & [= ->] & ?)].
  - intros [= ->]. by left.
  - intros [[= ->]|(? & ? & ?)]; [done|discriminate].
Qed.

Lemma bind_Ok {B C} (b : B) (k : B -> result C) : Ok b ≫= k = k b.
Proof. done. Qed.

Lemma bind_Err {B C} (e : error) (k : B -> result C) : Err e ≫= k = Err e.
Proof. done. Qed.

Lemma py_assert_ok (c : bool) (a : assertion) (u : unit) :
  py_assert c a = Ok u <-> c = true.
Proof. destruct c, u; by split. Qed.

(** A loop whose body keeps an invariant and never raises under it returns,
    with the invariant. *)
Lemma for_each_invariant {S B} (I : S -> Prop) (body : B -> S -> result S)
    (l : list B) (s : S) :
  I s ->
  (forall x s, x ∈ l -> I s -> exists s', body x s = Ok s' /\ I s') ->
  exists s', for_each body l s = Ok s' /\ I s'.
Proof.
  revert s. induction l as [|x l IH]; intros s Hs Hbody; simpl.
  - eauto.
  - destruct (Hbody x s) as (s' & -> & Hs'); [by left | done |]. simpl.
    apply IH; [done|]. intros y t Hy. apply Hbody. by right.
Qed.

Lemma mapM_res_ok {B C} (f : B -> result C) (g : B -> C) (l : list B) :
  (forall x, x ∈ l -> f x = Ok (g x)) -> mapM_res f l = Ok (map g l).
Proof.
  induction l as [|x l IH]; intros Hf; simpl; [done|].
  rewrite Hf by left. simpl. rewrite IH; [done|]. intros y Hy. apply Hf. by right.
Qed.

Lemma mapM_res_inv {B C} (f : B -> result C) (l : list B) (ys : list C) :
  mapM_res f l = Ok ys -> Forall2 (fun x y => f x = Ok y) l ys.
Proof.
  revert ys. induction l as [|x l IH]; intros ys; simpl.
  - intros [= <-]. constructor.
  - intros (y & Hy & (ys' & Hys & [= <-])%bind_ok)%bind_ok.
    constructor; eauto.
Qed.

Section ModelFacts.
Context `{ext : Externals}.

(** ** [BGM.predict_proba] *)

(** C6, as the code has it: [predict_proba] returns one row per sample, and
    the row holds, for each component, the square root of the posterior of
    the mixture when the size of the palette (the number of colours asked
    for, or the number of colours given) is below 3, and the posterior
    itself when it is 3 or more.  Nothing else is done to the square roots:
    they are not normalised again.  The colours the fitted mixture ends up
    with play no part. *)
Theorem predict_proba_sqrt_below_three (pal : palette_spec) (m : Model) (X : list pixel) :
  X <> [] ->
  exists post probs,
    super_predict_proba pal m X = Ok post /\ predict_proba pal m X = Ok probs /\
    length probs = length X /\
    forall i px, X !! i = Some px ->
      post !! i = Some (map (sk_predict_proba m px) (seq 0 (palette_size pal))) /\
      probs !! i = Some (map (fun j => if palette_size pal <? 3
                                       then np_sqrt (sk_predict_proba m px j)
                                       else sk_predict_proba m px j)
                             (seq 0 (palette_size pal))).
Proof.
  intros HX. unfold predict_proba, super_predict_proba.
  assert (sk_check X = Ok tt) as -> by (by destruct X).
  rewrite !bind_Ok.
  set (post := map (fun px => row_of (palette_size pal) (sk_predict_proba m px)) X).
  assert (forall i px, X !! i = Some px ->
            post !! i = Some (map (sk_predict_proba m px) (seq 0 (palette_size pal)))) as Hpost.
  { intros i px Hi. subst post. by rewrite list_lookup_fmap, Hi. }
  exists post,
    (if palette_size pal <? 3 then map (map np_sqrt) post else post).
  split; [done|]. split; [by destruct pal; simpl; destruct (_ <? 3)|].
  split; [destruct (_ <? 3); subst post; by rewrite ?length_map|].
  intros i px Hi. split; [by apply Hpost|].
  destruct (_ <? 3).
  - rewrite list_lookup_fmap, (Hpost i px Hi). simpl. by rewrite map_map.
  - by apply Hpost.
Qed.

(** ** The palette cache across [fit] *)

Lemma fit_keeps_cache (p p' : Pyx) (X : image) :
  fit p X = Ok p' -> palette_cache p' = palette_cache p.
Proof.
  unfold fit. intros (X_ & _ & (m & _ & [= <-])%bind_ok)%bind_ok. done.
Qed.

Lemma colors_fills_cache (p p' : Pyx) (c : list (list Z)) :
  colors p = Ok (c, p') -> palette_cache p' = Some c.
Proof.
  unfold colors. destruct (palette_cache p) as [c0|] eqn:Hc.
  - by intros [= <- <-].
  - intros (c1 & _ & [= <- <-])%bind_ok. done.
Qed.

Lemma colors_of_cache (p : Pyx) (c : list (list Z)) :
  palette_cache p = Some c -> colors p = Ok (c, p).
Proof. unfold colors. by intros ->. Qed.

(** C4, as the code has it: [fit] leaves [palette_cache] alone.  Once
    [colors] has been read, reading it after a later [fit] returns the same
    cached colours, whatever the new model is. *)
Theorem colors_survive_refit (p p1 p2 : Pyx) (c : list (list Z)) (X : image) :
  colors p = Ok (c, p1) ->
  fit p1 X = Ok p2 ->
  colors p2 = Ok (c, p2).
Proof.
  intros Hc Hfit. apply colors_of_cache.
  rewrite (fit_keeps_cache _ _ _ Hfit). by eapply colors_fills_cache.
Qed.

End ModelFacts.

(** The witness of C6: two colours asked for, one sample. *)
Lemma predict_proba_sqrt_below_three_witness :
  [Toy.dark] <> [] /\
  exists post probs,
    super_predict_proba (Count 2) Toy.model_a [Toy.dark] = Ok post /\
    predict_proba (Count 2) Toy.model_a [Toy.dark] = Ok probs /\
    length probs = length [Toy.dark] /\
    forall i px, [Toy.dark] !! i = Some px ->
      post !! i = Some (map (sk_predict_proba Toy.model_a px) (seq 0 2)) /\
      probs !! i = Some (map (fun j => if 2 <? 3
                                       then np_sqrt (sk_predict_proba Toy.model_a px j)
                                       else sk_predict_proba Toy.model_a px j)
                             (seq 0 2)).
Proof.
  split; [done|]. apply (predict_proba_sqrt_below_three (Count 2) Toy.model_a [Toy.dark]). done.
Defined.

(** C6 fails on the code for the colours the model ends up with: an
    instance asked for 3 colours and fitted on [img_b], whose first pixels
    are equal, has a palette of 2 distinct colours, and [predict_proba]
    returns the posterior of the mixture as it is, not its square root. *)
Lemma sqrt_ignores_effective_palette :
  (p ← Toy.make 3 DitherNone 3 1 1;
   p ← fit p Toy.img_b;
   '(c, p) ← colors p;
   m ← the_model p;
   probs ← predict_proba (palette p) m [Toy.dark];
   post ← super_predict_proba (palette p) m [Toy.dark];
   Ok (c, effective_colours c, Toy.same_rows probs post,
       Toy.same_rows probs (map (map np_sqrt) post)))
  = Ok ([[200; 255; 255]; [200; 255; 255]; [112; 136; 144]]%Z, 2, true, false).
Proof. vm_compute. reflexivity. Qed.

(** C4 fails on the code: an instance fitted on [img_a] whose colours were
    read, then fitted again on [img_b], still has the cache of the first
    model and [colors] returns it; the colours of the model it now holds
    (those a fresh instance fitted on [img_b] returns) are others. *)
Lemma refit_keeps_stale_colors :
  (p ← Toy.make 2 DitherNone 3 1 1;
   p1 ← fit p Toy.img_a;
   '(c1, p1) ← colors p1;
   p2 ← fit p1 Toy.img_b;
   '(c2, _) ← colors p2;
   m2 ← the_model p2;
   Ok (c1, palette_cache p2, c2, map (found_colour m2) (seq 0 2)))
  = Ok ([[0; 0; 24]; [112; 136; 144]]%Z,
        Some [[0; 0; 24]; [112; 136; 144]]%Z,
        [[0; 0; 24]; [112; 136; 144]]%Z,
        [[200; 255; 255]; [200; 255; 255]]%Z).
Proof. vm_compute. reflexivity. Qed.

Lemma fit_b_returns : is_ok (fit (with_cache Toy.fitted_a Toy.colors_a) Toy.img_b) = true.
Proof. vm_compute. reflexivity. Qed.

(** The witness of C4. *)
Lemma colors_survive_refit_witness :
  exists p p1 p2 c,
    colors p = Ok (c, p1) /\ fit p1 Toy.img_b = Ok p2 /\ colors p2 = Ok (c, p2).
Proof.
  pose proof fit_b_returns as H.
  destruct (fit (with_cache Toy.fitted_a Toy.colors_a) Toy.img_b) as [p2|e] eqn:Hf;
    [|discriminate H].
  exists Toy.fitted_a, (with_cache Toy.fitted_a Toy.colors_a), p2, Toy.colors_a.
  split; [reflexivity|]. split; [exact Hf|].
  exact (colors_survive_refit Toy.fitted_a _ p2 _ Toy.img_b eq_refl Hf).
Defined.

(** ** Shapes *)

Section ShapeFacts.
Context {A : Type}.

Lemma shaped_tabulate (h w d : nat) (k : dtype) (f : nat -> nat -> nat -> A) :
  shaped (NDArray h w d k (tabulate h w d f)).
Proof.
  unfold shaped, tabulate. simpl. split; [by rewrite length_map, length_seq|].
  apply Forall_map, Forall_forall. intros y _. simpl.
  split; [by rewrite length_map, length_seq|].
  apply Forall_map, Forall_forall. intros x _. simpl.
  by rewrite length_map, length_seq.
Qed.

Lemma Forall_edge_axis {B} (P : B -> Prop) (b a : nat) (l : list B) :
  Forall P l -> Forall P (edge_axis b a l).
Proof.
  intros Hl. destruct l as [|x l]; [done|]. unfold edge_axis.
  assert (Hlast : P (List.last (x :: l) x)).
  { destruct (exists_last (l:=x :: l)) as (l' & z & Hz); [done|].
    rewrite Hz, last_last. rewrite Hz in Hl. apply Forall_app in Hl as [_ Hl].
    by inversion Hl. }
  inversion Hl; subst.
  repeat (apply Forall_app; split); try done; by apply Forall_replicate.
Qed.

Lemma length_edge_axis_shaped {B} (b a n : nat) (l : list B) :
  length l = n -> (n = 0 -> b + a = 0) -> length (edge_axis b a l) = b + n + a.
Proof.
  intros <- Hz. destruct l as [|x l].
  - simpl. specialize (Hz eq_refl). lia.
  - by rewrite length_edge_axis.
Qed.

Lemma pad_widths_zero (t : nat) : pad_before 0 t + pad_after 0 t = 0.
Proof. unfold pad_before, pad_after. by rewrite Nat.Div0.mod_0_l. Qed.

Lemma shaped_pad (X P : ndarray A) (t : nat) :
  t <> 0 -> shaped X -> _pad X t None None = Ok P -> shaped P.
Proof.
  intros Ht [Hh Hw]. rewrite pad_reduces by done. intros [= <-].
  split; simpl.
  - apply length_edge_axis_shaped; [by rewrite length_map|].
    intros ->. apply pad_widths_zero.
  - apply Forall_edge_axis, Forall_map.
    eapply List.Forall_impl; [|exact Hw]. intros r [Hr Hpx]. simpl. split.
    + apply length_edge_axis_shaped; [done|]. intros ->. apply pad_widths_zero.
    + by apply Forall_edge_axis.
Qed.

Lemma slice_index_le (n : nat) (i : Z) : slice_index n i <= n.
Proof. unfold slice_index. destruct (Z.ltb_spec i 0); lia. Qed.

Lemma length_py_slice {B} (s : Z) (e : option Z) (l : list B) :
  length (py_slice s e l) = slice_length (length l) s e.
Proof.
  unfold py_slice, slice_length. rewrite length_take, length_drop.
  assert (from_option (slice_index (length l)) (length l) e <= length l).
  { destruct e; simpl; [apply slice_index_le|done]. }
  lia.
Qed.

Lemma Forall_py_slice {B} (P : B -> Prop) (s : Z) (e : option Z) (l : list B) :
  Forall P l -> Forall P (py_slice s e l).
Proof. intros H. unfold py_slice. by apply Forall_take, Forall_drop. Qed.

Lemma shaped_np_slice (X : ndarray A) (s0 : Z) (e0 : option Z) (s1 : Z) (e1 : option Z) :
  shaped X -> shaped (np_slice X s0 e0 s1 e1).
Proof.
  intros [Hh Hw]. split; simpl.
  - by rewrite length_map, length_py_slice, Hh.
  - apply Forall_map, Forall_py_slice.
    eapply List.Forall_impl; [|exact Hw]. intros r [Hr Hpx]. simpl. split.
    + by rewrite length_py_slice, Hr.
    + by apply Forall_py_slice.
Qed.

(** Removing the padding of an array that has the padded shape of an
    [h] by [w] image gives the shape [(h, w)] back. *)
Lemma unpad_shape (P : ndarray A) (t h w : nat) :
  t <> 0 ->
  shape_h P = pad_before h t + h + pad_after h t ->
  shape_w P = pad_before w t + w + pad_after w t ->
  exists U, _pad P t (Some h) (Some w) = Ok U /\
    shape_h U = h /\ shape_w U = w /\ shape_d U = shape_d P /\ kind U = kind P /\
    (shaped P -> shaped U).
Proof.
  intros Ht Hh Hw. rewrite unpad_reduces by done. eexists. split; [done|].
  simpl. rewrite Hh, Hw, !slice_length_crop by apply pad_after_le.
  split_and!; try done. apply shaped_np_slice.
Qed.

Lemma length_concat_uniform {B} (n : nat) (l : list (list B)) :
  Forall (fun r => length r = n) l -> length (concat l) = length l * n.
Proof.
  induction 1 as [|r l Hr _ IH]; simpl; [done|].
  rewrite length_app, IH, Hr. lia.
Qed.

Lemma length_concat_rows (X : ndarray A) :
  shaped X -> length (concat (rows X)) = shape_h X * shape_w X.
Proof.
  intros [Hh Hw]. rewrite <- Hh. apply length_concat_uniform.
  eapply List.Forall_impl; [|exact Hw]. by intros r [Hr _].
Qed.

Lemma length_concat_samples (X : ndarray A) :
  shaped X -> length (concat (concat (rows X))) = shape_h X * shape_w X * shape_d X.
Proof.
  intros HX. rewrite <- (length_concat_rows X HX).
  apply length_concat_uniform. destruct HX as [_ Hw].
  apply Forall_concat. eapply List.Forall_impl; [|exact Hw]. by intros r [_ Hpx].
Qed.

End ShapeFacts.

Lemma shaped_imap {A} (X : ndarray A) (g : nat -> nat -> list A -> list A) :
  (forall y x px, length px = shape_d X -> length (g y x px) = shape_d X) ->
  shaped X ->
  shaped (NDArray (shape_h X) (shape_w X) (shape_d X) (kind X)
            (imap (fun y row => imap (fun x px => g y x px) row) (rows X))).
Proof.
  intros Hg [Hh Hw]. split; simpl; [by rewrite length_imap|].
  rewrite Forall_lookup in Hw. apply Forall_lookup. intros y row'.
  rewrite list_lookup_imap. destruct (rows X !! y) as [row|] eqn:Hrow; [|done].
  intros [= <-]. destruct (Hw _ _ Hrow) as [Hr Hpx].
  split; [by rewrite length_imap|].
  rewrite Forall_lookup in Hpx. apply Forall_lookup. intros x px'.
  rewrite list_lookup_imap. destruct (row !! x) as [px|] eqn:Hpx'; [|done].
  intros [= <-]. apply Hg. eauto.
Qed.

(** [reshape] into rows of [n] and [concat] are inverse to each other. *)
Lemma reshape_uniform {B} (m n : nat) (l : list B) :
  length l = m * n -> Forall (fun r => length r = n) (reshape (replicate m n) l).
Proof.
  revert l. induction m as [|m IH]; intros l Hl; simpl; [done|].
  constructor.
  - rewrite length_take. lia.
  - apply IH. rewrite length_drop. lia.
Qed.

Lemma reshape_concat_uniform {B} (n : nat) (l : list (list B)) :
  Forall (fun r => length r = n) l -> reshape (replicate (length l) n) (concat l) = l.
Proof.
  induction 1 as [|x l Hx _ IH]; simpl; [done|].
  rewrite take_app_length', drop_app_length' by done. by rewrite IH.
Qed.

Section StageFacts.
Context `{ext : Externals}.

Lemma length_row_of (n : nat) (f : nat -> Qc) : length (row_of n f) = n.
Proof. unfold row_of. by rewrite length_map, length_seq. Qed.

Lemma each_channel_ok (f : channel -> nat -> nat -> Qc) (X : image) :
  shape_d X = 3 \/ shape_d X = 4 ->
  each_channel f X =
  Ok (NDArray (shape_h X) (shape_w X) (shape_d X) (kind X)
        (tabulate (shape_h X) (shape_w X) (shape_d X) (fun y x c => f (chan X c) y x))).
Proof. unfold each_channel. by intros [-> | ->]. Qed.

(** [_dilate] returns an image of the shape of its argument. *)
Lemma dilate_ok (p : Pyx) (X : image) :
  3 <= shape_d X ->
  exists D, _dilate p X = Ok D /\
    shape_h D = shape_h X /\ shape_w D = shape_w X /\ shape_d D = shape_d X /\
    kind D = kind X /\ (shaped X -> shaped D).
Proof.
  intros Hd. unfold _dilate.
  destruct (_pad X 3 None None) as [P|] eqn:HP; [|by rewrite pad_reduces in HP].
  destruct (pad_shape X 3 P ltac:(done) HP) as (Hh & Hw & HPd & Hk).
  rewrite bind_Ok, each_channel_ok, bind_Ok by (cbn [shape_d rgb_of]; lia).
  match goal with |- context [_pad ?U 3 _ _] => set (X_ := U) end.
  destruct (unpad_shape X_ 3 (shape_h X) (shape_w X) ltac:(done) Hh Hw)
    as (U & -> & HUh & HUw & HUd & HUk & HU).
  exists U. split_and!; [done..| by rewrite HUd | by rewrite HUk |].
  intros HX. apply HU. apply (shaped_imap P).
  - intros y x px Hpx. destruct (Qltb _ _); [|done].
    rewrite length_app, length_row_of, length_drop. lia.
  - by apply (shaped_pad X P 3).
Qed.

Lemma reshape_rows_ok (n : nat) (X : image) :
  n <> 0 -> shaped X -> (shape_h X * shape_w X * shape_d X) mod n = 0 ->
  is_ok (reshape_rows n X) = true.
Proof.
  intros Hn HX Hmod. unfold reshape_rows.
  destruct (Nat.eqb_spec n 0); [done|].
  by rewrite length_concat_samples, Hmod.
Qed.

(** ** [fit] on an image with an alpha channel *)

(** The samples of the mixture, for an image of 4 channels: the resized
    colour channels of the whole image.  What [fit] computes from the alpha
    channel on the way is dropped. *)
Lemma fit_samples_four_channels (p : Pyx) (X : image) :
  shaped X -> shape_d X = 4 ->
  fit_samples p X =
  (X_ ← reshape_rows 3
         (_image_to_float
            (resize_to (rgb_of X) 1
               (Nat.min (shape_h X) BGM_RESIZE * Nat.min (shape_w X) BGM_RESIZE) false));
   if find_palette_of (palette p)
   then Ok (map (map (fun v => (v - frac 1 2) * SCALE_RGB + frac 1 2)%Qc) X_)
   else Ok X_).
Proof.
  intros HX Hd. unfold fit_samples. rewrite Hd. simpl (3 <? 4). cbv iota.
  destruct (dilate_ok p X ltac:(lia)) as (D & -> & Hh & Hw & HDd & Hk & HD).
  rewrite bind_Ok.
  destruct (reshape_rows 4 D) as [r|] eqn:Hr; [by rewrite !bind_Ok|].
  assert (is_ok (reshape_rows 4 D) = true) as Hok.
  { apply reshape_rows_ok; [done|by apply HD|].
    rewrite HDd, Hd. apply Nat.Div0.mod_mul. }
  by rewrite Hr in Hok.
Qed.

(** [reshape(-1, 3)] of a resized image of 3 channels: its pixels, row
    after row, of three samples each. *)
Lemma resized_pixels (Y : image) (a b : nat) (aa : bool) :
  shape_d Y = 3 ->
  reshape_rows 3 (_image_to_float (resize_to Y a b aa))
  = Ok (concat (rows (resize_to Y a b aa))) /\
  length (concat (rows (resize_to Y a b aa))) = a * b /\
  Forall (fun px => length px = 3) (concat (rows (resize_to Y a b aa))).
Proof.
  intros Hd.
  assert (shaped (resize_to Y a b aa)) as HR by apply shaped_tabulate.
  pose proof (length_concat_rows _ HR) as Hlen.
  assert (Forall (fun px : list Qc => length px = 3) (concat (rows (resize_to Y a b aa))))
    as Hpx.
  { apply Forall_concat. destruct HR as [_ HR].
    eapply List.Forall_impl; [|exact HR]. intros row [_ Hrow].
    eapply List.Forall_impl; [|exact Hrow]. intros px Hl.
    cbn [shape_d resize_to] in Hl. congruence. }
  cbn [shape_h shape_w resize_to] in Hlen. split_and!; [|done..].
  unfold _image_to_float. cbn [kind resize_to]. fold (resize_to Y a b aa).
  unfold reshape_rows. simpl (3 =? 0). cbv iota.
  rewrite (length_concat_uniform 3) by done.
  rewrite Nat.Div0.mod_mul. simpl (0 =? 0). cbv iota.
  rewrite Nat.div_mul by done. by rewrite reshape_concat_uniform.
Qed.

(** On an image of 4 channels the samples of the mixture are the pixels of
    the resized colour channels, alpha or not. *)
Lemma fit_samples_alpha (p : Pyx) (X : image) :
  shaped X -> shape_d X = 4 ->
  fit_samples p X =
  Ok (map (map (scale_rgb p))
        (concat (rows (resize_to (rgb_of X) 1
           (Nat.min (shape_h X) BGM_RESIZE * Nat.min (shape_w X) BGM_RESIZE) false)))).
Proof.
  intros HX Hd. rewrite fit_samples_four_channels by done.
  destruct (resized_pixels (rgb_of X) 1
              (Nat.min (shape_h X) BGM_RESIZE * Nat.min (shape_w X) BGM_RESIZE) false)
    as (-> & _); [cbn [shape_d rgb_of]; by rewrite Hd|].
  rewrite bind_Ok. unfold scale_rgb. destruct (find_palette_of _); [done|].
  f_equal. symmetry. etrans; [|apply map_id]. apply map_ext. intros px. apply map_id.
Qed.

(** [fit] hands the mixture as many samples as the resized image has
    pixels, of three values each. *)
Lemma fit_samples_returns (p : Pyx) (X : image) :
  shaped X -> shape_d X = 3 \/ shape_d X = 4 ->
  exists S, fit_samples p X = Ok S /\
    length S = Nat.min (shape_h X) BGM_RESIZE * Nat.min (shape_w X) BGM_RESIZE /\
    Forall (fun px => length px = 3) S.
Proof.
  intros HX [Hd|Hd].
  - unfold fit_samples. rewrite Hd. change (3 <? 3) with false. cbv iota. rewrite bind_Ok.
    destruct (resized_pixels (rgb_of X) (Nat.min (shape_h X) BGM_RESIZE)
                (Nat.min (shape_w X) BGM_RESIZE) false) as (-> & Hlen & Hpx).
    { cbn [shape_d rgb_of]. by rewrite Hd. }
    rewrite bind_Ok. destruct (find_palette_of _); eexists; (split; [done|]).
    + split; [by rewrite length_map|].
      apply Forall_map. eapply List.Forall_impl; [|exact Hpx].
      intros px Hl. simpl. by rewrite length_map.
    + done.
  - rewrite fit_samples_alpha by done.
    destruct (resized_pixels (rgb_of X) 1
                (Nat.min (shape_h X) BGM_RESIZE * Nat.min (shape_w X) BGM_RESIZE) false)
      as (_ & Hlen & Hpx); [cbn [shape_d rgb_of]; by rewrite Hd|].
    rewrite Nat.mul_1_l in Hlen.
    eexists. split; [done|]. split; [by rewrite length_map|].
    apply Forall_map. eapply List.Forall_impl; [|exact Hpx].
    intros px Hl. simpl. by rewrite length_map.
Qed.

(** C10: on an image of 4 channels [fit] trains the mixture on the pixels of
    the resized colour channels of the whole image, [min(h, 256) * min(w, 256)]
    of them, prepared as for an image without alpha: the samples it filtered
    by alpha on the way are overwritten.  Two such images with the same
    colour channels so give the same samples and the same fitted instance,
    whatever their alpha channels hold: transparent pixels count as opaque
    ones do. *)
Theorem fit_ignores_alpha (p : Pyx) (X Y : image) :
  shaped X -> shaped Y -> shape_d X = 4 -> shape_d Y = 4 ->
  rgb_of X = rgb_of Y ->
  let n := Nat.min (shape_h X) BGM_RESIZE * Nat.min (shape_w X) BGM_RESIZE in
  let S := map (map (scale_rgb p)) (concat (rows (resize_to (rgb_of X) 1 n false))) in
  fit_samples p X = Ok S /\ fit_samples p Y = Ok S /\ length S = n /\
  fit p X = (m ← BGM_fit (palette p) S; Ok (with_model p m)) /\
  fit p Y = fit p X.
Proof.
  intros HX HY HdX HdY Hrgb n S.
  assert (fit_samples p X = Ok S) as HSX by by apply fit_samples_alpha.
  assert (fit_samples p Y = Ok S) as HSY.
  { rewrite fit_samples_alpha by done. subst S n.
    assert (shape_h X = shape_h Y) as -> by apply (f_equal shape_h Hrgb).
    assert (shape_w X = shape_w Y) as -> by apply (f_equal shape_w Hrgb).
    by rewrite Hrgb. }
  split_and!; try done.
  - destruct (fit_samples_returns p X HX ltac:(by right)) as (S' & HS' & Hlen & _).
    rewrite HSX in HS'. injection HS' as <-. exact Hlen.
  - unfold fit. by rewrite HSX, bind_Ok.
  - unfold fit. by rewrite HSX, HSY.
Qed.

End StageFacts.

(** The witness of C10: [img_a] with an opaque and with a transparent
    alpha channel. *)
Lemma fit_ignores_alpha_witness :
  let X := NDArray 4 4 4 Integer (map (map (fun px => px ++ [of_int 255])) (rows Toy.img_a)) in
  let Y := NDArray 4 4 4 Integer (map (map (fun px => px ++ [of_int 0])) (rows Toy.img_a)) in
  let n := Nat.min 4 BGM_RESIZE * Nat.min 4 BGM_RESIZE in
  let S := map (map (scale_rgb Toy.fitted_a))
               (concat (rows (resize_to (rgb_of X) 1 n false))) in
  fit_samples Toy.fitted_a X = Ok S /\ fit_samples Toy.fitted_a Y = Ok S /\
  length S = n /\
  fit Toy.fitted_a X = (m ← BGM_fit (palette Toy.fitted_a) S; Ok (with_model Toy.fitted_a m)) /\
  fit Toy.fitted_a Y = fit Toy.fitted_a X.
Proof.
  intros X Y. apply (fit_ignores_alpha Toy.fitted_a X Y).
  - split; [reflexivity|]. repeat constructor.
  - split; [reflexivity|]. repeat constructor.
  - reflexivity.
  - reflexivity.
  - reflexivity.
Defined.

(** ** Which calls raise which assertion *)


Lemma na_bind {B C} (a : assertion) (m : result B) (k : B -> result C) :
  no_assertion a m -> (forall b, no_assertion a (k b)) -> no_assertion a (m ≫= k).
Proof. destruct m as [b|e]; [intros _ Hk; apply Hk|done]. Qed.

Lemma na_for_each {S B} (a : assertion) (body : B -> S -> result S) (l : list B) (s : S) :
  (forall x s, no_assertion a (body x s)) -> no_assertion a (for_each body l s).
Proof.
  intros Hb. revert s. induction l as [|x l IH]; intros s; simpl; [done|].
  by apply na_bind.
Qed.

Lemma na_mapM {B C} (a : assertion) (f : B -> result C) (l : list B) :
  (forall x, no_assertion a (f x)) -> no_assertion a (mapM_res f l).
Proof.
  intros Hf. induction l as [|x l IH]; simpl; [done|].
  apply na_bind; [done|]. intros y. by apply na_bind.
Qed.

Create HintDb na discriminated.

Ltac na_step :=
  match goal with
  | |- no_assertion _ (_ ≫= _) => apply na_bind; [|intros]
  | |- no_assertion _ (Ok _) => reflexivity
  | |- no_assertion _ (Err _) => reflexivity
  | |- no_assertion _ (for_each _ _ _) => apply na_for_each; intros
  | |- no_assertion _ (mapM_res _ _) => apply na_mapM; intros
  | |- no_assertion _ (if ?c then _ else _) => destruct c
  | |- no_assertion _ (match ?x with _ => _ end) => destruct x
  | |- no_assertion _ _ => solve [auto with na]
  end.

Ltac na := repeat na_step.

Section Assertions.
Context `{ext : Externals}.
Implicit Types (a : assertion) (p : Pyx) (X : image).

Lemma na_pad {A} a (X : ndarray A) (t : nat) (nh nw : option nat) :
  no_assertion a (_pad X t nh nw).
Proof. unfold _pad, np_pad_edge. na. Qed.
#[local] Hint Resolve na_pad : na.

Lemma na_each_channel a f X : no_assertion a (each_channel f X).
Proof. unfold each_channel. na. Qed.
#[local] Hint Resolve na_each_channel : na.

Lemma na_convert_colour a f X : no_assertion a (convert_colour f X).
Proof. unfold convert_colour. na. Qed.
#[local] Hint Resolve na_convert_colour : na.

Lemma na_dilate a p X : no_assertion a (_dilate p X).
Proof. unfold _dilate. na. Qed.
#[local] Hint Resolve na_dilate : na.

Lemma na_median a X : no_assertion a (_median X).
Proof. unfold _median. na. Qed.
#[local] Hint Resolve na_median : na.

Lemma na_blocks a s h w f : no_assertion a (view_as_blocks_sum s h w f).
Proof. unfold view_as_blocks_sum. na. Qed.
#[local] Hint Resolve na_blocks : na.

Lemma na_pyxelate a p X : no_assertion a (_pyxelate p X).
Proof. unfold _pyxelate, pyxelate_wrapper. na. Qed.
#[local] Hint Resolve na_pyxelate : na.

Lemma na_reshape_rows a n X : no_assertion a (reshape_rows n X).
Proof. unfold reshape_rows. na. Qed.
#[local] Hint Resolve na_reshape_rows : na.

Lemma na_fit_samples a p X : no_assertion a (fit_samples p X).
Proof. unfold fit_samples. na. Qed.
#[local] Hint Resolve na_fit_samples : na.


Lemma na_get_size a p h w : no_assertion a (_get_size p h w).
Proof. unfold _get_size, int_of_float. na. Qed.
#[local] Hint Resolve na_get_size : na.

Lemma na_downsample a p X : no_assertion a (downsample p X).
Proof. unfold downsample, downsample_step, adjust_contrast. na. Qed.
#[local] Hint Resolve na_downsample : na.

Lemma na_predict a pal m l : no_assertion a (predict pal m l).
Proof. unfold predict, sk_check. na. Qed.
#[local] Hint Resolve na_predict : na.

Lemma na_predict_proba a pal m l : no_assertion a (predict_proba pal m l).
Proof. unfold predict_proba, super_predict_proba, sk_check. na. Qed.
#[local] Hint Resolve na_predict_proba : na.

Lemma na_index {B} a (l : list B) (i : nat) : no_assertion a (index l i).
Proof. unfold index. na. Qed.
#[local] Hint Resolve na_index : na.

Lemma na_store {B} a (l : list B) (i : nat) (x : B) : no_assertion a (store l i x).
Proof. unfold store. na. Qed.
#[local] Hint Resolve na_store : na.

Lemma na_check_index a y x h w : no_assertion a (check_index y x h w).
Proof. unfold check_index. na. Qed.
#[local] Hint Resolve na_check_index : na.

Lemma na_the_model a p : no_assertion a (the_model p).
Proof. unfold the_model. na. Qed.
#[local] Hint Resolve na_the_model : na.




End Assertions.



(** ** Comparisons and extremal indices *)

Lemma Qleb_le (a b : Qc) : Qleb a b = true <-> (a <= b)%Qc.
Proof. unfold Qleb. apply Qle_bool_iff. Qed.

Lemma Qltb_lt (a b : Qc) : Qltb a b = true <-> (a < b)%Qc.
Proof.
  unfold Qltb. rewrite negb_true_iff, <- not_true_iff_false, Qle_bool_iff.
  split; [apply Qcnot_le_lt | apply Qclt_not_le].
Qed.

Lemma Qltb_ge (a b : Qc) : Qltb a b = false <-> (b <= a)%Qc.
Proof. unfold Qltb. rewrite negb_false_iff. apply Qle_bool_iff. Qed.

(** [arg_best] scans [l], whose first index is [length pre], with the best
    index and value of [pre] so far. *)
Lemma arg_best_lt (better : Qc -> Qc -> bool) (l : list Qc) (i best : nat) (v : Qc) :
  best < i -> arg_best better l i best v < i + length l.
Proof.
  revert i best v. induction l as [|x l IH]; intros i best v Hb; simpl; [lia|].
  destruct (better x v).
  - specialize (IH (S i) i x). lia.
  - specialize (IH (S i) best v). lia.
Qed.

Lemma np_argmax_lt (l : list Qc) : l <> [] -> np_argmax l < length l.
Proof.
  destruct l as [|x l]; [done|]. intros _. simpl.
  pose proof (arg_best_lt (fun a b => Qltb b a) l 1 0 x). lia.
Qed.

Lemma np_argmin_lt (l : list Qc) : l <> [] -> np_argmin l < length l.
Proof.
  destruct l as [|x l]; [done|]. intros _. simpl.
  pose proof (arg_best_lt (fun a b => Qltb a b) l 1 0 x). lia.
Qed.

Lemma arg_best_min (pre l : list Qc) (best : nat) (v : Qc) :
  pre !! best = Some v ->
  (forall j y, pre !! j = Some y -> (v <= y)%Qc) ->
  let r := arg_best (fun a b => Qltb a b) l (length pre) best v in
  exists m, (pre ++ l) !! r = Some m /\
    forall j y, (pre ++ l) !! j = Some y -> (m <= y)%Qc.
Proof.
  revert pre best v. induction l as [|x l IH]; intros pre best v Hb Hmin; simpl.
  - rewrite app_nil_r. eauto.
  - replace (pre ++ x :: l) with ((pre ++ [x]) ++ l) by by rewrite <- app_assoc.
    replace (S (length pre)) with (length (pre ++ [x]))
      by (rewrite length_app; simpl; lia).
    destruct (Qltb x v) eqn:Hx.
    + apply IH.
      * rewrite lookup_app_r, Nat.sub_diag by done. done.
      * apply Qltb_lt in Hx. intros j y [Hj|[_ Hj]]%lookup_app_Some.
        -- apply Qclt_le_weak. eapply Qclt_le_trans; [exact Hx|]. eauto.
        -- destruct (j - length pre) as [|k]; [|done].
           injection Hj as <-. apply Qcle_refl.
    + apply IH.
      * by apply lookup_app_l_Some.
      * apply Qltb_ge in Hx. intros j y [Hj|[_ Hj]]%lookup_app_Some; [eauto|].
        destruct (j - length pre) as [|k]; [|done]. by injection Hj as <-.
Qed.

(** [np.argmin] returns an index of a least element. *)
Lemma np_argmin_least (l : list Qc) :
  l <> [] ->
  exists m, l !! np_argmin l = Some m /\ forall j y, l !! j = Some y -> (m <= y)%Qc.
Proof.
  destruct l as [|x l]; [done|]. intros _.
  apply (arg_best_min [x] l 0 x); [done|].
  intros [|j] y; [|done]. intros [= <-]. apply Qcle_refl.
Qed.

(** ** Instances that [transform] accepts *)

Section Ready.
Context `{ext : Externals}.

Lemma init_valid h w f u d pal di s a b (p : Pyx) :
  Pyx_init h w f u d pal di s a b = Ok p ->
  valid p /\ is_fitted p = false /\ palette_cache p = None /\ palette p = pal.
Proof.
  unfold Pyx_init, valid.
  destruct (_ && _); [done|].
  intros (_ & _ & (_ & _ & (_ & Hf%py_assert_ok & (_ & Hs%py_assert_ok &
    (_ & Hu%py_assert_ok & (_ & Hd%py_assert_ok & H)%bind_ok)%bind_ok)%bind_ok)%bind_ok)%bind_ok)%bind_ok.
  destruct (Nat.ltb_spec (palette_size pal) 2); [done|].
  destruct (dither_of di); [|done].
  injection H as <-. simpl.
  apply andb_prop in Hu as [Hu1 Hu2].
  apply Nat.leb_le in Hs, Hu1, Hu2. apply Nat.ltb_lt in Hd.
  split_and!; try done.
  destruct f as [k|]; simpl in *; [by apply Nat.leb_le|done].
Qed.

Lemma fit_ready (p p' : Pyx) (X : image) :
  valid p -> palette_wf (palette p) ->
  from_option (colours_wf (palette_size (palette p))) True (palette_cache p) ->
  fit p X = Ok p' -> ready p'.
Proof.
  intros Hv Hp Hc (X_ & _ & (m & _ & [= <-])%bind_ok)%bind_ok.
  by split_and!.
Qed.

Lemma np_clip_range (lo hi x : Qc) :
  (lo <= hi)%Qc -> (lo <= np_clip lo hi x <= hi)%Qc.
Proof.
  intros Hle. unfold np_clip.
  destruct (Qltb x lo) eqn:H1; [split; [apply Qcle_refl|done]|].
  apply Qltb_ge in H1.
  destruct (Qltb hi x) eqn:H2; [split; [done|apply Qcle_refl]|].
  by apply Qltb_ge in H2.
Qed.

(** A clipped sample is an integer within [0, 255] once truncated. *)
Lemma astype_int_clip (x : Qc) :
  (0 <= astype_int (np_clip 0 (of_int 255) x) <= 255)%Z.
Proof.
  destruct (np_clip_range 0 (of_int 255) x) as [H0 H255]; [done|].
  unfold astype_int. rewrite (proj2 (Qleb_le _ _) H0).
  split.
  - change 0%Z with (Qfloor (0%Qc)). by apply Qfloor_resp_le.
  - change 255%Z with (Qfloor (of_int 255)). by apply Qfloor_resp_le.
Qed.

Lemma quantise_range (c : Qc) : (0 <= quantise c <= 255)%Z.
Proof.
  unfold quantise, COLOR_QUANT.
  match goal with |- context [astype_int (np_clip 0 (of_int 255) ?q)] =>
    pose proof (astype_int_clip q) as Hq; set (v := astype_int (np_clip 0 (of_int 255) q)) in *
  end.
  cbv zeta. clearbody v.
  destruct (Z.ltb_spec v (8 * 2)); [destruct (Z.ltb_spec (255 - 8 * 2) 0)
                                   |destruct (Z.ltb_spec (255 - 8 * 2) v)]; lia.
Qed.

Lemma found_colour_wf (m : Model) (i : nat) : colour_wf (found_colour m i).
Proof.
  unfold found_colour. split; [by rewrite length_map, length_row_of|].
  apply Forall_map, Forall_forall. intros c _. apply quantise_range.
Qed.

(** On a ready instance [colors] returns as many colours as the palette
    holds, of three samples each, and leaves a ready instance. *)
Lemma colors_ready (p : Pyx) :
  ready p ->
  exists c p', colors p = Ok (c, p') /\ colours_wf (palette_size (palette p)) c /\
    same_config p p' /\ ready p'.
Proof.
  intros (Hv & Hf & Hm & Hp & Hc). unfold colors.
  destruct (palette_cache p) as [c|] eqn:Hcache.
  - exists c, p. split_and!; try done. by split_and!; rewrite ?Hcache.
  - destruct (model p) as [m|] eqn:Hmodel; [|done].
    assert (exists c, (if find_palette_of (palette p)
              then _ ← py_assert (is_fitted p) ColorsNotFitted;
                   Ok (map (found_colour m) (seq 0 (palette_size (palette p))))
              else _image_to_int (palette p)) = Ok c /\
              colours_wf (palette_size (palette p)) c) as (c & -> & Hwf).
    { rewrite Hf. simpl py_assert. rewrite bind_Ok.
      destruct (palette p) as [k|cs|cs]; simpl in *; eexists; (split; [done|]).
      - split; [by rewrite length_map, length_seq|].
        apply Forall_map, Forall_forall. intros i _. apply found_colour_wf.
      - split; [by rewrite length_map|].
        apply Forall_map. eapply List.Forall_impl; [|exact Hp].
        intros col Hcol. simpl. split; [by rewrite length_map|].
        apply Forall_map, Forall_forall. intros x _. apply astype_int_clip.
      - done. }
    rewrite bind_Ok. exists c, (with_cache p c).
    split_and!; try done. split_and!; simpl; by rewrite ?Hmodel.
Qed.

End Ready.

(** ** The dithering branches return a colour of the palette per pixel *)

Section Dither.
Context `{ext : Externals}.

Lemma the_model_ready (p : Pyx) :
  ready p -> exists m, the_model p = Ok m.
Proof. intros (_ & _ & Hm & _). unfold the_model. destruct (model p); eauto. done. Qed.

Lemma sk_check_ok (X : list pixel) : X <> [] -> sk_check X = Ok tt.
Proof. by destruct X. Qed.

Lemma predict_ok (pal : palette_spec) (m : Model) (X : list pixel) :
  X <> [] ->
  predict pal m X =
  Ok (map (fun px => np_argmax (row_of (palette_size pal) (sk_weighted_log_prob m px))) X).
Proof. intros HX. unfold predict. by rewrite sk_check_ok. Qed.

Lemma predict_proba_ok (pal : palette_spec) (m : Model) (X : list pixel) :
  X <> [] ->
  exists probs, predict_proba pal m X = Ok probs /\ length probs = length X /\
    Forall (fun row => length row = palette_size pal) probs.
Proof.
  intros HX. unfold predict_proba, super_predict_proba.
  rewrite sk_check_ok, !bind_Ok by done.
  assert (Forall (fun row => length row = palette_size pal)
            (map (fun px => row_of (palette_size pal) (sk_predict_proba m px)) X)) as Hrows.
  { apply Forall_map, Forall_forall. intros px _. apply length_row_of. }
  assert (Forall (fun row => length row = palette_size pal)
            (map (map np_sqrt)
               (map (fun px => row_of (palette_size pal) (sk_predict_proba m px)) X)))
    as Hsqrt.
  { apply Forall_map. eapply List.Forall_impl; [|exact Hrows].
    intros row Hrow. simpl. by rewrite length_map. }
  destruct pal as [k|cs|cs]; simpl palette_size in *; destruct (_ <? 3);
    eexists; (split; [done|]); by rewrite !length_map.
Qed.

Lemma index_ok {B} (l : list B) (i : nat) :
  i < length l -> exists x, index l i = Ok x /\ l !! i = Some x.
Proof.
  intros (x & Hx)%lookup_lt_is_Some. exists x. unfold index. by rewrite Hx.
Qed.

Lemma index_inv {B} (l : list B) (i : nat) (x : B) :
  index l i = Ok x <-> l !! i = Some x.
Proof. unfold index. destruct (l !! i); split; congruence. Qed.

(** [colors[idx]] for indices within the palette. *)
Lemma mapM_index_ok {B} (cols : list B) (idx : list nat) :
  Forall (fun i => i < length cols) idx ->
  exists ys, mapM_res (index cols) idx = Ok ys /\ length ys = length idx /\
    Forall (fun c => c ∈ cols) ys /\
    Forall2 (fun i y => cols !! i = Some y) idx ys.
Proof.
  induction 1 as [|i idx Hi _ (ys & Hys & Hlen & Hin & Hall)]; simpl.
  - exists []. by split_and!.
  - destruct (index_ok cols i Hi) as (x & -> & Hx). rewrite bind_Ok, Hys, bind_Ok.
    exists (x :: ys). split_and!; simpl; try done.
    + by rewrite Hlen.
    + constructor; [|done]. by eapply list_elem_of_lookup_2.
    + by constructor.
Qed.

Lemma palette_nonempty (p : Pyx) : ready p -> 0 < palette_size (palette p).
Proof. intros ((_ & _ & _ & _ & Hk & _) & _). lia. Qed.

Lemma row_of_nonempty (n : nat) (f : nat -> Qc) : 0 < n -> row_of n f <> [].
Proof. destruct n; [lia|]. done. Qed.

Lemma dither_none_ok (p : Pyx) (reshaped : list pixel) :
  ready p -> reshaped <> [] ->
  dither_result p (length reshaped) (dither_none p reshaped).
Proof.
  intros Hp HX. unfold dither_none.
  destruct (the_model_ready p Hp) as (m & ->). rewrite bind_Ok, predict_ok, bind_Ok by done.
  destruct (colors_ready p Hp) as (cols & p' & Hc & Hwf & Hsame & Hp').
  rewrite Hc, bind_Ok. simpl.
  destruct (mapM_index_ok cols
    (map (fun px => np_argmax (row_of (palette_size (palette p)) (sk_weighted_log_prob m px)))
         reshaped)) as (X_ & -> & Hlen & Hin & _).
  { apply Forall_map, Forall_forall. intros px _. simpl.
    destruct Hwf as [-> _].
    rewrite <- (length_row_of (palette_size (palette p)) (sk_weighted_log_prob m px)) at 2.
    apply np_argmax_lt, row_of_nonempty, palette_nonempty, Hp. }
  rewrite bind_Ok. exists X_, cols, p'. split_and!; try done.
  by rewrite Hlen, length_map.
Qed.

End Dither.

(** ** Flat indices *)

Lemma lookup_concat_uniform {B} (w : nat) (l : list (list B)) (y x : nat) :
  Forall (fun r => length r = w) l -> x < w ->
  concat l !! (y * w + x) = l !! y ≫= (fun r => r !! x).
Proof.
  intros Hl Hx. revert y. induction Hl as [|r l Hr _ IH]; intros y; simpl; [done|].
  destruct y as [|y]; simpl.
  - by rewrite lookup_app_l by lia.
  - rewrite lookup_app_r by lia. rewrite <- IH. f_equal. lia.
Qed.

Lemma lookup_nth {B} (l : list B) (i : nat) (d : B) :
  i < length l -> l !! i = Some (nth i l d).
Proof.
  intros (x & Hx)%lookup_lt_is_Some. by rewrite nth_lookup, Hx.
Qed.

Lemma length_tab2 {B} (h w : nat) (f : nat -> nat -> B) : length (tab2 h w f) = h.
Proof. unfold tab2. by rewrite length_map, length_seq. Qed.

Lemma Forall_tab2_length {B} (h w : nat) (f : nat -> nat -> B) :
  Forall (fun r => length r = w) (tab2 h w f).
Proof.
  unfold tab2. apply Forall_map, Forall_forall. intros y _. simpl.
  by rewrite length_map, length_seq.
Qed.

Lemma length_concat_tab2 {B} (h w : nat) (f : nat -> nat -> B) :
  length (concat (tab2 h w f)) = h * w.
Proof.
  rewrite (length_concat_uniform w) by apply Forall_tab2_length.
  by rewrite length_tab2.
Qed.

Lemma lookup_concat_tab2 {B} (h w : nat) (f : nat -> nat -> B) (y x : nat) :
  y < h -> x < w -> concat (tab2 h w f) !! (y * w + x) = Some (f y x).
Proof.
  intros Hy Hx. rewrite (lookup_concat_uniform w) by (done || apply Forall_tab2_length).
  unfold tab2. rewrite list_lookup_fmap, lookup_seq_lt by done. simpl.
  by rewrite list_lookup_fmap, lookup_seq_lt.
Qed.

Lemma Forall_concat_tab2 {B} (P : B -> Prop) (h w : nat) (f : nat -> nat -> B) :
  (forall y x, y < h -> x < w -> P (f y x)) -> Forall P (concat (tab2 h w f)).
Proof.
  intros Hf. apply Forall_concat. unfold tab2.
  apply Forall_map, Forall_forall. intros y [_ Hy]%elem_of_seq. simpl.
  apply Forall_map, Forall_forall. intros x [_ Hx]%elem_of_seq. simpl.
  apply Hf; lia.
Qed.

Section Bayer.
Context `{ext : Externals}.

Lemma column_ok (probs : list (list Qc)) (k i : nat) :
  Forall (fun row => length row = k) probs -> i < k ->
  column probs i = Ok (map (fun row => nth i row 0%Qc) probs).
Proof.
  intros Hrows Hi. unfold column. apply mapM_res_ok.
  intros row Hrow. rewrite Forall_forall in Hrows. specialize (Hrows row Hrow).
  apply index_inv, lookup_nth. lia.
Qed.

Lemma bayer_maps_ok (probs : list (list Qc)) (k final_h final_w : nat) :
  Forall (fun row => length row = k) probs ->
  bayer_maps probs k final_h final_w =
  Ok (map (bayer_map probs final_h final_w) (seq 0 k)).
Proof.
  intros Hrows. unfold bayer_maps. apply mapM_res_ok.
  intros i [_ Hi]%elem_of_seq. by rewrite (column_ok probs k).
Qed.

(** The Bayer branch in full: what it returns, and the index it takes per
    pixel. *)
Lemma bayer_branch (p : Pyx) (reshaped : list pixel) (final_h final_w : nat) :
  ready p -> reshaped <> [] -> length reshaped = final_h * final_w ->
  exists m probs cols p' X_,
    the_model p = Ok m /\
    predict_proba (palette p) m reshaped = Ok probs /\
    colors p = Ok (cols, p') /\
    dither_bayer p reshaped final_h final_w = Ok (X_, p') /\
    colours_wf (palette_size (palette p)) cols /\ same_config p p' /\ ready p' /\
    length X_ = final_h * final_w /\ Forall (fun c => c ∈ cols) X_ /\
    forall y x, y < final_h -> x < final_w ->
      exists r, r < length cols /\
        X_ !! (y * final_w + x) = cols !! r /\
        forall j, j < length cols ->
          (bayer_map probs final_h final_w r y x
           <= bayer_map probs final_h final_w j y x)%Qc.
Proof.
  intros Hp HX Hlen. unfold dither_bayer.
  destruct (the_model_ready p Hp) as (m & Hm). rewrite Hm, bind_Ok.
  destruct (predict_proba_ok (palette p) m reshaped HX) as (probs & Hprobs & _ & Hrows).
  rewrite Hprobs, bind_Ok.
  destruct (colors_ready p Hp) as (cols & p' & Hc & [Hk Hcols] & Hsame & Hp').
  rewrite Hc, bind_Ok. simpl. rewrite Hk, (bayer_maps_ok probs _ _ _ Hrows), bind_Ok.
  set (maps := map (bayer_map probs final_h final_w) (seq 0 (palette_size (palette p)))).
  assert (Hmaps : forall y x, (map (fun cv : nat -> nat -> Qc => cv y x) maps) <> []).
  { intros y x. subst maps. pose proof (palette_nonempty p Hp).
    destruct (palette_size (palette p)); [lia|done]. }
  assert (Hidx : forall y x, bayer_index maps y x < length cols).
  { intros y x. unfold bayer_index.
    pose proof (np_argmin_lt _ (Hmaps y x)) as Hlt.
    subst maps. rewrite !length_map, length_seq in Hlt. lia. }
  destruct (mapM_index_ok cols (concat (tab2 final_h final_w (bayer_index maps))))
    as (X_ & -> & HlenX & Hin & Hall).
  { apply Forall_concat_tab2. auto. }
  rewrite bind_Ok. exists m, probs, cols, p', X_.
  rewrite length_concat_tab2 in HlenX. split_and!; try done.
  intros y x Hy Hx. exists (bayer_index maps y x). split; [apply Hidx|].
  pose proof (lookup_concat_tab2 final_h final_w (bayer_index maps) y x Hy Hx) as Hl.
  split.
  - destruct (Forall2_lookup_l _ _ _ _ _ Hall Hl) as (c & -> & Hcol). done.
  - intros j Hj. unfold bayer_index.
    destruct (np_argmin_least _ (Hmaps y x)) as (least & Hleast & Hmin).
    assert (forall i, i < palette_size (palette p) ->
              map (fun cv : nat -> nat -> Qc => cv y x) maps !! i
              = Some (bayer_map probs final_h final_w i y x)) as Hat.
    { intros i Hi. subst maps. by rewrite !list_lookup_fmap, lookup_seq_lt. }
    pose proof (Hidx y x) as Hr. unfold bayer_index in Hr.
    rewrite Hat in Hleast by lia. injection Hleast as <-.
    apply (Hmin j). apply Hat. lia.
Qed.

Lemma dither_bayer_ok (p : Pyx) (reshaped : list pixel) (final_h final_w : nat) :
  ready p -> reshaped <> [] -> length reshaped = final_h * final_w ->
  dither_result p (final_h * final_w) (dither_bayer p reshaped final_h final_w).
Proof.
  intros Hp HX Hlen.
  destruct (bayer_branch p reshaped final_h final_w Hp HX Hlen)
    as (m & probs & cols & p' & X_ & _ & _ & ? & ? & ? & ? & ? & ? & ? & _).
  by exists X_, cols, p'.
Qed.

(** C7: with ordered (Bayer) dithering every pixel [(y, x)] gets the colour
    of the palette index [r] whose map, the posterior map of that colour
    convolved with the Bayer matrix with reflected boundaries, is least at
    [(y, x)] among the maps of all the colours. *)
Theorem bayer_selects_minimum (p : Pyx) (reshaped : list pixel) (final_h final_w : nat) :
  ready p -> reshaped <> [] -> length reshaped = final_h * final_w ->
  exists m probs cols p' X_,
    the_model p = Ok m /\
    predict_proba (palette p) m reshaped = Ok probs /\
    colors p = Ok (cols, p') /\
    dither_bayer p reshaped final_h final_w = Ok (X_, p') /\
    length X_ = final_h * final_w /\
    forall y x, y < final_h -> x < final_w ->
      exists r, r < length cols /\
        X_ !! (y * final_w + x) = cols !! r /\
        forall j, j < length cols ->
          (bayer_map probs final_h final_w r y x
           <= bayer_map probs final_h final_w j y x)%Qc.
Proof.
  intros Hp HX Hlen.
  destruct (bayer_branch p reshaped final_h final_w Hp HX Hlen)
    as (m & probs & cols & p' & X_ & ? & ? & ? & ? & _ & _ & _ & ? & _ & ?).
  by exists m, probs, cols, p', X_.
Qed.

End Bayer.

(** ** Naive dithering *)

Lemma py_range2_even (n i : nat) : i ∈ py_range2 0 n -> i mod 2 = 0 /\ i < n.
Proof.
  unfold py_range2. intros (k & -> & [_ Hk]%elem_of_seq)%list_elem_of_fmap.
  rewrite Nat.sub_0_r in Hk. pose proof (Nat.div_mod_eq (n + 1) 2) as Hn.
  pose proof (Nat.mod_upper_bound (n + 1) 2 ltac:(lia)). split.
  - replace (0 + 2 * k) with (k * 2) by lia. apply Nat.Div0.mod_mul.
  - lia.
Qed.

Lemma even_split (i : nat) : i mod 2 = 0 -> exists k, i = 2 * k.
Proof. intros H. exists (i / 2). pose proof (Nat.div_mod_eq i 2). lia. Qed.

(** Where the loop looks from the even flat index [i]: the same row, at a
    column whose parity is that of the row. *)
Lemma naive_target_place (final_w i : nat) :
  final_w <> 0 -> i mod 2 = 0 ->
  let t := naive_target final_w i in
  t / final_w = i / final_w /\ (t / final_w + t mod final_w) mod 2 = 0 /\ t <= i + 1.
Proof.
  intros Hw Hi. unfold naive_target.
  pose proof (Nat.div_mod_eq i final_w) as Hdm.
  pose proof (Nat.mod_upper_bound i final_w Hw) as Hr.
  set (q := i / final_w) in *. set (r := i mod final_w) in *.
  destruct (even_split i Hi) as (k & Hk).
  pose proof (Nat.div_mod_eq q 2) as Hq.
  pose proof (Nat.mod_upper_bound q 2 ltac:(lia)) as Hq2.
  destruct (Nat.eqb_spec (final_w mod 2) 0) as [He|Ho]; cbv zeta.
  - destruct (even_split final_w He) as (a & Ha).
    assert (exists b, r = 2 * b) as (b & Hb).
    { exists (k - a * q). nia. }
    assert ((i + q mod 2) / final_w = q) as Hdiv.
    { symmetry. apply (Nat.div_unique _ _ _ (r + q mod 2)); lia. }
    assert ((i + q mod 2) mod final_w = r + q mod 2) as Hmod.
    { symmetry. apply (Nat.mod_unique _ _ q); lia. }
    rewrite Hdiv, Hmod. split; [done|]. split; [|lia].
    replace (q + (r + q mod 2)) with ((q / 2 + b + q mod 2) * 2) by lia.
    apply Nat.Div0.mod_mul.
  - split; [done|]. split; [|lia]. fold q r.
    pose proof (Nat.div_mod_eq final_w 2) as Hw2.
    pose proof (Nat.mod_upper_bound final_w 2 ltac:(lia)) as Hw3.
    assert (final_w mod 2 = 1) as Hw1 by lia.
    set (a := final_w / 2) in *.
    assert (q + r = 2 * (k - a * q)) as -> by nia.
    rewrite Nat.mul_comm. apply Nat.Div0.mod_mul.
Qed.

(** No two indices the loop looks at are neighbours in a row. *)
Lemma naive_visits_not_adjacent (final_w n y x : nat) :
  x + 1 < final_w ->
  ~ (y * final_w + x ∈ naive_visits final_w n /\
     y * final_w + x + 1 ∈ naive_visits final_w n).
Proof.
  intros Hx [(i & Hi & [Hie _]%py_range2_even)%list_elem_of_fmap
             (j & Hj & [Hje _]%py_range2_even)%list_elem_of_fmap].
  assert (final_w <> 0) as Hw by lia.
  destruct (naive_target_place final_w i Hw Hie) as (_ & Hpi & _).
  destruct (naive_target_place final_w j Hw Hje) as (_ & Hpj & _).
  rewrite <- Hi in Hpi. rewrite <- Hj in Hpj.
  assert ((y * final_w + x) / final_w = y) as Hd1
    by (symmetry; apply (Nat.div_unique _ _ _ x); lia).
  assert ((y * final_w + x) mod final_w = x) as Hm1
    by (symmetry; apply (Nat.mod_unique _ _ y); lia).
  assert ((y * final_w + x + 1) / final_w = y) as Hd2
    by (symmetry; apply (Nat.div_unique _ _ _ (x + 1)); lia).
  assert ((y * final_w + x + 1) mod final_w = x + 1) as Hm2
    by (symmetry; apply (Nat.mod_unique _ _ y); lia).
  rewrite Hd1, Hm1 in Hpi. rewrite Hd2, Hm2 in Hpj.
  pose proof (Nat.div_mod_eq (y + x) 2). pose proof (Nat.div_mod_eq (y + (x + 1)) 2).
  lia.
Qed.

(** Within [final_h * final_w] pixels every index the loop looks at is one
    of the pixels. *)
Lemma naive_target_bound (final_h final_w i : nat) :
  final_w <> 0 -> i ∈ py_range2 0 (final_h * final_w) ->
  naive_target final_w i < final_h * final_w.
Proof.
  intros Hw [Hie Hi]%py_range2_even.
  destruct (naive_target_place final_w i Hw Hie) as (_ & _ & Hle).
  unfold naive_target in *.
  destruct (Nat.eqb_spec (final_w mod 2) 0) as [He|Ho]; [|done].
  destruct (even_split final_w He) as (a & Ha).
  destruct (even_split i Hie) as (k & Hk).
  pose proof (Nat.mod_upper_bound (i / final_w) 2 ltac:(lia)). nia.
Qed.

Section Naive.
Context `{ext : Externals}.

(** One turn of the loop leaves the colours alone or stores a colour of the
    palette at the index it looks at. *)
Lemma naive_step_ok (final_w n : nat) (cols : list (list Z)) (p2 : list nat)
    (v1 v2 : list bool) (i : nat) (X_ : list (list Z)) :
  final_w <> 0 -> length v1 = n -> length v2 = n -> length p2 = n ->
  Forall (fun j => j < length cols) p2 -> length X_ = n ->
  naive_target final_w i < n ->
  exists X', naive_step final_w cols p2 v1 v2 i X_ = Ok X' /\
    (X' = X_ \/ exists c, c ∈ cols /\ X' = <[naive_target final_w i := c]> X_).
Proof.
  intros Hw H1 H2 Hp2 Hcols HX Ht. unfold naive_step, naive_target in *.
  destruct (Nat.eqb_spec final_w 0); [done|].
  set (t := if final_w mod 2 =? 0 then i + (i / final_w) mod 2 else i) in *.
  assert (exists b, (if negb ((i / final_w) mod 2 =? 0) then index v1 t else index v2 t) = Ok b)
    as (b & ->).
  { destruct (negb _); [destruct (index_ok v1 t) as (b & ? & _)
                       |destruct (index_ok v2 t) as (b & ? & _)]; eauto; lia. }
  rewrite bind_Ok. destruct b; [|eauto].
  destruct (index_ok p2 t ltac:(lia)) as (j & -> & Hj). rewrite bind_Ok.
  rewrite Forall_lookup in Hcols. specialize (Hcols _ _ Hj).
  destruct (index_ok cols j Hcols) as (c & -> & Hc). rewrite bind_Ok.
  unfold store. destruct (Nat.ltb_spec t (length X_)); [|lia].
  eexists. split; [done|]. right. exists c. split; [|done].
  by eapply list_elem_of_lookup_2.
Qed.

Lemma naive_loop (final_w n : nat) (cols : list (list Z)) (p2 : list nat)
    (v1 v2 : list bool) (l : list nat) (X_ : list (list Z)) :
  final_w <> 0 -> length v1 = n -> length v2 = n -> length p2 = n ->
  Forall (fun j => j < length cols) p2 -> length X_ = n ->
  Forall (fun c => c ∈ cols) X_ ->
  Forall (fun i => naive_target final_w i < n) l ->
  exists X', for_each (naive_step final_w cols p2 v1 v2) l X_ = Ok X' /\
    length X' = n /\ Forall (fun c => c ∈ cols) X' /\
    forall j, j ∉ map (naive_target final_w) l -> X' !! j = X_ !! j.
Proof.
  intros Hw H1 H2 Hp2 Hcols HX Hin Hl. revert X_ HX Hin.
  induction Hl as [|i l Hi _ IH]; intros X_ HX Hin; simpl.
  - eauto.
  - destruct (naive_step_ok final_w n cols p2 v1 v2 i X_) as (X1 & -> & Hstep); try done.
    rewrite bind_Ok.
    assert (length X1 = n /\ Forall (fun c => c ∈ cols) X1 /\
            forall j, j <> naive_target final_w i -> X1 !! j = X_ !! j)
      as (HX1 & Hin1 & Hsame).
    { destruct Hstep as [->|(c & Hc & ->)]; [done|].
      split_and!.
      - by rewrite length_insert.
      - by apply Forall_insert.
      - intros j Hj. by rewrite list_lookup_insert_ne. }
    destruct (IH X1 HX1 Hin1) as (X' & -> & HX' & Hin' & Hrest).
    exists X'. split_and!; try done.
    intros j Hj. rewrite Hrest, Hsame; [done| |].
    + intros ->. apply Hj. by left.
    + intros Hj'. apply Hj. by right.
Qed.

(** The naive branch in full. *)
Lemma naive_branch (p : Pyx) (reshaped : list pixel) (final_h final_w : nat) :
  ready p -> reshaped <> [] -> length reshaped = final_h * final_w ->
  exists m probs cols p' best X_,
    the_model p = Ok m /\
    predict_proba (palette p) m reshaped = Ok probs /\
    colors p = Ok (cols, p') /\
    mapM_res (index cols) (map np_argmax probs) = Ok best /\
    dither_naive p reshaped final_w = Ok (X_, p') /\
    colours_wf (palette_size (palette p)) cols /\ same_config p p' /\ ready p' /\
    length X_ = final_h * final_w /\ Forall (fun c => c ∈ cols) X_ /\
    forall j, j ∉ naive_visits final_w (final_h * final_w) -> X_ !! j = best !! j.
Proof.
  intros Hp HX Hlen. unfold dither_naive.
  destruct (the_model_ready p Hp) as (m & Hm). rewrite Hm, bind_Ok.
  destruct (predict_proba_ok (palette p) m reshaped HX) as (probs & Hprobs & Hn & Hrows).
  rewrite Hprobs, bind_Ok.
  destruct (colors_ready p Hp) as (cols & p' & Hc & [Hk Hcols] & Hsame & Hp').
  rewrite Hc, bind_Ok. simpl.
  pose proof (palette_nonempty p Hp) as Hpos.
  assert (forall row, length row = palette_size (palette p) -> np_argmax row < length cols)
    as Harg.
  { intros row Hrow. rewrite Hk, <- Hrow. apply np_argmax_lt.
    intros ->. simpl in Hrow. lia. }
  destruct (mapM_index_ok cols (map np_argmax probs)) as (best & Hbest & Hlb & Hinb & _).
  { apply Forall_map. eapply List.Forall_impl; [|exact Hrows]. simpl. auto. }
  rewrite Hbest, bind_Ok. rewrite length_map, Hn, Hlen in Hlb.
  assert (final_w <> 0) as Hw.
  { intros ->. destruct reshaped; [done|]. simpl in Hlen. lia. }
  set (zeroed := zip_with (fun row i => <[i:=0%Qc]> row) probs (map np_argmax probs)).
  assert (length zeroed = final_h * final_w) as Hz.
  { subst zeroed. rewrite length_zip_with, length_map. lia. }
  assert (Forall (fun row => length row = palette_size (palette p)) zeroed) as Hzrows.
  { subst zeroed. apply Forall_lookup. intros i row.
    rewrite lookup_zip_with. intros (r & Hr & (j & _ & [= <-])%bind_Some)%bind_Some.
    rewrite length_insert. by apply (Forall_lookup_1 _ _ _ _ Hrows Hr). }
  destruct (naive_loop final_w (final_h * final_w) cols (map np_argmax zeroed)
              (map (fun row => Qltb (1 / (of_int (Z.of_nat (length cols)) + 1)) (np_max row))%Qc zeroed)
              (map (fun row => Qltb (1 / (of_int (Z.of_nat (length cols)) * DITHER_NAIVE_BOOST + 1))
                                    (np_max row))%Qc zeroed)
              (py_range2 0 (length best)) best)
    as (X_ & -> & HlX & HinX & Hrest); try done.
  - by rewrite length_map.
  - by rewrite length_map.
  - by rewrite length_map.
  - apply Forall_map. eapply List.Forall_impl; [|exact Hzrows]. simpl. auto.
  - apply Forall_forall. intros i Hi. rewrite Hlb in Hi. by apply naive_target_bound.
  - rewrite bind_Ok. exists m, probs, cols, p', best, X_. split_and!; try done.
    intros j Hj. apply Hrest. by rewrite Hlb.
Qed.

Lemma dither_naive_ok (p : Pyx) (reshaped : list pixel) (final_h final_w : nat) :
  ready p -> reshaped <> [] -> length reshaped = final_h * final_w ->
  dither_result p (final_h * final_w) (dither_naive p reshaped final_w).
Proof.
  intros Hp HX Hlen.
  destruct (naive_branch p reshaped final_h final_w Hp HX Hlen)
    as (m & probs & cols & p' & best & X_ & _ & _ & ? & _ & ? & ? & ? & ? & ? & ? & _).
  by exists X_, cols, p'.
Qed.

(** C8: with naive dithering the pixels whose colour is replaced by the
    second-best one are among the flat indices the loop looks at: every
    other pixel keeps its best colour.  No two of these indices are
    neighbours in a row, so no two substituted pixels are horizontally
    adjacent. *)
Theorem naive_never_adjacent (p : Pyx) (reshaped : list pixel) (final_h final_w : nat) :
  ready p -> reshaped <> [] -> length reshaped = final_h * final_w ->
  exists m probs cols p' best X_,
    the_model p = Ok m /\
    predict_proba (palette p) m reshaped = Ok probs /\
    colors p = Ok (cols, p') /\
    mapM_res (index cols) (map np_argmax probs) = Ok best /\
    dither_naive p reshaped final_w = Ok (X_, p') /\
    (forall j, X_ !! j <> best !! j -> j ∈ naive_visits final_w (final_h * final_w)) /\
    (forall y x, y < final_h -> x + 1 < final_w ->
       ~ (y * final_w + x ∈ naive_visits final_w (final_h * final_w) /\
          y * final_w + x + 1 ∈ naive_visits final_w (final_h * final_w))) /\
    (forall y x, y < final_h -> x + 1 < final_w ->
       X_ !! (y * final_w + x) = best !! (y * final_w + x) \/
       X_ !! (y * final_w + x + 1) = best !! (y * final_w + x + 1)).
Proof.
  intros Hp HX Hlen.
  destruct (naive_branch p reshaped final_h final_w Hp HX Hlen)
    as (m & probs & cols & p' & best & X_ & ? & ? & ? & ? & ? & _ & _ & _ & _ & _ & Hrest).
  exists m, probs, cols, p', best, X_. split_and!; try done.
  - intros j Hj.
    destruct (decide (j ∈ naive_visits final_w (final_h * final_w))); [done|].
    by destruct Hj; apply Hrest.
  - intros y x _ Hx. by apply naive_visits_not_adjacent.
  - intros y x _ Hx.
    destruct (decide (y * final_w + x ∈ naive_visits final_w (final_h * final_w))) as [Hv1|Hv1];
      [|left; by apply Hrest].
    destruct (decide (y * final_w + x + 1 ∈ naive_visits final_w (final_h * final_w))) as [Hv2|Hv2];
      [|right; by apply Hrest].
    by destruct (naive_visits_not_adjacent final_w (final_h * final_w) y x Hx).
Qed.

End Naive.

(** ** The error-diffusion branches *)

Section Diffusion.
Context `{ext : Externals}.

Lemma check_index_ok (y x h w : nat) : y < h -> x < w -> check_index y x h w = Ok tt.
Proof.
  intros Hy Hx. unfold check_index.
  by destruct (Nat.ltb_spec y h), (Nat.ltb_spec x w); try lia.
Qed.

Lemma set_at_lt (res : nat -> nat -> nat) (y x r k : nat) :
  r < k -> (forall y' x', res y' x' < k) -> forall y' x', set_at res y x r y' x' < k.
Proof. intros Hr Hres y' x'. unfold set_at. by destruct (_ && _). Qed.

Lemma np_argmax_row_lt (k : nat) (f : nat -> Qc) :
  0 < k -> np_argmax (map f (seq 0 k)) < k.
Proof.
  intros Hk. pose proof (np_argmax_lt (map f (seq 0 k))) as H.
  rewrite length_map, length_seq in H. apply H. destruct k; [lia|done].
Qed.

Lemma floyd_step_ok (k h w y x : nat) (st : floyd_state) :
  0 < k -> y + 1 < h -> x + 1 < w -> (forall y' x', st.2 y' x' < k) ->
  exists st', floyd_step k h w y x st = Ok st' /\ forall y' x', st'.2 y' x' < k.
Proof.
  intros Hk Hy Hx Hres. destruct st as [probs res]. unfold floyd_step.
  rewrite check_index_ok, bind_Ok by done. eexists. split; [done|]. simpl.
  apply set_at_lt; [|done]. by apply np_argmax_row_lt.
Qed.

Lemma floyd_edge_ok (k h w y x : nat) (st : floyd_state) :
  0 < k -> y < h -> x < w -> (forall y' x', st.2 y' x' < k) ->
  exists st', floyd_edge k h w y x st = Ok st' /\ forall y' x', st'.2 y' x' < k.
Proof.
  intros Hk Hy Hx Hres. destruct st as [probs res]. unfold floyd_edge.
  rewrite check_index_ok, bind_Ok by done. eexists. split; [done|]. simpl.
  apply set_at_lt; [|done]. by apply np_argmax_row_lt.
Qed.

Lemma elem_of_py_range (a b i : nat) : i ∈ py_range a b <-> a <= i < b.
Proof. unfold py_range. rewrite elem_of_seq. lia. Qed.

Lemma dither_floyd_ok (p : Pyx) (reshaped : list pixel) (final_h final_w : nat) :
  ready p -> reshaped <> [] -> length reshaped = final_h * final_w ->
  dither_result p (final_h * final_w) (dither_floyd p reshaped final_h final_w).
Proof.
  intros Hp HX Hlen. unfold dither_floyd.
  destruct (the_model_ready p Hp) as (m & Hm). rewrite Hm, bind_Ok.
  destruct (predict_proba_ok (palette p) m reshaped HX) as (probs & Hprobs & Hn & Hrows).
  rewrite Hprobs, bind_Ok.
  destruct (colors_ready p Hp) as (cols & p' & Hc & [Hk Hcols] & Hsame & Hp').
  rewrite Hc, bind_Ok. simpl.
  pose proof (palette_nonempty p Hp) as Hpos.
  assert (0 < final_h /\ 0 < final_w) as [Hh Hw].
  { destruct reshaped; [done|]. simpl in Hlen. destruct final_h, final_w; lia. }
  rewrite (mapM_res_ok _ (fun i => map (fun row => nth i row 0%Qc) probs)), bind_Ok.
  2:{ intros i [_ Hi]%elem_of_seq. apply (column_ok probs (length cols)); [|lia].
      by rewrite Hk. }
  set (I := fun st : floyd_state => forall y' x', st.2 y' x' < length cols).
  match goal with |- context [for_each _ _ ?s0] =>
    destruct (for_each_invariant I
      (fun y st => for_each (floyd_step (length cols) final_h final_w y)
                            (py_range 1 (final_w - 1)) st)
      (py_range 0 (final_h - 1)) s0) as (st1 & -> & H1)
  end.
  { intros y' x'. simpl. lia. }
  { intros y st [_ Hy]%elem_of_py_range Hst.
    apply for_each_invariant; [done|].
    intros x st' [_ Hx]%elem_of_py_range Hst'. apply floyd_step_ok; (done || lia). }
  rewrite bind_Ok.
  destruct (for_each_invariant I
      (fun y st => st ← floyd_edge (length cols) final_h final_w y (final_w - 1) st;
                   floyd_edge (length cols) final_h final_w y 0 st)
      (py_range 0 final_h) st1) as (st2 & -> & H2); [done| |].
  { intros y st [_ Hy]%elem_of_py_range Hst.
    destruct (floyd_edge_ok (length cols) final_h final_w y (final_w - 1) st)
      as (st' & -> & Hst'); try (done || lia).
    rewrite bind_Ok. apply floyd_edge_ok; (done || lia). }
  rewrite bind_Ok.
  destruct (for_each_invariant I
      (floyd_edge (length cols) final_h final_w (final_h - 1))
      (py_range 1 (final_w - 1)) st2) as (st3 & -> & H3); [done| |].
  { intros x st [_ Hx]%elem_of_py_range Hst. apply floyd_edge_ok; (done || lia). }
  rewrite bind_Ok.
  destruct (mapM_index_ok cols (concat (tab2 final_h final_w st3.2)))
    as (X_ & -> & HlX & HinX & _).
  { apply Forall_concat_tab2. intros y x _ _. apply H3. }
  rewrite bind_Ok. exists X_, cols, p'. split_and!; try done.
  by rewrite HlX, length_concat_tab2.
Qed.

Lemma atkinson_step_ok (p : Pyx) (mdl : Model) (h w y x : nat) (st : atkinson_state) :
  0 < palette_size (palette p) -> y < h -> x <= w ->
  (forall y' x', st.2 y' x' < palette_size (palette p)) ->
  exists st', atkinson_step p mdl h w y x st = Ok st' /\
    forall y' x', st'.2 y' x' < palette_size (palette p).
Proof.
  intros Hk Hy Hx Hres. destruct st as [X_ res]. unfold atkinson_step.
  rewrite check_index_ok, bind_Ok by lia.
  destruct (predict_proba_ok (palette p) mdl [row_of 3 (X_ y x)] ltac:(done))
    as (pred & -> & Hlen & Hrows).
  rewrite bind_Ok. eexists. split; [done|]. simpl.
  apply set_at_lt; [|done].
  destruct pred as [|row [|? ?]]; try done. simpl. rewrite app_nil_r.
  inversion Hrows as [|? ? Hrow _]; subst. rewrite <- Hrow.
  apply np_argmax_lt. intros ->. simpl in Hrow. lia.
Qed.

Lemma dither_atkinson_ok (p : Pyx) (X_ : image) (final_h final_w : nat) :
  ready p -> 0 < final_h -> 0 < final_w ->
  dither_result p (final_h * final_w) (dither_atkinson p X_ final_h final_w).
Proof.
  intros Hp Hh Hw. unfold dither_atkinson.
  destruct (the_model_ready p Hp) as (m & Hm). rewrite Hm, bind_Ok.
  destruct (Nat.eqb_spec final_h 0); [lia|]. destruct (Nat.eqb_spec final_w 0); [lia|].
  simpl orb. cbv iota.
  pose proof (palette_nonempty p Hp) as Hpos.
  set (I := fun st : atkinson_state => forall y' x', st.2 y' x' < palette_size (palette p)).
  match goal with |- context [for_each _ _ ?s0] =>
    destruct (for_each_invariant I
      (fun y st => for_each (atkinson_step p m final_h final_w y)
                            (py_range 1 (final_w + 1)) st)
      (py_range 0 final_h) s0) as (st1 & -> & H1)
  end.
  { intros y' x'. simpl. lia. }
  { intros y st [_ Hy]%elem_of_py_range Hst.
    apply for_each_invariant; [done|].
    intros x st' [_ Hx]%elem_of_py_range Hst'. apply atkinson_step_ok; (done || lia). }
  rewrite bind_Ok.
  destruct (colors_ready p Hp) as (cols & p' & Hc & [Hk Hcols] & Hsame & Hp').
  rewrite Hc, bind_Ok. simpl.
  destruct (mapM_index_ok cols
              (concat (tab2 final_h final_w (fun y x => st1.2 y (x + 1)))))
    as (Y & -> & HlY & HinY & _).
  { apply Forall_concat_tab2. intros y x _ _. rewrite Hk. apply H1. }
  rewrite bind_Ok. exists Y, cols, p'. split_and!; try done.
  by rewrite HlY, length_concat_tab2.
Qed.

(** Every branch returns a colour of the palette for each pixel. *)
Lemma dither_stage_ok (p : Pyx) (X_ : image) (reshaped : list pixel)
    (final_h final_w : nat) :
  ready p -> reshaped <> [] -> length reshaped = final_h * final_w ->
  dither_result p (final_h * final_w) (dither_stage p X_ reshaped final_h final_w).
Proof.
  intros Hp HX Hlen. unfold dither_stage.
  assert (0 < final_h /\ 0 < final_w) as [Hh Hw].
  { destruct reshaped; [done|]. simpl in Hlen. destruct final_h, final_w; lia. }
  destruct (dither p).
  - rewrite <- Hlen. by apply dither_none_ok.
  - by apply dither_naive_ok.
  - by apply dither_bayer_ok.
  - by apply dither_floyd_ok.
  - by apply dither_atkinson_ok.
Qed.

End Diffusion.

(** ** The shape of the downsampled image *)

Lemma mapM_res_total {B C} (f : B -> result C) (l : list B) :
  (forall x, x ∈ l -> exists y, f x = Ok y) ->
  exists ys, mapM_res f l = Ok ys /\ length ys = length l.
Proof.
  induction l as [|x l IH]; intros Hf; simpl; [by exists []|].
  destruct (Hf x) as (y & ->); [by left|]. rewrite bind_Ok.
  destruct IH as (ys & -> & Hlen); [intros z Hz; apply Hf; by right|].
  rewrite bind_Ok. exists (y :: ys). simpl. by rewrite Hlen.
Qed.

Section Downsample.
Context `{ext : Externals}.

Lemma convert_colour_ok (f : pixel -> nat -> Qc) (X : image) :
  shape_d X = 3 ->
  exists Y, convert_colour f X = Ok Y /\
    shape_h Y = shape_h X /\ shape_w Y = shape_w X /\ shape_d Y = 3.
Proof. intros Hd. unfold convert_colour. rewrite Hd. simpl. eauto. Qed.

Lemma median_ok (X : image) :
  shape_d X = 3 ->
  exists M, _median X = Ok M /\
    shape_h M = shape_h X /\ shape_w M = shape_w X /\ shape_d M = 3.
Proof.
  intros Hd. unfold _median.
  destruct (_pad X 3 None None) as [P|] eqn:HP; [|by rewrite pad_reduces in HP].
  destruct (pad_shape X 3 P ltac:(done) HP) as (Hh & Hw & HPd & Hk).
  rewrite bind_Ok.
  destruct (convert_colour_ok rgb2hsv P) as (H & -> & HHh & HHw & HHd); [congruence|].
  rewrite bind_Ok, each_channel_ok, bind_Ok by auto.
  match goal with |- context [convert_colour hsv2rgb ?E] =>
    destruct (convert_colour_ok hsv2rgb E) as (R & -> & HRh & HRw & HRd); [done|]
  end.
  rewrite bind_Ok. simpl in HRh, HRw.
  destruct (unpad_shape R 3 (shape_h X) (shape_w X)) as (U & -> & ? & ? & HUd & _);
    [done|congruence|congruence|].
  exists U. split_and!; try done. congruence.
Qed.

Lemma pyxelate_wrapper_ok (s h w : nat) (dim : channel) :
  s <> 0 -> h mod s = 0 -> w mod s = 0 ->
  exists f, pyxelate_wrapper s h w dim = Ok f.
Proof.
  intros Hs Hh Hw. unfold pyxelate_wrapper, view_as_blocks_sum.
  destruct (Nat.eqb_spec s 0); [done|]. rewrite Hh, Hw. simpl. eauto.
Qed.

(** One pass of [_pyxelate] divides the height and the width by the tile. *)
Lemma pyxelate_ok (p : Pyx) (X : image) :
  sobel p <> 0 -> shape_h X mod sobel p = 0 -> shape_w X mod sobel p = 0 ->
  shape_d X = 3 ->
  exists Y, _pyxelate p X = Ok Y /\
    shape_h Y = shape_h X / sobel p /\ shape_w Y = shape_w X / sobel p /\
    shape_d Y = 3 /\ shaped Y.
Proof.
  intros Hs Hh Hw Hd. unfold _pyxelate. rewrite pad_reduces, bind_Ok by done.
  destruct (pad_multiple _ _ Hh) as [-> ->]. destruct (pad_multiple _ _ Hw) as [-> ->].
  cbn [shape_h shape_w shape_d]. rewrite !Nat.add_0_l, !Nat.add_0_r, Hd.
  simpl orb. cbv iota.
  match goal with |- context [mapM_res ?f ?l] =>
    destruct (mapM_res_total f l) as (cs & -> & _)
  end.
  { intros c _. by apply pyxelate_wrapper_ok. }
  rewrite bind_Ok. eexists. split; [done|]. split_and!; try done.
  apply shaped_tabulate.
Qed.

Lemma adjust_contrast_ok (X : image) :
  shape_d X = 3 ->
  exists Y, adjust_contrast X = Ok Y /\
    shape_h Y = shape_h X /\ shape_w Y = shape_w X /\ shape_d Y = 3.
Proof.
  intros Hd. unfold adjust_contrast.
  match goal with |- context [convert_colour rgb2hsv ?E] =>
    destruct (convert_colour_ok rgb2hsv E) as (H & -> & HHh & HHw & HHd); [done|]
  end.
  rewrite bind_Ok.
  match goal with |- context [convert_colour hsv2rgb ?E] =>
    destruct (convert_colour_ok hsv2rgb E) as (R & -> & HRh & HRw & HRd); [done|]
  end.
  exists R. simpl in *. split_and!; congruence.
Qed.

Lemma downsample_step_ok (p : Pyx) (d : nat) (X : image) :
  sobel p <> 0 -> shape_h X mod sobel p = 0 -> shape_w X mod sobel p = 0 ->
  shape_d X = 3 ->
  exists Y, downsample_step p d X = Ok Y /\
    shape_h Y = shape_h X / sobel p /\ shape_w Y = shape_w X / sobel p /\
    shape_d Y = 3 /\ shaped Y.
Proof.
  intros Hs Hh Hw Hd. unfold downsample_step.
  destruct (boost p && (d =? 3)).
  - destruct (median_ok X Hd) as (M & -> & HMh & HMw & HMd). rewrite bind_Ok.
    rewrite <- HMh, <- HMw. apply pyxelate_ok; congruence.
  - rewrite bind_Ok. by apply pyxelate_ok.
Qed.

(** [n] passes take an image of [a * s ^ n] by [b * s ^ n] pixels to one of
    [a] by [b] pixels. *)
Lemma downsample_loop (p : Pyx) (d a b : nat) (l : list nat) (X : image) :
  sobel p <> 0 ->
  shape_h X = a * sobel p ^ length l -> shape_w X = b * sobel p ^ length l ->
  shape_d X = 3 -> (l <> [] \/ shaped X) ->
  exists Y, for_each (fun _ => downsample_step p d) l X = Ok Y /\
    shape_h Y = a /\ shape_w Y = b /\ shape_d Y = 3 /\ shaped Y.
Proof.
  intros Hs. revert X. induction l as [|i l IH]; intros X Hh Hw Hd Hne; simpl in *.
  - exists X. destruct Hne as [|]; [done|]. split_and!; try done; lia.
  - destruct (downsample_step_ok p d X) as (Y & -> & HYh & HYw & HYd & HY); try done.
    + rewrite Hh. replace (a * (sobel p * sobel p ^ length l))
        with (a * sobel p ^ length l * sobel p) by lia. apply Nat.Div0.mod_mul.
    + rewrite Hw. replace (b * (sobel p * sobel p ^ length l))
        with (b * sobel p ^ length l * sobel p) by lia. apply Nat.Div0.mod_mul.
    + rewrite bind_Ok. apply IH; try done; [| |by right].
      * rewrite HYh, Hh. replace (a * (sobel p * sobel p ^ length l))
          with (a * sobel p ^ length l * sobel p) by lia. by apply Nat.div_mul.
      * rewrite HYw, Hw. replace (b * (sobel p * sobel p ^ length l))
          with (b * sobel p ^ length l * sobel p) by lia. by apply Nat.div_mul.
Qed.

(** The downsampled image has the size [_get_size] returns, whatever the
    depth; the alpha mask, when there is one, has that size too. *)
Lemma downsample_ok (p : Pyx) (X : image) (new_h new_w : nat) :
  valid p -> 3 <= shape_d X ->
  _get_size p (shape_h X) (shape_w X) = Ok (new_h, new_w) ->
  exists X_ mask, downsample p X = Ok (X_, mask) /\
    shape_h X_ = new_h /\ shape_w X_ = new_w /\ shape_d X_ = 3 /\ shaped X_ /\
    match mask with
    | Some M => 3 < shape_d X /\ shape_h M = new_h /\ shape_w M = new_w
    | None => shape_d X = 3
    end.
Proof.
  intros (Hs & Hdepth & _) Hd Hsize. unfold downsample. rewrite Hsize, bind_Ok.
  assert (exists X0 mask, (if 3 <? shape_d X
            then X_ ← _dilate p X;
                 Ok (X_, Some (resize_to (alpha_channel X_) new_h new_w true))
            else Ok (X, None)) = Ok (X0, mask) /\ 3 <= shape_d X0 /\
            match mask with
            | Some M => 3 < shape_d X /\ shape_h M = new_h /\ shape_w M = new_w
            | None => shape_d X = 3
            end) as (X0 & mask & -> & HX0 & Hmask).
  { destruct (Nat.ltb_spec 3 (shape_d X)).
    - destruct (dilate_ok p X Hd) as (D & -> & _ & _ & HDd & _). rewrite bind_Ok.
      eexists _, _. split; [done|]. split; [lia|]. done.
    - eexists _, _. split; [done|]. split; [done|]. lia. }
  rewrite bind_Ok.
  destruct (Nat.eqb_spec (depth p) 0); [lia|]. cbn [negb].
  set (R := resize_to (rgb_of X0) _ _ true).
  assert (shape_d R = 3) as HRd by (subst R; cbn [shape_d resize_to rgb_of]; lia).
  assert (exists B, (if boost p then adjust_contrast R else Ok R) = Ok B /\
            shape_h B = shape_h R /\ shape_w B = shape_w R /\ shape_d B = 3 /\
            (boost p = false -> shaped B)) as (B & -> & HBh & HBw & HBd & _).
  { destruct (boost p).
    - destruct (adjust_contrast_ok R HRd) as (B & ? & ? & ? & ?). exists B. by split_and!.
    - exists R. split_and!; try done. intros _. apply shaped_tabulate. }
  rewrite bind_Ok.
  destruct (downsample_loop p (shape_d X) new_h new_w (py_range 0 (depth p)) B)
    as (Y & -> & ? & ? & ? & ?); try done.
  - lia.
  - unfold py_range. rewrite length_seq, Nat.sub_0_r. by rewrite HBh.
  - unfold py_range. rewrite length_seq, Nat.sub_0_r. by rewrite HBw.
  - left. unfold py_range. destruct (depth p); [lia|done].
  - rewrite bind_Ok. by exists Y, mask.
Qed.

End Downsample.

(** ** Assembling the output image *)

Lemma length_np_repeat {B} (n : nat) (l : list B) : length (np_repeat n l) = length l * n.
Proof.
  unfold np_repeat. rewrite (length_concat_uniform n), length_map; [done|].
  apply Forall_map, Forall_forall. intros x _. simpl. apply length_replicate.
Qed.

Lemma Forall_np_repeat {B} (P : B -> Prop) (n : nat) (l : list B) :
  Forall P l -> Forall P (np_repeat n l).
Proof.
  intros Hl. unfold np_repeat. apply Forall_concat, Forall_map.
  eapply List.Forall_impl; [|exact Hl]. intros x Hx. simpl. by apply Forall_replicate.
Qed.

Lemma astype_uint8_range (z : Z) : (0 <= astype_uint8 z < 256)%Z.
Proof. unfold astype_uint8. apply Z.mod_pos_bound. lia. Qed.

Lemma astype_uint8_id (z : Z) : (0 <= z <= 255)%Z -> astype_uint8 z = z.
Proof. intros Hz. unfold astype_uint8. apply Z.mod_small. lia. Qed.

Lemma astype_uint8_colour (col : list Z) : colour_wf col -> map astype_uint8 col = col.
Proof.
  intros [_ Hcol]. induction Hcol as [|v col Hv _ IH]; simpl; [done|].
  by rewrite IH, astype_uint8_id.
Qed.

Lemma colour_samples (col : list Z) :
  length col = 3 -> map (fun c => nth c col 0%Z) (seq 0 3) = col.
Proof. destruct col as [|a [|b [|c [|? ?]]]]; by intros [=]. Qed.

(** [np.reshape] of [h * w] colours of three samples: the colour of flat
    index [y * w + x] at row [y], column [x]. *)
Lemma reshape_colours_ok (final_h final_w : nat) (chosen : list (list Z)) :
  length chosen = final_h * final_w ->
  Forall (fun c => length c = 3) chosen ->
  reshape_colours final_h final_w chosen =
  Ok (tab2 final_h final_w (fun y x => nth (y * final_w + x) chosen [])).
Proof.
  intros Hlen Hcols. unfold reshape_colours.
  rewrite (length_concat_uniform 3), Hlen, Nat.eqb_refl by done.
  f_equal. unfold tab2. apply list_fmap_ext. intros y ? [-> Hy]%lookup_seq.
  apply list_fmap_ext. intros x ? [-> Hx]%lookup_seq. cbn [Nat.add].
  assert (y * final_w + x < length chosen) as Hi by nia.
  destruct (lookup_lt_is_Some_2 chosen _ Hi) as (col & Hcol).
  rewrite (nth_lookup_Some _ _ _ _ Hcol).
  assert (length col = 3) as Hc3 by by apply (Forall_lookup_1 _ _ _ _ Hcols Hcol).
  rewrite <- (colour_samples col Hc3) at 1.
  apply list_fmap_ext. intros c ? [-> Hc]%lookup_seq. cbn [Nat.add].
  rewrite !nth_lookup, (lookup_concat_uniform 3), Hcol by done. done.
Qed.

Lemma grid_of_tab2 {B} (h w : nat) (P : B -> Prop) (f : nat -> nat -> B) :
  (forall y x, y < h -> x < w -> P (f y x)) -> grid_of h w P (tab2 h w f).
Proof.
  intros Hf. split; [apply length_tab2|]. unfold tab2.
  apply Forall_map, Forall_forall. intros y [_ Hy]%elem_of_seq. simpl.
  split; [by rewrite length_map, length_seq|].
  apply Forall_map, Forall_forall. intros x [_ Hx]%elem_of_seq. simpl. apply Hf; lia.
Qed.

Lemma grid_of_upscale {B C} (h w u0 u1 : nat) (P : B -> Prop) (Q : C -> Prop)
    (g : B -> C) (G : list (list B)) :
  (forall px, P px -> Q (g px)) -> grid_of h w P G ->
  grid_of (h * u0) (w * u1) Q (map (map g) (np_repeat u0 (map (np_repeat u1) G))).
Proof.
  intros Hg [Hh Hrows]. split.
  - by rewrite length_map, length_np_repeat, length_map, Hh.
  - apply Forall_map, Forall_np_repeat, Forall_map.
    eapply List.Forall_impl; [|exact Hrows]. intros row [Hw Hpx]. simpl. split.
    + by rewrite length_map, length_np_repeat, Hw.
    + apply Forall_map, Forall_np_repeat.
      eapply List.Forall_impl; [|exact Hpx]. done.
Qed.

Lemma grid_of_imap {B} (h w : nat) (P Q : B -> Prop) (g : nat -> nat -> B -> B)
    (G : list (list B)) :
  (forall y x px, P px -> Q (g y x px)) -> grid_of h w P G ->
  grid_of h w Q (imap (fun y row => imap (fun x px => g y x px) row) G).
Proof.
  intros Hg [Hh Hrows]. split; [by rewrite length_imap|].
  rewrite Forall_lookup in Hrows. apply Forall_lookup. intros y row'.
  rewrite list_lookup_imap. destruct (G !! y) as [row|] eqn:Hrow; [|done].
  intros [= <-]. destruct (Hrows _ _ Hrow) as [Hw Hpx].
  split; [by rewrite length_imap|].
  rewrite Forall_lookup in Hpx. apply Forall_lookup. intros x px'.
  rewrite list_lookup_imap. destruct (row !! x) as [px|] eqn:Hpx'; [|done].
  intros [= <-]. eauto.
Qed.

Lemma shaped_map_image (f : Qc -> Qc) (k : dtype) (X : image) :
  shaped X -> shaped (map_image f k X).
Proof.
  intros [Hh Hw]. split; simpl; [by rewrite length_map|].
  apply Forall_map. eapply List.Forall_impl; [|exact Hw].
  intros r [Hr Hpx]. simpl. split; [by rewrite length_map|].
  apply Forall_map. eapply List.Forall_impl; [|exact Hpx].
  intros px Hlen. simpl. by rewrite length_map.
Qed.

Section Transform.
Context `{ext : Externals}.

(** [transform] on a ready instance, in full: it returns, and the image it
    returns has the size of [_get_size] times the upscale factors. *)
Lemma transform_returns (p : Pyx) (X : image) (new_h new_w : nat) :
  ready p -> 3 <= shape_d X ->
  palette_size (palette p) < shape_h X * shape_w X ->
  _get_size p (shape_h X) (shape_w X) = Ok (new_h, new_w) ->
  0 < new_h -> 0 < new_w ->
  exists out cols p',
    transform p X = Ok (out, p') /\ colors p = Ok (cols, p') /\ ready p' /\
    colours_wf (palette_size (palette p)) cols /\
    shape_h out = new_h * (upscale p).1 /\ shape_w out = new_w * (upscale p).2 /\
    shape_d out = (if 3 <? shape_d X then 4 else 3) /\ kind out = Integer /\
    grid_of (shape_h out) (shape_w out)
      (output_pixel (shape_d out) (shape_d X = 3) cols) (rows out).
Proof.
  intros Hp Hd Hsize Hget Hh Hw. unfold transform.
  pose proof Hp as (Hv & Hf & _). rewrite Hf. simpl py_assert. rewrite bind_Ok.
  rewrite (proj2 (Nat.ltb_lt _ _) Hsize). simpl py_assert. rewrite bind_Ok.
  destruct (downsample_ok p X new_h new_w Hv Hd Hget)
    as (X_ & mask & -> & HXh & HXw & HXd & HX & Hmask).
  rewrite bind_Ok. cbv zeta.
  set (S_ := if find_palette_of (palette p)
             then map_image (fun v => (v - frac 1 2) * SCALE_RGB + frac 1 2)%Qc Floating X_
             else X_).
  assert (shape_h S_ = new_h /\ shape_w S_ = new_w /\ shape_d S_ = 3 /\ shaped S_)
    as (HSh & HSw & HSd & HS).
  { subst S_. destruct (find_palette_of _); [|done].
    split_and!; try done. by apply shaped_map_image. }
  unfold reshape_pixels. rewrite HSd. simpl (3 =? 3). cbv iota. rewrite bind_Ok.
  assert (length (concat (rows S_)) = shape_h X_ * shape_w X_) as Hlen.
  { rewrite length_concat_rows by done. congruence. }
  destruct (dither_stage_ok p S_ (concat (rows S_)) (shape_h X_) (shape_w X_))
    as (chosen & cols & p' & -> & Hc & Hwf & Hsame & Hp' & Hn & Hin); [done| |done|].
  { intros Hnil. rewrite Hnil in Hlen. simpl in Hlen. nia. }
  rewrite bind_Ok.
  assert (Forall colour_wf chosen) as Hchosen.
  { destruct Hwf as [_ Hwf]. rewrite Forall_forall in Hwf.
    eapply List.Forall_impl; [|exact Hin]. auto. }
  rewrite reshape_colours_ok, bind_Ok;
    [|done|by eapply List.Forall_impl; [|exact Hchosen]; intros ? []].
  set (G := tab2 (shape_h X_) (shape_w X_) _).
  assert (grid_of new_h new_w (fun px => colour_wf px /\ px ∈ cols) G) as HG.
  { subst G. rewrite HXh, HXw. apply grid_of_tab2. intros y x Hy Hx.
    assert (y * new_w + x < length chosen) as Hi by (rewrite Hn, HXh, HXw; nia).
    destruct (lookup_lt_is_Some_2 chosen _ Hi) as (col & Hcol).
    rewrite (nth_lookup_Some _ _ _ _ Hcol). split.
    - by apply (Forall_lookup_1 _ _ _ _ Hchosen Hcol).
    - by apply (Forall_lookup_1 _ _ _ _ Hin Hcol). }
  destruct Hsame as (_ & _ & _ & Hup & _ & _ & _ & _ & Halpha & _).
  rewrite Hup, HXh, HXw.
  exists (NDArray (new_h * (upscale p).1) (new_w * (upscale p).2)
            (if 3 <? shape_d X then 4 else 3) Integer
            (map (map (map astype_uint8))
               (np_repeat (upscale p).1 (map (np_repeat (upscale p).2)
                  (match mask with
                   | None => G
                   | Some M => imap (fun y row => imap (fun x px =>
                                 take 3 px ++ [resolve_alpha (alpha p') (at3 (rows M) y x 0)])
                                 row) G
                   end))))), cols, p'.
  split.
  { unfold attach_alpha. destruct mask as [M|].
    - destruct Hmask as (Hd4 & HMh & HMw). rewrite HMh, HMw, !Nat.eqb_refl.
      simpl andb. cbv iota. rewrite bind_Ok.
      by rewrite (proj2 (Nat.ltb_lt _ _) Hd4).
    - rewrite bind_Ok. rewrite Hmask. done. }
  split_and!; try done. cbn [shape_h shape_w shape_d rows].
  apply grid_of_upscale with
    (P := fun px => length px = (if 3 <? shape_d X then 4 else 3) /\
                    (shape_d X = 3 -> colour_wf px /\ px ∈ cols)).
  - intros px [Hlpx Hpx]. split_and!.
    + by rewrite length_map.
    + apply Forall_map, Forall_forall. intros v _. apply astype_uint8_range.
    + intros Hd3. destruct (Hpx Hd3) as [Hcw Hincols].
      by rewrite astype_uint8_colour.
  - destruct mask as [M|].
    + destruct Hmask as (Hd4 & _). rewrite (proj2 (Nat.ltb_lt _ _) Hd4).
      eapply grid_of_imap; [|exact HG]. intros y x px [[Hl3 _] _]. simpl.
      split; [|lia]. rewrite length_app, length_take, Hl3. simpl. lia.
    + rewrite Hmask. simpl (3 <? 3). cbv iota.
      destruct HG as [HGh HGrows]. split; [done|].
      eapply List.Forall_impl; [|exact HGrows]. intros row [Hrw Hrow]. split; [done|].
      eapply List.Forall_impl; [|exact Hrow]. intros px [[Hl3 Hr] Hi]. simpl.
      split; [done|]. intros _. by split.
Qed.

End Transform.

(** ** The image [transform] returns *)

Section Output.
Context `{ext : Externals}.

(** C9, as the code has it: [transform] resizes to the size of [_get_size]
    times [sobel ** depth] and then divides by [sobel] in each of the [depth]
    passes, so the image it returns has the height and the width of
    [_get_size] times the upscale factors: [sobel ** depth] is no factor of
    the output size.  The image has the channels of the input, and its
    samples are integers within [0, 255]. *)
Theorem transform_output_shape (p : Pyx) (X : image) (new_h new_w : nat) :
  ready p -> shape_d X = 3 \/ shape_d X = 4 ->
  palette_size (palette p) < shape_h X * shape_w X ->
  _get_size p (shape_h X) (shape_w X) = Ok (new_h, new_w) ->
  0 < new_h -> 0 < new_w ->
  exists out p',
    transform p X = Ok (out, p') /\
    shape_h out = new_h * (upscale p).1 /\
    shape_w out = new_w * (upscale p).2 /\
    shape_d out = shape_d X /\ kind out = Integer /\ shaped out /\
    Forall (Forall (Forall (fun v => (0 <= v <= 255)%Z))) (rows out).
Proof.
  intros Hp Hd Hsize Hget Hh Hw.
  destruct (transform_returns p X new_h new_w Hp ltac:(lia) Hsize Hget Hh Hw)
    as (out & cols & p' & Ht & _ & _ & _ & Hoh & How & Hod & Hk & [Hlen Hrows]).
  exists out, p'. split_and!; try done.
  - rewrite Hod. by destruct Hd as [-> | ->].
  - split; [done|]. eapply List.Forall_impl; [|exact Hrows].
    intros row [Hrow Hpx]. split; [done|].
    eapply List.Forall_impl; [|exact Hpx]. by intros px [? _].
  - eapply List.Forall_impl; [|exact Hrows]. intros row [_ Hpx].
    eapply List.Forall_impl; [|exact Hpx]. intros px (_ & Hv & _).
    eapply List.Forall_impl; [|exact Hv]. simpl. lia.
Qed.

(** C5: with no dithering, on an image of 3 channels [transform] returns an
    image each of whose pixels is one of the colours of the palette,
    [self.colors].  (The other modes choose among the same colours.) *)
Theorem undithered_output_in_palette (p : Pyx) (X : image) (new_h new_w : nat) :
  ready p -> dither p = DitherNone -> shape_d X = 3 ->
  palette_size (palette p) < shape_h X * shape_w X ->
  _get_size p (shape_h X) (shape_w X) = Ok (new_h, new_w) ->
  0 < new_h -> 0 < new_w ->
  exists out cols p',
    transform p X = Ok (out, p') /\ colors p = Ok (cols, p') /\
    Forall (Forall (fun px => px ∈ cols)) (rows out).
Proof.
  intros Hp _ Hd Hsize Hget Hh Hw.
  destruct (transform_returns p X new_h new_w Hp ltac:(lia) Hsize Hget Hh Hw)
    as (out & cols & p' & Ht & Hc & _ & _ & _ & _ & _ & _ & [_ Hrows]).
  exists out, cols, p'. split_and!; try done.
  eapply List.Forall_impl; [|exact Hrows]. intros row [_ Hpx].
  eapply List.Forall_impl; [|exact Hpx]. intros px (_ & _ & Hin). by apply Hin.
Qed.

End Output.

Lemma toy_ready : ready Toy.fitted_a.
Proof. unfold ready, valid. simpl. split_and!; (done || lia). Qed.

(** C9 fails on the code: with [sobel=3], [depth=1], [upscale=1] a 4 x 4
    image comes back 4 x 4, and the size of [_get_size] times
    [sobel ** depth] times the upscale factor is 12 x 12. *)
Lemma output_size_without_tile_power :
  (p ← Toy.make 2 DitherNone 3 1 1;
   p ← fit p Toy.img_a;
   '(out, _) ← transform p Toy.img_a;
   '(new_h, new_w) ← _get_size p 4 4;
   Ok (shape_h out, shape_w out,
       new_h * sobel p ^ depth p * (upscale p).1,
       new_w * sobel p ^ depth p * (upscale p).2))
  = Ok (4, 4, 12, 12).
Proof. vm_compute. reflexivity. Qed.

(** The witness of C9. *)
Lemma transform_output_shape_witness :
  ready Toy.fitted_a /\ (shape_d Toy.img_a = 3 \/ shape_d Toy.img_a = 4) /\
  palette_size (palette Toy.fitted_a) < shape_h Toy.img_a * shape_w Toy.img_a /\
  _get_size Toy.fitted_a (shape_h Toy.img_a) (shape_w Toy.img_a) = Ok (4, 4) /\
  0 < 4 /\
  exists out p',
    transform Toy.fitted_a Toy.img_a = Ok (out, p') /\
    shape_h out = 4 * (upscale Toy.fitted_a).1 /\
    shape_w out = 4 * (upscale Toy.fitted_a).2 /\
    shape_d out = shape_d Toy.img_a /\ kind out = Integer /\ shaped out /\
    Forall (Forall (Forall (fun v => (0 <= v <= 255)%Z))) (rows out).
Proof.
  split; [exact toy_ready|]. split; [by left|]. split; [simpl; lia|].
  split; [reflexivity|]. split; [lia|].
  apply (transform_output_shape Toy.fitted_a Toy.img_a 4 4);
    [exact toy_ready | by left | simpl; lia | reflexivity | lia | lia].
Defined.

(** The witness of C5. *)
Lemma undithered_output_in_palette_witness :
  ready Toy.fitted_a /\ dither Toy.fitted_a = DitherNone /\ shape_d Toy.img_a = 3 /\
  palette_size (palette Toy.fitted_a) < shape_h Toy.img_a * shape_w Toy.img_a /\
  _get_size Toy.fitted_a (shape_h Toy.img_a) (shape_w Toy.img_a) = Ok (4, 4) /\
  0 < 4 /\
  exists out cols p',
    transform Toy.fitted_a Toy.img_a = Ok (out, p') /\
    colors Toy.fitted_a = Ok (cols, p') /\
    Forall (Forall (fun px => px ∈ cols)) (rows out).
Proof.
  split; [exact toy_ready|]. split; [reflexivity|]. split; [reflexivity|].
  split; [simpl; lia|]. split; [reflexivity|]. split; [lia|].
  apply (undithered_output_in_palette Toy.fitted_a Toy.img_a 4 4);
    [exact toy_ready | reflexivity | reflexivity | simpl; lia | reflexivity | lia | lia].
Defined.

(** The witness of C7: two pixels in a row. *)
Lemma bayer_selects_minimum_witness :
  ready Toy.fitted_a /\ [Toy.dark; Toy.bright] <> [] /\
  length [Toy.dark; Toy.bright] = 1 * 2 /\
  exists m probs cols p' X_,
    the_model Toy.fitted_a = Ok m /\
    predict_proba (palette Toy.fitted_a) m [Toy.dark; Toy.bright] = Ok probs /\
    colors Toy.fitted_a = Ok (cols, p') /\
    dither_bayer Toy.fitted_a [Toy.dark; Toy.bright] 1 2 = Ok (X_, p') /\
    length X_ = 1 * 2 /\
    forall y x, y < 1 -> x < 2 ->
      exists r, r < length cols /\
        X_ !! (y * 2 + x) = cols !! r /\
        forall j, j < length cols ->
          (bayer_map probs 1 2 r y x <= bayer_map probs 1 2 j y x)%Qc.
Proof.
  split; [exact toy_ready|]. split; [done|]. split; [reflexivity|].
  apply (bayer_selects_minimum Toy.fitted_a [Toy.dark; Toy.bright] 1 2);
    [exact toy_ready | done | reflexivity].
Defined.

(** The witness of C8: a row of four pixels. *)
Lemma naive_never_adjacent_witness :
  ready Toy.fitted_a /\ Toy.row_a <> [] /\ length Toy.row_a = 1 * 4 /\
  exists m probs cols p' best X_,
    the_model Toy.fitted_a = Ok m /\
    predict_proba (palette Toy.fitted_a) m Toy.row_a = Ok probs /\
    colors Toy.fitted_a = Ok (cols, p') /\
    mapM_res (index cols) (map np_argmax probs) = Ok best /\
    dither_naive Toy.fitted_a Toy.row_a 4 = Ok (X_, p') /\
    (forall j, X_ !! j <> best !! j -> j ∈ naive_visits 4 (1 * 4)) /\
    (forall y x, y < 1 -> x + 1 < 4 ->
       ~ (y * 4 + x ∈ naive_visits 4 (1 * 4) /\
          y * 4 + x + 1 ∈ naive_visits 4 (1 * 4))) /\
    (forall y x, y < 1 -> x + 1 < 4 ->
       X_ !! (y * 4 + x) = best !! (y * 4 + x) \/
       X_ !! (y * 4 + x + 1) = best !! (y * 4 + x + 1)).
Proof.
  split; [exact toy_ready|]. split; [done|]. split; [reflexivity|].
  apply (naive_never_adjacent Toy.fitted_a Toy.row_a 1 4);
    [exact toy_ready | done | reflexivity].
Defined.

(** * Further properties of the code

    What the methods do at their edges, what they keep, and how they
    compose. *)

(** ** What [__init__] accepts and leaves *)

Section Construction.
Context `{ext : Externals}.

Lemma init_fields h w f u d pal di s a b (p : Pyx) :
  Pyx_init h w f u d pal di s a b = Ok p ->
  exists mode, dither_of di = Some mode /\
    p = MkPyx h w f u d pal mode s a b None false None.
Proof.
  unfold Pyx_init. destruct (_ && _); [done|]. intros H.
  repeat (apply bind_ok in H as ([] & _ & H)).
  destruct (_ <? _); [done|].
  destruct (dither_of di) as [mode|]; [|done]. exists mode. by injection H.
Qed.

Lemma dither_of_name (d : dither_mode) : dither_of d = Some d.
Proof. by destruct d. Qed.

(** X1: [__init__] returns an instance exactly when the size arguments
    are not given together with a factor, every size argument that is given
    is at least 1, [sobel] is at least 2, both upscale factors are at least
    1, [depth] is positive, the palette holds (or asks for) at least two
    colours and the [dither] argument is [None] or one of the five names
    "none", "naive", "bayer", "floyd" and "atkinson"; the instance carries
    the arguments, the dither under its name, no model, no cache, and is not
    fitted. *)
Theorem init_accepts h w f u d pal di s a b (p : Pyx) :
  Pyx_init h w f u d pal di s a b = Ok p <->
  (is_some w || is_some h) && is_some f = false /\
  from_option (fun n => 1 <= n) True h /\
  from_option (fun n => 1 <= n) True w /\
  from_option (fun n => 1 <= n) True f /\
  2 <= s /\ 1 <= u.1 /\ 1 <= u.2 /\ 0 < d /\ 2 <= palette_size pal /\
  exists mode, dither_of di = Some mode /\
    p = MkPyx h w f u d pal mode s a b None false None.
Proof.
  unfold Pyx_init.
  destruct ((is_some w || is_some h) && is_some f).
  { split; [done|]. by intros [? _]. }
  assert (forall o, from_option (Nat.leb 1) true o = true <-> from_option (fun n => 1 <= n) True o)
    as Ho.
  { intros [n|]; cbn [from_option]; [apply Nat.leb_le|done]. }
  split.
  - intros H.
    repeat (apply bind_ok in H as ([] & ?%py_assert_ok & H)).
    destruct (Nat.ltb_spec (palette_size pal) 2); [done|].
    destruct (dither_of di) as [mode|]; [|done].
    injection H as <-.
    repeat match goal with
           | H : _ && _ = true |- _ => apply andb_true_iff in H as [? ?]
           | H : (_ <=? _) = true |- _ => apply Nat.leb_le in H
           | H : (_ <? _) = true |- _ => apply Nat.ltb_lt in H
           | H : from_option _ _ _ = true |- _ => apply Ho in H
           end.
    split_and!; try done. by exists mode.
  - intros (_ & Hh%Ho & Hw%Ho & Hf%Ho & Hs%Nat.leb_le & Hu1%Nat.leb_le & Hu2%Nat.leb_le
            & Hd%Nat.ltb_lt & Hpal & mode & Hmode & ->).
    rewrite Hh, Hw, Hf, Hs, Hu1, Hu2, Hd, Hmode. simpl. rewrite ?bind_Ok.
    destruct (Nat.ltb_spec (palette_size pal) 2); [lia|done].
Qed.

(** X2: [transform] on an instance that [__init__] just returned fails with
    the assertion that asks for [fit], whatever the image is: the check of
    [is_fitted] comes before every other check. *)
Theorem fresh_instance_cannot_transform h w f u d pal di s a b (p : Pyx) (X : image) :
  Pyx_init h w f u d pal di s a b = Ok p ->
  transform p X = Err (AssertionError NotFitted).
Proof.
  intros (_ & Hf & _)%init_valid. unfold transform. by rewrite Hf.
Qed.

End Construction.

(** The assertion on [dither] at work: a string that is none of the five
    names, and an object that is no string (the member of an [Enum]), are
    refused; [None] is accepted; the check of the palette comes first. *)
Lemma init_rejects_unknown_dither :
  Pyx_init None None (Some 2) (1, 1) 1 (Count 8) (DitherStr "foo"%string) 3 (frac 6 10) true
    = Err (AssertionError InvalidArgument) /\
  Pyx_init None None (Some 2) (1, 1) 1 (Count 8) DitherObject 3 (frac 6 10) true
    = Err (AssertionError InvalidArgument) /\
  Pyx_init None None (Some 2) (1, 1) 1 (Count 1) DitherObject 3 (frac 6 10) true
    = Err ValueError /\
  is_ok (Pyx_init None None (Some 2) (1, 1) 1 (Count 8) DitherPyNone 3 (frac 6 10) true) = true /\
  is_ok (Pyx_init None None (Some 2) (1, 1) 1 (Count 8) (DitherStr "bayer"%string) 3 (frac 6 10) true)
    = true.
Proof. by split_and!. Qed.

(** The witness of X2. *)
Lemma fresh_instance_cannot_transform_witness :
  Toy.make 2 DitherNone 3 1 1 = Ok Toy.fresh /\
  transform Toy.fresh Toy.img_a = Err (AssertionError NotFitted).
Proof.
  split; [reflexivity|].
  apply (fresh_instance_cannot_transform None None None (1, 1) 1 (Count 2) DitherNone 3
           (frac 6 10) false).
  reflexivity.
Defined.

(** ** Integer samples among the rationals *)

Lemma this_of_int (z : Z) : (this (of_int z) == inject_Z z)%Q.
Proof. unfold of_int. simpl. apply Qred_correct. Qed.

Lemma of_int_mult (a b : Z) : (of_int a * of_int b)%Qc = of_int (a * b).
Proof.
  apply Qc_is_canon. unfold of_int at 3. simpl.
  rewrite !Qred_correct, inject_Z_mult. reflexivity.
Qed.

Lemma of_int_le (a b : Z) : (of_int a <= of_int b)%Qc <-> (a <= b)%Z.
Proof. unfold Qcle. rewrite !this_of_int. by rewrite Zle_Qle. Qed.

Lemma of_int_lt (a b : Z) : (of_int a < of_int b)%Qc <-> (a < b)%Z.
Proof. unfold Qclt. rewrite !this_of_int. by rewrite Zlt_Qlt. Qed.

Lemma Qltb_of_int (a b : Z) : Qltb (of_int a) (of_int b) = (a <? b)%Z.
Proof.
  destruct (Z.ltb_spec a b) as [H|H].
  - by apply Qltb_lt, of_int_lt.
  - by apply Qltb_ge, of_int_le.
Qed.

Lemma astype_int_of_int (z : Z) : astype_int (of_int z) = z.
Proof.
  unfold astype_int. destruct (Qleb 0 (of_int z)).
  - rewrite this_of_int. apply Qfloor_Z.
  - rewrite this_of_int. apply Qceiling_Z.
Qed.

Lemma np_clip_of_int (lo hi z : Z) :
  np_clip (of_int lo) (of_int hi) (of_int z) =
  of_int (if (z <? lo)%Z then lo else if (hi <? z)%Z then hi else z).
Proof. unfold np_clip. rewrite !Qltb_of_int. by repeat case_match. Qed.

Lemma quantise_quantised (c : Qc) : quantised (quantise c).
Proof.
  unfold quantise, COLOR_QUANT.
  set (n := Qfloor _). rewrite of_int_mult.
  change 0%Qc with (of_int 0). rewrite np_clip_of_int, astype_int_of_int.
  cbv zeta. unfold quantised.
  destruct (Z.ltb_spec (n * 8) 0).
  { simpl. lia. }
  destruct (Z.ltb_spec 255 (n * 8)).
  { simpl. lia. }
  destruct (Z.ltb_spec (n * 8) (8 * 2)).
  { simpl. lia. }
  destruct (Z.ltb_spec (255 - 8 * 2) (n * 8)); [lia|].
  right. right. split; [lia|]. apply Z.mod_mul. lia.
Qed.

(** ** Rounding to float64 *)

Lemma round_half_even_floor (num den : Z) : (num / den <= round_half_even num den)%Z.
Proof.
  unfold round_half_even. destruct (_ ?= _)%Z; [destruct (Z.even _)| |]; lia.
Qed.

Lemma Q2Qc_le (q r : Q) : (q <= r)%Q -> (Q2Qc q <= Q2Qc r)%Qc.
Proof. intros H. unfold Qcle. cbn [this Q2Qc]. by rewrite !Qred_correct. Qed.

Lemma magnitude_nonneg (a d e : Z) : (0 <= a)%Z -> (0 < d)%Z -> (0 <= magnitude a d e)%Qc.
Proof.
  intros Ha Hd. unfold magnitude. destruct (Z.leb_spec 0 e) as [He|He].
  - apply (Q2Qc_le 0). unfold Qle. simpl.
    pose proof (round_half_even_floor a (d * 2 ^ e)).
    assert (0 < 2 ^ e)%Z by (apply Z.pow_pos_nonneg; lia).
    assert (0 <= a / (d * 2 ^ e))%Z by (apply Z.div_pos; nia). nia.
  - apply (Q2Qc_le 0). unfold Qle. simpl.
    pose proof (round_half_even_floor (a * 2 ^ (- e)) d).
    assert (0 < 2 ^ (- e))%Z by (apply Z.pow_pos_nonneg; lia).
    assert (0 <= a * 2 ^ (- e) / d)%Z by (apply Z.div_pos; nia). lia.
Qed.

Lemma binary64_nonpos (x : Qc) : (x <= 0)%Qc -> (binary64 x <= 0)%Qc.
Proof.
  intros Hx. unfold binary64.
  destruct (Z.eqb_spec (Z.abs (Qnum x)) 0); [done|].
  assert (Qnum x < 0)%Z as Hn.
  { unfold Qcle, Qle in Hx. simpl in Hx. lia. }
  rewrite (proj2 (Z.ltb_lt _ _) Hn).
  apply (Qcopp_le_compat 0). apply magnitude_nonneg; lia.
Qed.

(** Above [2 ^ 53] the exponent is positive, and [2 ^ (e + 52)] is no more
    than [a / d]. *)
Lemma exponent_positive (a d : Z) :
  (0 < a)%Z -> (0 < d)%Z -> (0 < exponent a d)%Z ->
  (d * 2 ^ (exponent a d + 52) <= a)%Z.
Proof.
  intros Ha Hd. unfold exponent.
  set (k0 := (Z.log2 a - Z.log2 d)%Z).
  pose proof (Z.log2_spec a Ha) as [Hla Hua].
  pose proof (Z.log2_spec d Hd) as [Hld Hud].
  pose proof (Z.log2_nonneg a). pose proof (Z.log2_nonneg d).
  destruct (Z.leb_spec 0 k0) as [Hk|Hk].
  - destruct (Z.ltb_spec a (d * 2 ^ k0)) as [Hb|Hb]; intros He.
    + replace (Z.max (k0 - 1 - 52) (-1074) + 52)%Z with (k0 - 1)%Z by lia.
      assert (d * 2 ^ (k0 - 1) < 2 ^ Z.log2 a)%Z; [|lia].
      replace (Z.log2 a) with (Z.succ (Z.log2 d) + (k0 - 1))%Z by lia.
      rewrite (Z.pow_add_r 2 (Z.succ (Z.log2 d))) by lia.
      apply Z.mul_lt_mono_pos_r; [apply Z.pow_pos_nonneg; lia|lia].
    + replace (Z.max (k0 - 52) (-1074) + 52)%Z with k0 by lia. lia.
  - destruct (_ <? _)%Z; lia.
Qed.

Lemma binary64_ge_int (N : Z) (x : Qc) :
  (1 <= N < 2 ^ 53)%Z -> (of_int N <= x)%Qc -> (of_int N <= binary64 x)%Qc.
Proof.
  intros HN Hx. unfold binary64.
  assert (N * Zpos (Qden x) <= Qnum x)%Z as Hnd.
  { unfold Qcle in Hx. rewrite this_of_int in Hx. unfold Qle in Hx. simpl in Hx. lia. }
  assert (0 < Qnum x)%Z as Hn by nia.
  destruct (Z.eqb_spec (Z.abs (Qnum x)) 0); [lia|].
  destruct (Z.ltb_spec (Qnum x) 0); [lia|].
  rewrite Z.abs_eq by lia.
  set (a := Qnum x) in *. set (d := Zpos (Qden x)) in *.
  assert (0 < d)%Z as Hd by (subst d; lia).
  pose proof (exponent_positive a d Hn Hd) as Hexp.
  set (e := exponent a d) in *. clearbody e. unfold magnitude, of_int.
  destruct (Z.leb_spec 0 e) as [He|He].
  - apply Q2Qc_le. rewrite <- Zle_Qle.
    pose proof (round_half_even_floor a (d * 2 ^ e)) as Hr.
    destruct (Z.eq_dec e 0%Z) as [->|Hne].
    + rewrite !Z.pow_0_r, !Z.mul_1_r in *.
      assert (N <= a / d)%Z by (apply Z.div_le_lower_bound; lia). lia.
    + specialize (Hexp ltac:(lia)).
      assert (0 < 2 ^ e)%Z by (apply Z.pow_pos_nonneg; lia).
      assert (2 ^ 52 <= a / (d * 2 ^ e))%Z.
      { apply Z.div_le_lower_bound; [nia|].
        rewrite Z.pow_add_r in Hexp by lia. lia. }
      assert (2 <= 2 ^ e)%Z.
      { change 2%Z with (2 ^ 1)%Z at 1. apply Z.pow_le_mono_r; lia. }
      nia.
  - apply Q2Qc_le. unfold Qle. simpl.
    pose proof (round_half_even_floor (a * 2 ^ (- e)) d) as Hr.
    assert (0 < 2 ^ (- e))%Z by (apply Z.pow_pos_nonneg; lia).
    rewrite Z2Pos.id by done.
    assert (N * 2 ^ (- e) <= a * 2 ^ (- e) / d)%Z by (apply Z.div_le_lower_bound; nia).
    lia.
Qed.

Lemma byte_round_trip (k : Z) :
  (0 <= k <= 255)%Z ->
  astype_int (np_clip 0 (of_int 255)
                (binary64 (binary64 (binary64 (of_int k / of_int 255)) * of_int 255)))%Qc = k.
Proof.
  intros Hk.
  assert (forallb (fun n =>
            (astype_int (np_clip 0 (of_int 255)
               (binary64 (binary64 (binary64 (of_int (Z.of_nat n) / of_int 255))
                          * of_int 255)))%Qc =? Z.of_nat n)%Z) (seq 0 256) = true) as H.
  { vm_compute. reflexivity. }
  rewrite forallb_forall in H. specialize (H (Z.to_nat k)).
  rewrite Z2Nat.id in H by lia. apply Z.eqb_eq, H, in_seq. lia.
Qed.

(** The byte 72, whose quotient by 255 in float64 lies below 72 / 255, and
    the sample 24 / 255 of a found colour. *)
Lemma byte_72_and_sample_24 :
  _image_to_int (FloatColors [[binary64 (frac 72 255)]]) = Ok [[72%Z]] /\
  Qfloor (binary64 (frac 72 255) * of_int 255)%Qc = 71%Z /\
  quantise (binary64 (frac 24 255)) = 24%Z.
Proof. vm_compute. by split_and!. Qed.

(** On the bytes, [binary64] is the float64 arithmetic of the processor:
    the quotient [k / 255.] and its product with [255.]. *)
Lemma binary64_on_bytes :
  forallb (fun k =>
    let q := (float_of_nat k / float_of_nat 255)%float in
    match float_value q, float_value (q * float_of_nat 255)%float with
    | Some x, Some y =>
        Qeq_bool x (binary64 (of_int (Z.of_nat k) / of_int 255))%Qc &&
        Qeq_bool y (binary64 (x * of_int 255))%Qc
    | _, _ => false
    end) (seq 0 256) = true.
Proof. vm_compute. reflexivity. Qed.

(** ** The colours of the palette *)

Section Colours.
Context `{ext : Externals}.

(** X3: on an instance that [__init__] just returned, [colors] fails with
    its own assertion when the palette is a number of colours to find, and
    returns the colours, one per colour given, when the palette holds
    colours: a given palette needs no [fit]. *)
Theorem colors_before_fit h w f u d pal di s a b (p : Pyx) :
  Pyx_init h w f u d pal di s a b = Ok p ->
  if find_palette_of pal
  then colors p = Err (AssertionError ColorsNotFitted)
  else exists c, colors p = Ok (c, with_cache p c) /\ length c = palette_size pal.
Proof.
  intros (_ & Hf & Hc & Hpal)%init_valid. unfold colors. rewrite Hc, Hpal, Hf.
  destruct pal as [k|cs|cs]; simpl; [done| |].
  - eexists. split; [done|]. by rewrite length_map.
  - by eexists.
Qed.

(** X4: [colors] changes nothing of the instance but the palette cache,
    which then holds what it returned, and every later read returns the same
    colours and leaves the instance as it is. *)
Theorem colors_memoised (p p' : Pyx) (c : list (list Z)) :
  colors p = Ok (c, p') ->
  same_config p p' /\ palette_cache p' = Some c /\ colors p' = Ok (c, p').
Proof.
  intros H. pose proof (colors_fills_cache _ _ _ H) as Hc.
  split; [|split; [done|by apply colors_of_cache]].
  unfold colors in H. destruct (palette_cache p).
  - injection H as <- <-. by split_and!.
  - apply bind_ok in H as (c' & _ & [= <- <-]). by split_and!.
Qed.

(** X5: the colours found for a palette of [k] colours are [k] colours of
    three samples, and every sample is 0, 255 or a multiple of 8 from 16 to
    232: the quantisation of [colors] to [COLOR_QUANT] and its two
    thresholds. *)
Theorem found_palette_quantised (p : Pyx) (k : nat) :
  palette p = Count k -> is_fitted p = true -> is_some (model p) = true ->
  palette_cache p = None ->
  exists c, colors p = Ok (c, with_cache p c) /\ length c = k /\
    Forall (fun col => length col = 3 /\ Forall quantised col) c.
Proof.
  intros Hpal Hf Hm Hc. unfold colors. rewrite Hc, Hpal, Hf.
  destruct (model p) as [m|]; [|done]. simpl.
  eexists. split; [done|]. split; [by rewrite length_map, length_seq|].
  apply Forall_map, Forall_forall. intros i _. cbn beta.
  split; [apply found_colour_wf|]. unfold found_colour.
  apply Forall_map, Forall_forall. intros v _. apply quantise_quantised.
Qed.

(** X6: the colours of a palette given as colours of float samples (a
    [Pal], a list or tuple of colours, a float array) are available without
    [fit]; each sample is an integer within [0, 255], samples of 1 and above
    become 255, samples of 0 and below become 0, and the float64 quotient of
    a byte by 255, as a palette of hexadecimal colours holds it, becomes
    that byte again. *)
Theorem float_palette_saturates (p : Pyx) (cs : list (list Qc)) :
  palette p = FloatColors cs -> palette_cache p = None ->
  exists c, colors p = Ok (c, with_cache p c) /\
    Forall2 (Forall2 (fun x v =>
      (0 <= v <= 255)%Z /\
      ((1 <= x)%Qc -> v = 255%Z) /\
      ((x <= 0)%Qc -> v = 0%Z) /\
      (forall k, (0 <= k <= 255)%Z -> x = binary64 (of_int k / of_int 255) -> v = k))) cs c.
Proof.
  intros Hpal Hc. unfold colors. rewrite Hc, Hpal. simpl.
  eexists. split; [done|].
  apply Forall2_fmap_r, Forall_Forall2_diag, Forall_forall. intros col _.
  apply Forall2_fmap_r, Forall_Forall2_diag, Forall_forall. intros x _.
  assert (forall y : Qc, (of_int 255 <= y)%Qc ->
            astype_int (np_clip 0 (of_int 255) y) = 255%Z) as Hhi.
  { intros y Hy. unfold np_clip.
    destruct (Qltb y 0) eqn:H0.
    { apply Qltb_lt in H0. exfalso. eapply Qclt_not_le; [exact H0|].
      eapply Qcle_trans; [|exact Hy]. done. }
    destruct (Qltb (of_int 255) y) eqn:H1; [apply (astype_int_of_int 255)|].
    apply Qltb_ge in H1. rewrite (Qcle_antisym _ _ H1 Hy).
    apply (astype_int_of_int 255). }
  assert (forall y : Qc, (y <= 0)%Qc ->
            astype_int (np_clip 0 (of_int 255) y) = 0%Z) as Hlo.
  { intros y Hy. unfold np_clip.
    destruct (Qltb y 0) eqn:H0; [done|].
    apply Qltb_ge in H0. by rewrite (Qcle_antisym _ _ Hy H0). }
  split; [apply astype_int_clip|]. split; [|split].
  - intros Hx. apply Hhi. apply binary64_ge_int; [done|].
    rewrite <- (Qcmult_1_l (of_int 255)) at 1. apply Qcmult_le_compat_r; [|done].
    by apply (binary64_ge_int 1).
  - intros Hx. apply Hlo, binary64_nonpos.
    rewrite <- (Qcmult_0_l (of_int 255)). apply Qcmult_le_compat_r; [|done].
    by apply binary64_nonpos.
  - intros k Hk ->. by apply byte_round_trip.
Qed.

End Colours.

(** The witness of X3. *)
Lemma colors_before_fit_witness :
  Toy.make 2 DitherNone 3 1 1 = Ok Toy.fresh /\
  colors Toy.fresh = Err (AssertionError ColorsNotFitted).
Proof.
  split; [reflexivity|].
  exact (colors_before_fit None None None (1, 1) 1 (Count 2) DitherNone 3 (frac 6 10) false
           Toy.fresh eq_refl).
Defined.

(** The witness of X4. *)
Lemma colors_memoised_witness :
  colors Toy.fitted_a = Ok (Toy.colors_a, with_cache Toy.fitted_a Toy.colors_a) /\
  same_config Toy.fitted_a (with_cache Toy.fitted_a Toy.colors_a) /\
  palette_cache (with_cache Toy.fitted_a Toy.colors_a) = Some Toy.colors_a /\
  colors (with_cache Toy.fitted_a Toy.colors_a)
  = Ok (Toy.colors_a, with_cache Toy.fitted_a Toy.colors_a).
Proof.
  split; [reflexivity|]. apply (colors_memoised Toy.fitted_a). reflexivity.
Defined.

(** The witness of X5. *)
Lemma found_palette_quantised_witness :
  palette Toy.fitted_a = Count 2 /\ is_fitted Toy.fitted_a = true /\
  is_some (model Toy.fitted_a) = true /\ palette_cache Toy.fitted_a = None /\
  exists c, colors Toy.fitted_a = Ok (c, with_cache Toy.fitted_a c) /\ length c = 2 /\
    Forall (fun col => length col = 3 /\ Forall quantised col) c.
Proof.
  split; [reflexivity|]. split; [reflexivity|]. split; [reflexivity|]. split; [reflexivity|].
  apply (found_palette_quantised Toy.fitted_a 2); reflexivity.
Defined.

(** The witness of X6. *)
Lemma float_palette_saturates_witness :
  palette Toy.given = FloatColors Toy.given_colours /\ palette_cache Toy.given = None /\
  exists c, colors Toy.given = Ok (c, with_cache Toy.given c) /\
    Forall2 (Forall2 (fun x v =>
      (0 <= v <= 255)%Z /\
      ((1 <= x)%Qc -> v = 255%Z) /\
      ((x <= 0)%Qc -> v = 0%Z) /\
      (forall k, (0 <= k <= 255)%Z -> x = binary64 (of_int k / of_int 255) -> v = k)))
      Toy.given_colours c.
Proof.
  split; [reflexivity|]. split; [reflexivity|].
  apply (float_palette_saturates Toy.given Toy.given_colours); reflexivity.
Defined.

Lemma edge_axis_none {B} (l : list B) : edge_axis 0 0 l = l.
Proof. destruct l; [done|]. unfold edge_axis. simpl. by rewrite app_nil_r. Qed.

Lemma padded_multiple_iff (n t : nat) :
  2 <= t -> (pad_before n t + n + pad_after n t) mod t = 0 <-> pad_fits n t.
Proof.
  intros Ht. unfold pad_fits, pad_before, pad_after.
  pose proof (Nat.mod_upper_bound n t ltac:(lia)) as Hr.
  pose proof (Nat.div_mod_eq n t) as Hn.
  set (r := n mod t) in *. set (q := n / t) in *.
  assert (forall k, (k + n) mod t = (k + r) mod t) as Hmod.
  { intros k. rewrite Hn. replace (k + (t * q + r)) with (k + r + q * t) by lia.
    apply Nat.Div0.mod_add. }
  assert (forall m, m < 2 * t -> m mod t = 0 <-> m = 0 \/ m = t) as Hsmall.
  { intros m Hm. destruct (Nat.lt_ge_cases m t).
    - rewrite Nat.mod_small by done. lia.
    - replace m with (m - t + 1 * t) by lia. rewrite Nat.Div0.mod_add.
      rewrite Nat.mod_small by lia. lia. }
  destruct (Nat.ltb_spec 0 r); destruct (Nat.eqb_spec r 1).
  - replace (1 + n + 1) with (2 + n) by lia. rewrite Hmod, Hsmall by lia. lia.
  - replace (1 + n + 0) with (1 + n) by lia. rewrite Hmod, Hsmall by lia. lia.
  - lia.
  - replace (0 + n + 0) with (0 + n) by lia. rewrite Hmod, Hsmall by lia. lia.
Qed.

(** ** Padding to the tile size *)

Section PadFacts.
Context {A : Type}.

(** X7: on an image whose height and width are multiples of the tile size
    [_pad] changes nothing, in either direction. *)
Theorem pad_identity_on_multiples (X : ndarray A) (t : nat) :
  t <> 0 -> shape_h X mod t = 0 -> shape_w X mod t = 0 ->
  _pad X t None None = Ok X /\
  _pad X t (Some (shape_h X)) (Some (shape_w X)) = Ok X.
Proof.
  intros Ht Hh Hw. split.
  - rewrite pad_reduces by done.
    destruct (pad_multiple _ _ Hh) as [-> ->], (pad_multiple _ _ Hw) as [-> ->].
    rewrite !Nat.add_0_r. simpl. rewrite edge_axis_none.
    rewrite (map_ext _ id), map_id by (intros; apply edge_axis_none).
    by destruct X.
  - rewrite unpad_reduces by done.
    destruct (pad_multiple _ _ Hh) as [-> ->], (pad_multiple _ _ Hw) as [-> ->].
    unfold np_slice. simpl Nat.eqb. cbv iota.
    rewrite (py_slice_open 0 (rows X)). simpl drop.
    rewrite (map_ext _ id), map_id by (intros l; apply (py_slice_open 0 l)).
    unfold slice_length, slice_index. simpl.
    replace (Z.to_nat (Z.of_nat 0 `min` Z.of_nat (shape_h X))) with 0 by lia.
    replace (Z.to_nat (Z.of_nat 0 `min` Z.of_nat (shape_w X))) with 0 by lia.
    rewrite !Nat.sub_0_r. by destruct X.
Qed.

(** X8: the padded height (and width) is a multiple of the tile size [t]
    exactly when the height [n] was one already, or [n % t] is [t - 1] (one
    row is added), or [t] is 3 and [n % t] is 1 (two rows are added).  For
    every other remainder the padded image is still no multiple of [t]. *)
Theorem pad_divisible_iff (X P : ndarray A) (t : nat) :
  2 <= t -> _pad X t None None = Ok P ->
  (shape_h P mod t = 0 <-> pad_fits (shape_h X) t) /\
  (shape_w P mod t = 0 <-> pad_fits (shape_w X) t).
Proof.
  intros Ht HP. destruct (pad_shape X t P ltac:(lia) HP) as (-> & -> & _).
  split; by apply padded_multiple_iff.
Qed.

End PadFacts.

(** The witness of X7. *)
Lemma pad_identity_on_multiples_witness :
  2 <> 0 /\ shape_h Toy.img_a mod 2 = 0 /\ shape_w Toy.img_a mod 2 = 0 /\
  _pad Toy.img_a 2 None None = Ok Toy.img_a /\
  _pad Toy.img_a 2 (Some (shape_h Toy.img_a)) (Some (shape_w Toy.img_a)) = Ok Toy.img_a.
Proof.
  split; [lia|]. split; [reflexivity|]. split; [reflexivity|].
  apply (pad_identity_on_multiples Toy.img_a 2); [lia|reflexivity|reflexivity].
Defined.

(** The witness of X8. *)
Lemma pad_divisible_iff_witness :
  2 <= 2 /\
  exists P, _pad Toy.img_2px 2 None None = Ok P /\
    (shape_h P mod 2 = 0 <-> pad_fits (shape_h Toy.img_2px) 2) /\
    (shape_w P mod 2 = 0 <-> pad_fits (shape_w Toy.img_2px) 2).
Proof.
  split; [lia|].
  exists (NDArray 3 2 3 Integer
            [[Toy.dark; Toy.bright]; [Toy.dark; Toy.bright]; [Toy.dark; Toy.bright]]).
  split; [reflexivity|].
  apply (pad_divisible_iff Toy.img_2px _ 2); [lia|reflexivity].
Defined.

(** ** One pass of [_pyxelate] *)

Section Pyxelate.
Context `{ext : Externals}.

Lemma pyxelate_wrapper_cases (s h w : nat) (dim : channel) :
  s <> 0 ->
  if (h mod s =? 0) && (w mod s =? 0)
  then is_ok (pyxelate_wrapper s h w dim) = true
  else pyxelate_wrapper s h w dim = Err ValueError.
Proof.
  intros Hs. unfold pyxelate_wrapper, view_as_blocks_sum.
  destruct (Nat.eqb_spec s 0); [done|].
  by destruct (_ && _).
Qed.

(** X9: [_pyxelate] returns exactly when [_pad] brought both the height
    and the width to a multiple of [sobel]; the image it returns holds one
    pixel per tile of the padded image.  In every other case it fails with
    the [ValueError] of [view_as_blocks]. *)
Theorem pyxelate_returns_iff (p : Pyx) (X : image) :
  2 <= sobel p -> shape_d X = 3 \/ shape_d X = 4 ->
  (is_ok (_pyxelate p X) = true <->
   pad_fits (shape_h X) (sobel p) /\ pad_fits (shape_w X) (sobel p)) /\
  (forall e, _pyxelate p X = Err e -> e = ValueError) /\
  (forall Y, _pyxelate p X = Ok Y ->
     shape_h Y * sobel p = pad_before (shape_h X) (sobel p) + shape_h X
                           + pad_after (shape_h X) (sobel p) /\
     shape_w Y * sobel p = pad_before (shape_w X) (sobel p) + shape_w X
                           + pad_after (shape_w X) (sobel p) /\
     shape_d Y = shape_d X /\ kind Y = Floating /\ shaped Y).
Proof.
  intros Hs Hd. unfold _pyxelate. rewrite pad_reduces, bind_Ok by lia.
  cbn [shape_h shape_w shape_d].
  set (H := pad_before (shape_h X) (sobel p) + shape_h X + pad_after (shape_h X) (sobel p)).
  set (W := pad_before (shape_w X) (sobel p) + shape_w X + pad_after (shape_w X) (sobel p)).
  set (P := NDArray H W _ _ _).
  assert ((shape_d X =? 3) || (shape_d X =? 4) = true) as ->.
  { destruct Hd as [-> | ->]; done. }
  rewrite <- !(padded_multiple_iff _ (sobel p)) by done. fold H W.
  assert (exists d', shape_d X = S d') as [d' Hd'] by (destruct Hd; eexists; eauto).
  destruct ((H mod sobel p =? 0) && (W mod sobel p =? 0)) eqn:Hfit.
  - apply andb_true_iff in Hfit as [HH%Nat.eqb_eq HW%Nat.eqb_eq].
    destruct (mapM_res_total
                (fun c => pyxelate_wrapper (sobel p) H W (chan P c)) (seq 0 (shape_d X)))
      as (cs & -> & _).
    { intros c _. pose proof (pyxelate_wrapper_cases (sobel p) H W (chan P c) ltac:(lia)) as Hc.
      rewrite HH, HW in Hc. simpl in Hc. destruct (pyxelate_wrapper _ _ _ _); [eauto|done]. }
    rewrite bind_Ok. split_and!; [done|done|].
    intros Y [= <-]. cbn [shape_h shape_w shape_d kind].
    split_and!; try done.
    + apply Nat.Div0.div_exact in HH. lia.
    + apply Nat.Div0.div_exact in HW. lia.
    + apply shaped_tabulate.
  - assert (mapM_res (fun c => pyxelate_wrapper (sobel p) H W (chan P c)) (seq 0 (shape_d X))
            = Err ValueError) as ->.
    { rewrite Hd'. simpl.
      pose proof (pyxelate_wrapper_cases (sobel p) H W (chan P 0) ltac:(lia)) as Hc.
      rewrite Hfit in Hc. by rewrite Hc. }
    rewrite bind_Err. split_and!.
    + split; [done|]. intros [HH%Nat.eqb_eq HW%Nat.eqb_eq].
      by rewrite HH, HW in Hfit.
    + by intros e [= <-].
    + done.
Qed.

End Pyxelate.

(** The witness of X9. *)
Lemma pyxelate_returns_iff_witness :
  2 <= sobel Toy.fitted_a /\ (shape_d Toy.img_a = 3 \/ shape_d Toy.img_a = 4) /\
  (is_ok (_pyxelate Toy.fitted_a Toy.img_a) = true <->
   pad_fits (shape_h Toy.img_a) (sobel Toy.fitted_a) /\
   pad_fits (shape_w Toy.img_a) (sobel Toy.fitted_a)) /\
  (forall e, _pyxelate Toy.fitted_a Toy.img_a = Err e -> e = ValueError) /\
  (forall Y, _pyxelate Toy.fitted_a Toy.img_a = Ok Y ->
     shape_h Y * 3 = 6 /\ shape_w Y * 3 = 6 /\
     shape_d Y = 3 /\ kind Y = Floating /\ shaped Y).
Proof.
  split; [simpl; lia|]. split; [by left|].
  apply (pyxelate_returns_iff Toy.fitted_a Toy.img_a); [simpl; lia|by left].
Defined.

Lemma lookup_edge_axis {B} (b a : nat) (l : list B) (i : nat) :
  i < length l -> edge_axis b a l !! (b + i) = l !! i.
Proof.
  intros Hi. destruct l as [|x l]; [simpl in Hi; lia|]. unfold edge_axis.
  rewrite lookup_app_r by (rewrite length_replicate; lia).
  rewrite length_replicate. replace (b + i - b) with i by lia.
  by rewrite lookup_app_l.
Qed.

Lemma lookup_py_slice_crop {B} (b a n : nat) (L : list B) (i : nat) :
  a <= 1 -> length L = b + n + a -> i < n ->
  py_slice (Z.of_nat b) (if a =? 1 then Some (-1)%Z else None) L !! i = L !! (b + i).
Proof.
  intros Ha HL Hi. destruct a as [|[|a]]; [| |lia]; simpl "=?"; cbv iota.
  - rewrite py_slice_open. by rewrite lookup_drop.
  - rewrite py_slice_but_last, lookup_take_lt by lia. by rewrite lookup_drop.
Qed.

(** ** [_dilate] and the opaque pixels *)

Section Dilate.
Context `{ext : Externals}.

(** X10: [_dilate] returns an image of the shape of its argument that
    agrees with it on the alpha channel of every pixel and on the whole of
    every pixel whose alpha is at least [self.alpha]: only the colours of
    pixels more transparent than that are replaced. *)
Theorem dilate_keeps_opaque (p : Pyx) (X : image) :
  shaped X -> 3 < shape_d X ->
  exists D, _dilate p X = Ok D /\
    shape_h D = shape_h X /\ shape_w D = shape_w X /\ shape_d D = shape_d X /\ shaped D /\
    forall y x row px, rows X !! y = Some row -> row !! x = Some px ->
      exists row' px', rows D !! y = Some row' /\ row' !! x = Some px' /\
        drop 3 px' = drop 3 px /\
        ((alpha p <= nth 3 px 0)%Qc -> px' = px).
Proof.
  intros HX Hd.
  destruct (dilate_ok p X ltac:(lia)) as (D & HD & Hh & Hw & HDd & _ & HDs).
  exists D. split_and!; [done..|by apply HDs|]. clear HDs Hh Hw HDd.
  intros y x row px Hrow Hpx.
  unfold _dilate in HD. rewrite pad_reduces, bind_Ok in HD by done.
  rewrite each_channel_ok, bind_Ok in HD by (cbn [shape_d rgb_of]; lia).
  rewrite unpad_reduces in HD by done. injection HD as <-.
  cbn [rows np_slice shape_h shape_w shape_d kind].
  destruct HX as [Hlen Hrows].
  assert (Hy : y < shape_h X) by (rewrite <- Hlen; by eapply lookup_lt_Some).
  pose proof (Forall_lookup_1 _ _ _ _ Hrows Hrow) as [Hrlen _].
  assert (Hx : x < shape_w X) by (rewrite <- Hrlen; by eapply lookup_lt_Some).
  set (hb := pad_before (shape_h X) 3). set (ha := pad_after (shape_h X) 3).
  set (wb := pad_before (shape_w X) 3). set (wa := pad_after (shape_w X) 3).
  set (P := edge_axis hb ha (map (edge_axis wb wa) (rows X))).
  assert (HP : P !! (hb + y) = Some (edge_axis wb wa row)).
  { subst P. rewrite lookup_edge_axis by (rewrite length_map; lia).
    by rewrite list_lookup_fmap, Hrow. }
  assert (HPx : edge_axis wb wa row !! (wb + x) = Some px).
  { rewrite lookup_edge_axis by lia. done. }
  assert (HlenP : length P = hb + shape_h X + ha).
  { subst P. apply length_edge_axis_shaped; [by rewrite length_map|lia]. }
  assert (Hlenrow : length (edge_axis wb wa row) = wb + shape_w X + wa).
  { apply length_edge_axis_shaped; [done|lia]. }
  eexists _, _. split_and!.
  - rewrite list_lookup_fmap.
    rewrite (lookup_py_slice_crop hb ha (shape_h X));
      [|apply pad_after_le|by rewrite length_imap|done].
    rewrite list_lookup_imap, HP. simpl. reflexivity.
  - rewrite (lookup_py_slice_crop wb wa (shape_w X));
      [|apply pad_after_le|by rewrite length_imap|done].
    rewrite list_lookup_imap, HPx. simpl. reflexivity.
  - destruct (Qltb _ _); reflexivity.
  - intros Ha.
    assert (at2 (chan (NDArray (hb + shape_h X + ha) (wb + shape_w X + wa)
                         (shape_d X) (kind X) P) 3) (hb + y) (wb + x) = nth 3 px 0%Qc) as ->.
    { unfold at2, chan. cbn [rows].
      erewrite (nth_lookup_Some _ (hb + y)); [|by rewrite list_lookup_fmap, HP].
      erewrite (nth_lookup_Some _ (wb + x)); [|by rewrite list_lookup_fmap, HPx].
      done. }
    by rewrite (proj2 (Qltb_ge _ _) Ha).
Qed.

End Dilate.

(** The witness of X10. *)
Lemma dilate_keeps_opaque_witness :
  shaped Toy.img_rgba /\ 3 < shape_d Toy.img_rgba /\
  exists D, _dilate Toy.fitted_a Toy.img_rgba = Ok D /\
    shape_h D = 4 /\ shape_w D = 4 /\ shape_d D = 4 /\ shaped D /\
    forall y x row px, rows Toy.img_rgba !! y = Some row -> row !! x = Some px ->
      exists row' px', rows D !! y = Some row' /\ row' !! x = Some px' /\
        drop 3 px' = drop 3 px /\
        ((alpha Toy.fitted_a <= nth 3 px 0)%Qc -> px' = px).
Proof.
  assert (shaped Toy.img_rgba) as HX.
  { split; [reflexivity|]. repeat constructor. }
  split; [exact HX|]. split; [simpl; lia|].
  apply (dilate_keeps_opaque Toy.fitted_a Toy.img_rgba); [exact HX|simpl; lia].
Defined.

(** ** Target sizes and float images *)

Section Sizing.
Context `{ext : Externals}.

(** X11: [_median] returns an image of the same height and width on an
    image of 3 channels, and fails with a [ValueError] (of [rgb2hsv]) on any
    other number of channels. *)
Theorem median_needs_three_channels (X : image) :
  if shape_d X =? 3
  then exists M, _median X = Ok M /\
         shape_h M = shape_h X /\ shape_w M = shape_w X /\ shape_d M = 3
  else _median X = Err ValueError.
Proof.
  destruct (Nat.eqb_spec (shape_d X) 3) as [Hd|Hd]; [by apply median_ok|].
  unfold _median. rewrite pad_reduces, bind_Ok by done.
  unfold convert_colour at 2. cbn [shape_d].
  by destruct (Nat.eqb_spec (shape_d X) 3).
Qed.

(** X12: on an instance built by [__init__] without [height] and [width],
    [_get_size] returns the floor of the height and of the width divided by
    the factor, a missing factor counting as 1; it cannot divide by zero,
    since [__init__] refuses a factor below 1. *)
Theorem get_size_by_factor u d pal di s a b (f : option nat) (p : Pyx)
    (original_height original_width : nat) :
  Pyx_init None None f u d pal di s a b = Ok p ->
  _get_size p original_height original_width =
  Ok (original_height / default 1 f, original_width / default 1 f).
Proof.
  intros Hinit. pose proof Hinit as ((_ & _ & _ & _ & _ & Hf) & _)%init_valid.
  apply init_fields in Hinit as (mode & _ & ->). unfold _get_size.
  cbn [height width factor] in *.
  destruct f as [k|]; cbn [default from_option] in *.
  - destruct (Nat.eqb_spec k 0); [lia|done].
  - by rewrite !Nat.div_1_r.
Qed.

Lemma dither_stage_empty (p : Pyx) (X_ : image) (final_h final_w : nat) :
  final_h = 0 \/ final_w = 0 ->
  is_ok (dither_stage p X_ [] final_h final_w) = false.
Proof.
  intros Hz. unfold dither_stage.
  destruct (dither p); unfold dither_none, dither_naive, dither_bayer, dither_floyd,
    dither_atkinson, the_model; destruct (model p) as [m|]; try done; rewrite bind_Ok; try done.
  destruct Hz as [-> | ->]; [done|]. by rewrite orb_true_r.
Qed.

(** X13: [transform] never returns an empty image: when the height or the
    width that [_get_size] returns is 0 (a factor larger than the image),
    [transform] fails. *)
Theorem transform_refuses_empty_target (p : Pyx) (X : image) (new_h new_w : nat) :
  valid p -> 3 <= shape_d X ->
  _get_size p (shape_h X) (shape_w X) = Ok (new_h, new_w) ->
  new_h = 0 \/ new_w = 0 ->
  is_ok (transform p X) = false.
Proof.
  intros Hv Hd Hget Hz. unfold transform.
  destruct (is_fitted p); [|done]. simpl py_assert. rewrite bind_Ok.
  destruct (_ <? _); [|done]. simpl py_assert. rewrite bind_Ok.
  destruct (downsample_ok p X new_h new_w Hv Hd Hget)
    as (X_ & mask & -> & HXh & HXw & HXd & HX & Hmask).
  rewrite bind_Ok. cbv zeta.
  set (S_ := if find_palette_of (palette p)
             then map_image (fun v => (v - frac 1 2) * SCALE_RGB + frac 1 2)%Qc Floating X_
             else X_).
  assert (shape_h S_ = new_h /\ shape_w S_ = new_w /\ shape_d S_ = 3 /\ shaped S_)
    as (HSh & HSw & HSd & HS).
  { subst S_. destruct (find_palette_of _); [|done].
    split_and!; try done. by apply shaped_map_image. }
  unfold reshape_pixels. rewrite HSd. simpl (3 =? 3). cbv iota. rewrite bind_Ok.
  assert (concat (rows S_) = []) as ->.
  { apply nil_length_inv. rewrite length_concat_rows by done. rewrite HSh, HSw. lia. }
  pose proof (dither_stage_empty p S_ (shape_h X_) (shape_w X_)) as He.
  destruct (dither_stage _ _ _ _ _) as [|e]; [|done].
  discriminate He. by rewrite HXh, HXw.
Qed.

(** X14: [_image_to_float] returns a float image, applying it twice is
    applying it once, and on an integer image every sample of the result is
    within [0, 1]. *)
Theorem image_to_float_unit_range (X : image) :
  kind (_image_to_float X) = Floating /\
  _image_to_float (_image_to_float X) = _image_to_float X /\
  (kind X = Integer ->
   Forall (Forall (Forall (fun v => (0 <= v <= 1)%Qc))) (rows (_image_to_float X))).
Proof.
  unfold _image_to_float. destruct (kind X) eqn:Hk.
  - split_and!; [done|done|]. intros _. cbn [rows map_image].
    apply Forall_map, Forall_forall. intros row _.
    apply Forall_map, Forall_forall. intros px _.
    apply Forall_map, Forall_forall. intros v _.
    by apply np_clip_range.
  - rewrite Hk. by split_and!.
Qed.

End Sizing.

(** The witness of X12. *)
Lemma get_size_by_factor_witness :
  Pyx_init None None (Some 2) (1, 1) 1 (Count 2) DitherNone 3 (frac 6 10) false
  = Ok Toy.halving /\
  _get_size Toy.halving 5 7 = Ok (5 / 2, 7 / 2).
Proof.
  split; [reflexivity|].
  apply (get_size_by_factor (1, 1) 1 (Count 2) DitherNone 3 (frac 6 10) false (Some 2)).
  reflexivity.
Defined.

(** The witness of X13. *)
Lemma transform_refuses_empty_target_witness :
  valid Toy.coarse /\ 3 <= shape_d Toy.img_a /\
  _get_size Toy.coarse (shape_h Toy.img_a) (shape_w Toy.img_a) = Ok (0, 0) /\
  (0 = 0 \/ 0 = 0) /\
  is_ok (transform Toy.coarse Toy.img_a) = false.
Proof.
  assert (valid Toy.coarse) as Hv by (unfold valid; simpl; lia).
  split; [exact Hv|]. split; [simpl; lia|]. split; [reflexivity|]. split; [by left|].
  apply (transform_refuses_empty_target Toy.coarse Toy.img_a 0 0);
    [exact Hv | simpl; lia | reflexivity | by left].
Defined.

(** ** What [fit] hands to the mixture *)

Section Fit.
Context `{ext : Externals}.

(** X15: on an image of 3 or 4 channels [fit] hands the mixture
    [min(h, 256) * min(w, 256)] samples of three values each, and it returns
    exactly when the fit of the mixture returns: the instance with that
    model, marked as fitted, and otherwise unchanged.  The only failure is
    the one of the library. *)
Theorem fit_outcome (p : Pyx) (X : image) :
  shaped X -> shape_d X = 3 \/ shape_d X = 4 ->
  exists S, fit_samples p X = Ok S /\
    length S = Nat.min (shape_h X) BGM_RESIZE * Nat.min (shape_w X) BGM_RESIZE /\
    Forall (fun px => length px = 3) S /\
    fit p X = match sk_fit (palette p) S with
              | Some m => Ok (with_model p m)
              | None => Err LibraryError
              end.
Proof.
  intros HX Hd.
  destruct (fit_samples_returns p X HX Hd) as (S & HS & Hlen & Hpx).
  exists S. split_and!; try done.
  unfold fit, BGM_fit. rewrite HS, bind_Ok.
  by destruct (sk_fit _ _).
Qed.

End Fit.

(** The witness of X15. *)
Lemma fit_outcome_witness :
  shaped Toy.img_a /\ (shape_d Toy.img_a = 3 \/ shape_d Toy.img_a = 4) /\
  exists S, fit_samples Toy.fresh Toy.img_a = Ok S /\
    length S = Nat.min 4 BGM_RESIZE * Nat.min 4 BGM_RESIZE /\
    Forall (fun px => length px = 3) S /\
    fit Toy.fresh Toy.img_a = match sk_fit (Count 2) S with
                              | Some m => Ok (with_model Toy.fresh m)
                              | None => Err LibraryError
                              end.
Proof.
  assert (shaped Toy.img_a) as HX.
  { split; [reflexivity|]. repeat constructor. }
  split; [exact HX|]. split; [by left|].
  apply (fit_outcome Toy.fresh Toy.img_a); [exact HX|by left].
Defined.

Lemma naive_visits_even_squares (final_w n y x : nat) :
  x < final_w -> y * final_w + x ∈ naive_visits final_w n -> (y + x) mod 2 = 0.
Proof.
  intros Hx (i & Hj & [Hi _]%py_range2_even)%list_elem_of_fmap.
  destruct (naive_target_place final_w i ltac:(lia) Hi) as (_ & Hpar & _).
  rewrite <- Hj in Hpar.
  rewrite Nat.div_add_l, (Nat.div_small x), Nat.add_0_r in Hpar by lia.
  rewrite (Nat.add_comm (y * final_w)), Nat.Div0.mod_add, (Nat.mod_small x) in Hpar by lia.
  done.
Qed.

(** ** The checkerboard of the naive branch *)

Section Checkerboard.
Context `{ext : Externals}.

(** X16: the naive branch substitutes the second-best colour only on the
    squares of one colour of a checkerboard: a pixel of row [y] and column
    [x] with [y + x] odd always keeps its best colour. *)
Theorem naive_checkerboard (p : Pyx) (reshaped : list pixel) (final_h final_w : nat) :
  ready p -> reshaped <> [] -> length reshaped = final_h * final_w ->
  exists m probs cols p' best X_,
    the_model p = Ok m /\
    predict_proba (palette p) m reshaped = Ok probs /\
    colors p = Ok (cols, p') /\
    mapM_res (index cols) (map np_argmax probs) = Ok best /\
    dither_naive p reshaped final_w = Ok (X_, p') /\
    forall y x, x < final_w -> (y + x) mod 2 = 1 ->
      X_ !! (y * final_w + x) = best !! (y * final_w + x).
Proof.
  intros Hp Hne Hlen.
  destruct (naive_branch p reshaped final_h final_w Hp Hne Hlen)
    as (m & probs & cols & p' & best & X_ & Hm & Hpr & Hc & Hb & Hd & _ & _ & _ & _ & _ & Hkeep).
  exists m, probs, cols, p', best, X_. split_and!; try done.
  intros y x Hx Hodd. apply Hkeep. intros Hin.
  apply naive_visits_even_squares in Hin; [lia|done].
Qed.

End Checkerboard.

(** The witness of X16. *)
Lemma naive_checkerboard_witness :
  ready Toy.fitted_a /\ Toy.row_a ++ Toy.row_b <> [] /\
  length (Toy.row_a ++ Toy.row_b) = 2 * 4 /\
  exists m probs cols p' best X_,
    the_model Toy.fitted_a = Ok m /\
    predict_proba (palette Toy.fitted_a) m (Toy.row_a ++ Toy.row_b) = Ok probs /\
    colors Toy.fitted_a = Ok (cols, p') /\
    mapM_res (index cols) (map np_argmax probs) = Ok best /\
    dither_naive Toy.fitted_a (Toy.row_a ++ Toy.row_b) 4 = Ok (X_, p') /\
    forall y x, x < 4 -> (y + x) mod 2 = 1 ->
      X_ !! (y * 4 + x) = best !! (y * 4 + x).
Proof.
  split; [exact toy_ready|]. split; [done|]. split; [reflexivity|].
  apply (naive_checkerboard Toy.fitted_a (Toy.row_a ++ Toy.row_b) 2 4);
    [exact toy_ready | done | reflexivity].
Defined.

Lemma resolve_alpha_binary (a v : Qc) : resolve_alpha a v = 0%Z \/ resolve_alpha a v = 255%Z.
Proof.
  unfold resolve_alpha, Qltb, Qleb. destruct (Qle_bool a v) eqn:Hav.
  - destruct (negb _); [by left|right]. apply (astype_int_of_int 255).
  - rewrite Hav. by left.
Qed.

(** ** The pixels of the returned image *)

Section Pixels.
Context `{ext : Externals}.

(** [transform] on a ready instance, pixel by pixel. *)
Lemma transform_pixels (p : Pyx) (X : image) (new_h new_w : nat) :
  ready p -> 3 <= shape_d X ->
  palette_size (palette p) < shape_h X * shape_w X ->
  _get_size p (shape_h X) (shape_w X) = Ok (new_h, new_w) ->
  0 < new_h -> 0 < new_w ->
  exists out cols p',
    transform p X = Ok (out, p') /\ colors p = Ok (cols, p') /\
    Forall (Forall (palette_pixel (3 <? shape_d X) cols)) (rows out).
Proof.
  intros Hp Hd Hsize Hget Hh Hw. unfold transform.
  pose proof Hp as (Hv & Hf & _). rewrite Hf. simpl py_assert. rewrite bind_Ok.
  rewrite (proj2 (Nat.ltb_lt _ _) Hsize). simpl py_assert. rewrite bind_Ok.
  destruct (downsample_ok p X new_h new_w Hv Hd Hget)
    as (X_ & mask & -> & HXh & HXw & HXd & HX & Hmask).
  rewrite bind_Ok. cbv zeta.
  set (S_ := if find_palette_of (palette p)
             then map_image (fun v => (v - frac 1 2) * SCALE_RGB + frac 1 2)%Qc Floating X_
             else X_).
  assert (shape_h S_ = new_h /\ shape_w S_ = new_w /\ shape_d S_ = 3 /\ shaped S_)
    as (HSh & HSw & HSd & HS).
  { subst S_. destruct (find_palette_of _); [|done].
    split_and!; try done. by apply shaped_map_image. }
  unfold reshape_pixels. rewrite HSd. simpl (3 =? 3). cbv iota. rewrite bind_Ok.
  assert (length (concat (rows S_)) = shape_h X_ * shape_w X_) as Hlen.
  { rewrite length_concat_rows by done. congruence. }
  destruct (dither_stage_ok p S_ (concat (rows S_)) (shape_h X_) (shape_w X_))
    as (chosen & cols & p' & -> & Hc & Hwf & Hsame & Hp' & Hn & Hin); [done| |done|].
  { intros Hnil. rewrite Hnil in Hlen. simpl in Hlen. nia. }
  rewrite bind_Ok.
  assert (Forall colour_wf chosen) as Hchosen.
  { destruct Hwf as [_ Hwf]. rewrite Forall_forall in Hwf.
    eapply List.Forall_impl; [|exact Hin]. auto. }
  rewrite reshape_colours_ok, bind_Ok;
    [|done|by eapply List.Forall_impl; [|exact Hchosen]; intros ? []].
  set (G := tab2 (shape_h X_) (shape_w X_) _).
  assert (grid_of new_h new_w (fun px => colour_wf px /\ px ∈ cols) G) as HG.
  { subst G. rewrite HXh, HXw. apply grid_of_tab2. intros y x Hy Hx.
    assert (y * new_w + x < length chosen) as Hi by (rewrite Hn, HXh, HXw; nia).
    destruct (lookup_lt_is_Some_2 chosen _ Hi) as (col & Hcol).
    rewrite (nth_lookup_Some _ _ _ _ Hcol). split.
    - by apply (Forall_lookup_1 _ _ _ _ Hchosen Hcol).
    - by apply (Forall_lookup_1 _ _ _ _ Hin Hcol). }
  set (G' := match mask with
             | None => G
             | Some M => imap (fun y row => imap (fun x px =>
                           take 3 px ++ [resolve_alpha (alpha p') (at3 (rows M) y x 0)])
                           row) G
             end).
  exists (NDArray (shape_h X_ * (upscale p').1) (shape_w X_ * (upscale p').2)
            (if 3 <? shape_d X then 4 else 3) Integer
            (map (map (map astype_uint8))
               (np_repeat (upscale p').1 (map (np_repeat (upscale p').2) G')))), cols, p'.
  split.
  { unfold attach_alpha. subst G'. destruct mask as [M|].
    - destruct Hmask as (Hd4 & HMh & HMw). rewrite HMh, HMw, HXh, HXw, !Nat.eqb_refl.
      simpl andb. cbv iota. rewrite bind_Ok.
      by rewrite (proj2 (Nat.ltb_lt _ _) Hd4).
    - rewrite bind_Ok. rewrite Hmask. done. }
  split; [done|]. cbn [rows].
  assert (grid_of new_h new_w
            (fun px => exists col, colour_wf col /\ col ∈ cols /\
               if 3 <? shape_d X
               then exists a, px = col ++ [a] /\ (a = 0%Z \/ a = 255%Z)
               else px = col) G') as [_ HG'].
  { subst G'. destruct mask as [M|].
    - destruct Hmask as (Hd4 & _). rewrite (proj2 (Nat.ltb_lt _ _) Hd4).
      eapply grid_of_imap; [|exact HG]. intros y x px [Hcw Hi]. simpl.
      exists px. split_and!; [done..|]. eexists. split; [|apply resolve_alpha_binary].
      destruct Hcw as [Hl3 _]. by rewrite firstn_all2 by lia.
    - rewrite Hmask. change (3 <? 3) with false. cbv iota.
      destruct HG as [HGh HGrows]. split; [done|].
      eapply List.Forall_impl; [|exact HGrows]. intros row [Hrw Hrow]. split; [done|].
      eapply List.Forall_impl; [|exact Hrow]. intros px [Hcw Hi]. by exists px. }
  apply Forall_map, Forall_np_repeat, Forall_map.
  eapply List.Forall_impl; [|exact HG']. intros row [_ Hrow]. simpl.
  apply Forall_map, Forall_np_repeat.
  eapply List.Forall_impl; [|exact Hrow]. intros px (col & Hcw & Hi & Hpx). simpl.
  exists col. split; [done|].
  destruct (3 <? shape_d X).
  - destruct Hpx as (a & -> & Ha). exists a. split; [|done].
    rewrite map_app, astype_uint8_colour by done. simpl.
    by destruct Ha as [-> | ->].
  - rewrite Hpx. by apply astype_uint8_colour.
Qed.

(** X17: whatever the dithering mode, on an image of 3 channels every
    pixel of the image [transform] returns is one of the colours
    [self.colors], of which there are as many as the palette holds. *)
Theorem dithered_output_in_palette (p : Pyx) (X : image) (new_h new_w : nat) :
  ready p -> shape_d X = 3 ->
  palette_size (palette p) < shape_h X * shape_w X ->
  _get_size p (shape_h X) (shape_w X) = Ok (new_h, new_w) ->
  0 < new_h -> 0 < new_w ->
  exists out cols p',
    transform p X = Ok (out, p') /\ colors p = Ok (cols, p') /\
    length cols = palette_size (palette p) /\
    Forall (Forall (fun px => px ∈ cols)) (rows out).
Proof.
  intros Hp Hd Hsize Hget Hh Hw.
  destruct (transform_pixels p X new_h new_w Hp ltac:(lia) Hsize Hget Hh Hw)
    as (out & cols & p' & Ht & Hc & Hrows).
  exists out, cols, p'. split_and!; try done.
  - destruct (colors_ready p Hp) as (c & q & Hc' & [Hl _] & _). congruence.
  - rewrite Hd in Hrows. change (3 <? 3) with false in Hrows.
    eapply List.Forall_impl; [|exact Hrows]. intros row Hrow.
    eapply List.Forall_impl; [|exact Hrow]. by intros px (col & Hi & ->).
Qed.

(** X18: on an image with an alpha channel every pixel of the image
    [transform] returns is a colour of [self.colors] followed by an alpha
    sample that is 0 or 255. *)
Theorem alpha_output_is_binary (p : Pyx) (X : image) (new_h new_w : nat) :
  ready p -> 3 < shape_d X ->
  palette_size (palette p) < shape_h X * shape_w X ->
  _get_size p (shape_h X) (shape_w X) = Ok (new_h, new_w) ->
  0 < new_h -> 0 < new_w ->
  exists out cols p',
    transform p X = Ok (out, p') /\ colors p = Ok (cols, p') /\
    Forall (Forall (fun px =>
      exists col a, px = col ++ [a] /\ col ∈ cols /\ (a = 0%Z \/ a = 255%Z))) (rows out).
Proof.
  intros Hp Hd Hsize Hget Hh Hw.
  destruct (transform_pixels p X new_h new_w Hp ltac:(lia) Hsize Hget Hh Hw)
    as (out & cols & p' & Ht & Hc & Hrows).
  exists out, cols, p'. split_and!; try done.
  rewrite (proj2 (Nat.ltb_lt _ _) Hd) in Hrows.
  eapply List.Forall_impl; [|exact Hrows]. intros row Hrow.
  eapply List.Forall_impl; [|exact Hrow]. intros px (col & Hi & a & -> & Ha). eauto.
Qed.

End Pixels.

Lemma floyd_ready : ready Toy.floyd_a.
Proof. unfold ready, valid. simpl. split_and!; (done || lia). Qed.

(** The witness of X17. *)
Lemma dithered_output_in_palette_witness :
  ready Toy.floyd_a /\ shape_d Toy.img_a = 3 /\
  palette_size (palette Toy.floyd_a) < shape_h Toy.img_a * shape_w Toy.img_a /\
  _get_size Toy.floyd_a (shape_h Toy.img_a) (shape_w Toy.img_a) = Ok (4, 4) /\
  0 < 4 /\
  exists out cols p',
    transform Toy.floyd_a Toy.img_a = Ok (out, p') /\ colors Toy.floyd_a = Ok (cols, p') /\
    length cols = palette_size (palette Toy.floyd_a) /\
    Forall (Forall (fun px => px ∈ cols)) (rows out).
Proof.
  split; [exact floyd_ready|]. split; [reflexivity|]. split; [simpl; lia|].
  split; [reflexivity|]. split; [lia|].
  apply (dithered_output_in_palette Toy.floyd_a Toy.img_a 4 4);
    [exact floyd_ready | reflexivity | simpl; lia | reflexivity | lia | lia].
Defined.

(** The witness of X18. *)
Lemma alpha_output_is_binary_witness :
  ready Toy.fitted_a /\ 3 < shape_d Toy.img_rgba /\
  palette_size (palette Toy.fitted_a) < shape_h Toy.img_rgba * shape_w Toy.img_rgba /\
  _get_size Toy.fitted_a (shape_h Toy.img_rgba) (shape_w Toy.img_rgba) = Ok (4, 4) /\
  0 < 4 /\
  exists out cols p',
    transform Toy.fitted_a Toy.img_rgba = Ok (out, p') /\
    colors Toy.fitted_a = Ok (cols, p') /\
    Forall (Forall (fun px =>
      exists col a, px = col ++ [a] /\ col ∈ cols /\ (a = 0%Z \/ a = 255%Z))) (rows out).
Proof.
  split; [exact toy_ready|]. split; [simpl; lia|]. split; [simpl; lia|].
  split; [reflexivity|]. split; [lia|].
  apply (alpha_output_is_binary Toy.fitted_a Toy.img_rgba 4 4);
    [exact toy_ready | simpl; lia | simpl; lia | reflexivity | lia | lia].
Defined.

Lemma lookup_np_repeat {B} (n : nat) (l : list B) (i : nat) :
  0 < n -> np_repeat n l !! i = l !! (i / n).
Proof.
  intros Hn. unfold np_repeat. revert i. induction l as [|x l IH]; intros i; simpl.
  { by rewrite !lookup_nil. }
  destruct (Nat.lt_ge_cases i n) as [Hi|Hi].
  - rewrite lookup_app_l by (by rewrite length_replicate).
    rewrite Nat.div_small by done. by apply lookup_replicate_2.
  - rewrite lookup_app_r by (by rewrite length_replicate).
    rewrite length_replicate, IH.
    replace i with ((i - n) + 1 * n) at 2 by lia.
    rewrite Nat.div_add by lia. by rewrite Nat.add_1_r.
Qed.

Lemma np_repeat_blocks {B} (n : nat) (l : list B) (i i' : nat) :
  i / n = i' / n -> np_repeat n l !! i = np_repeat n l !! i'.
Proof.
  destruct n as [|n].
  - intros _. assert (np_repeat 0 l = []) as ->; [|done].
    unfold np_repeat. induction l; simpl; done.
  - intros H. rewrite !lookup_np_repeat by lia. by rewrite H.
Qed.

Lemma elem_of_np_repeat {B} (n : nat) (l : list B) (x : B) : x ∈ np_repeat n l -> x ∈ l.
Proof.
  revert x. apply Forall_forall, Forall_np_repeat, Forall_forall. auto.
Qed.

(** Taking apart a chain of binds that returned. *)
Ltac invert_binds H :=
  repeat first
    [ apply bind_ok in H as (? & ? & H)
    | match type of H with
      | context [let '(_, _) := ?b in _] => is_var b; destruct b
      end ].

(** ** The state [transform] leaves *)

Section Repeat.
Context `{ext : Externals}.

Lemma dither_stage_colors (p p' : Pyx) (X_ : image) (reshaped : list pixel)
    (final_h final_w : nat) (chosen : list (list Z)) :
  dither_stage p X_ reshaped final_h final_w = Ok (chosen, p') ->
  exists c, colors p = Ok (c, p').
Proof.
  unfold dither_stage. intros H.
  destruct (dither p); unfold dither_none, dither_naive, dither_bayer, dither_floyd,
    dither_atkinson in H.
  - invert_binds H. injection H as <- <-. eauto.
  - invert_binds H. injection H as <- <-. eauto.
  - invert_binds H. injection H as <- <-. eauto.
  - invert_binds H. injection H as <- <-. eauto.
  - apply bind_ok in H as (mdl & _ & H). destruct (_ || _); [done|].
    invert_binds H. injection H as <- <-. eauto.
Qed.

Lemma colors_state (p p' : Pyx) (c : list (list Z)) :
  colors p = Ok (c, p') -> p' = p \/ p' = with_cache p c.
Proof.
  unfold colors. destruct (palette_cache p).
  - intros [= <- <-]. by left.
  - intros (c' & _ & [= <- <-])%bind_ok. by right.
Qed.

Lemma dither_stage_cached (p : Pyx) (c : list (list Z)) (X_ : image)
    (reshaped : list pixel) (final_h final_w : nat) :
  colors p = Ok (c, with_cache p c) ->
  dither_stage (with_cache p c) X_ reshaped final_h final_w =
  dither_stage p X_ reshaped final_h final_w.
Proof.
  intros Hc. unfold dither_stage. cbn [dither with_cache].
  pose proof (colors_of_cache (with_cache p c) c eq_refl) as Hc'.
  destruct (dither p); unfold dither_none, dither_naive, dither_bayer, dither_floyd,
    dither_atkinson; rewrite Hc, Hc'; reflexivity.
Qed.

Lemma transform_cached (p : Pyx) (c : list (list Z)) (X : image) :
  colors p = Ok (c, with_cache p c) ->
  transform (with_cache p c) X = transform p X.
Proof.
  intros Hc. unfold transform. cbn [is_fitted palette with_cache].
  destruct (py_assert (is_fitted p) NotFitted); [|done]. rewrite !bind_Ok.
  destruct (py_assert _ TooManyColors); [|done]. rewrite !bind_Ok.
  change (downsample (with_cache p c) X) with (downsample p X).
  destruct (downsample p X) as [[X_ mask]|]; [|done]. rewrite !bind_Ok.
  cbv zeta.
  destruct (reshape_pixels _ _) as [reshaped|]; [|done]. rewrite !bind_Ok.
  by rewrite dither_stage_cached.
Qed.

(** X19: when [transform] returns, it has changed nothing of the instance
    but the palette cache, which holds the colours [colors] returns, and
    [transform] on the instance it leaves returns the same image again. *)
Theorem transform_repeatable (p p' : Pyx) (X : image) (out : ndarray Z) :
  transform p X = Ok (out, p') ->
  transform p' X = Ok (out, p') /\ same_config p p' /\
  exists c, colors p = Ok (c, p') /\ palette_cache p' = Some c.
Proof.
  intros H. pose proof H as H0. unfold transform in H0.
  invert_binds H0.
  match goal with Hd : dither_stage _ _ _ _ _ = Ok _ |- _ =>
    apply dither_stage_colors in Hd as (c & Hc) end.
  injection H0 as _ <-.
  match type of Hc with _ = Ok (_, ?q) => rename q into p' end.
  assert (same_config p p' /\ palette_cache p' = Some c) as [Hsame Hcache].
  { pose proof (colors_fills_cache _ _ _ Hc).
    destruct (colors_state _ _ _ Hc) as [-> | ->]; by split_and!. }
  split_and!; [|done|by exists c].
  destruct (colors_state _ _ _ Hc) as [-> | ->]; [done|].
  by rewrite transform_cached.
Qed.

(** X20: the image [transform] returns consists of blocks of
    [upscale[0]] rows and [upscale[1]] columns of one pixel each: two rows
    of the same block are equal, and so are two pixels of a row in the same
    block of columns. *)
Theorem upscale_blocks (p p' : Pyx) (X : image) (out : ndarray Z) :
  transform p X = Ok (out, p') ->
  (forall i i', i / (upscale p).1 = i' / (upscale p).1 ->
     rows out !! i = rows out !! i') /\
  (forall row j j', row ∈ rows out -> j / (upscale p).2 = j' / (upscale p).2 ->
     row !! j = row !! j').
Proof.
  intros H. pose proof H as H0. unfold transform in H0.
  invert_binds H0.
  match goal with Hd : dither_stage _ _ _ _ _ = Ok _ |- _ =>
    apply dither_stage_colors in Hd as (c & Hc) end.
  injection H0 as <- <-.
  match type of Hc with _ = Ok (_, ?q) => rename q into p' end.
  assert (upscale p' = upscale p) as Hup.
  { destruct (colors_state _ _ _ Hc) as [-> | ->]; done. }
  cbn [rows]. rewrite Hup. split.
  - intros i i' Hi. rewrite !list_lookup_fmap.
    by rewrite (np_repeat_blocks _ _ i i').
  - intros row j j' (r1 & -> & Hr1)%list_elem_of_fmap Hj.
    apply elem_of_np_repeat in Hr1 as (g & -> & _)%list_elem_of_fmap.
    rewrite !list_lookup_fmap. by rewrite (np_repeat_blocks _ _ j j').
Qed.

End Repeat.

Lemma enlarged_returns : is_ok (transform Toy.enlarged Toy.img_a) = true.
Proof. vm_compute. reflexivity. Qed.

(** The witness of X19. *)
Lemma transform_repeatable_witness :
  exists out p',
    transform Toy.enlarged Toy.img_a = Ok (out, p') /\
    transform p' Toy.img_a = Ok (out, p') /\ same_config Toy.enlarged p' /\
    exists c, colors Toy.enlarged = Ok (c, p') /\ palette_cache p' = Some c.
Proof.
  pose proof enlarged_returns as H.
  destruct (transform Toy.enlarged Toy.img_a) as [[out p']|e] eqn:Ht; [|discriminate H].
  exists out, p'. split; [reflexivity|].
  exact (transform_repeatable Toy.enlarged p' Toy.img_a out Ht).
Defined.

(** The witness of X20. *)
Lemma upscale_blocks_witness :
  exists out p',
    transform Toy.enlarged Toy.img_a = Ok (out, p') /\
    (forall i i', i / 2 = i' / 2 -> rows out !! i = rows out !! i') /\
    (forall row j j', row ∈ rows out -> j / 3 = j' / 3 -> row !! j = row !! j').
Proof.
  pose proof enlarged_returns as H.
  destruct (transform Toy.enlarged Toy.img_a) as [[out p']|e] eqn:Ht; [|discriminate H].
  exists out, p'. split; [reflexivity|].
  exact (upscale_blocks Toy.enlarged p' Toy.img_a out Ht).
Defined.

Lemma unit_sample (v : Z) :
  (0 <= v <= 255)%Z -> (0 <= of_int v / of_int 255 <= 1)%Qc.
Proof.
  intros [H0 H1]. unfold Qcdiv. split.
  - rewrite <- (Qcmult_0_l (/ of_int 255)).
    apply Qcmult_le_compat_r; [by apply (of_int_le 0)|done].
  - rewrite <- (Qcmult_inv_r (of_int 255)) by done.
    apply Qcmult_le_compat_r; [by apply of_int_le|done].
Qed.

(** ** From [__init__] to the image *)

Section Flow.
Context `{ext : Externals}.

(** X21: on a fitted instance [_palette] returns for each colour of
    [colors] its three samples divided by 255, exactly, each within
    [0, 1]. *)
Theorem plottable_palette (p : Pyx) :
  ready p ->
  exists cols p',
    colors p = Ok (cols, p') /\
    _palette p = Ok (map (map (fun v => of_int v / of_int 255)%Qc) cols, p') /\
    Forall (Forall (fun v => (0 <= of_int v / of_int 255 <= 1)%Qc)) cols.
Proof.
  intros Hp. destruct (colors_ready p Hp) as (cols & p' & Hc & [Hlen Hwf] & _).
  exists cols, p'. split; [done|]. split.
  - unfold _palette. rewrite Hc, bind_Ok. cbv beta iota.
    unfold reshape_rows. cbn [rows]. simpl (3 =? 0). cbv iota.
    assert (concat (concat (map (fun col => [map of_int col]) cols))
            = concat (map (map of_int) cols)) as ->.
    { f_equal. clear. induction cols as [|c cols IH]; simpl; [done|]. by rewrite IH. }
    assert (Forall (fun r => length r = 3) (map (map of_int) cols)) as H3.
    { apply Forall_map. eapply List.Forall_impl; [|exact Hwf].
      intros col [Hl _]. simpl. by rewrite length_map. }
    rewrite (length_concat_uniform 3) by done.
    rewrite Nat.Div0.mod_mul. simpl (0 =? 0). cbv iota.
    rewrite Nat.div_mul by done. rewrite reshape_concat_uniform by done.
    rewrite bind_Ok. unfold _image_to_float. cbn [kind rows map_image map concat].
    rewrite app_nil_r. f_equal. f_equal.
    rewrite map_map. apply map_ext_Forall.
    eapply List.Forall_impl; [|exact Hwf]. intros col [_ Hr]. simpl.
    rewrite map_map. apply map_ext_Forall.
    eapply List.Forall_impl; [|exact Hr]. intros v Hv. simpl.
    destruct (unit_sample v Hv) as [H0 H1]. unfold np_clip.
    change (Q2Qc 0) with 0%Qc.
    by rewrite (proj2 (Qltb_ge _ _) H0), (proj2 (Qltb_ge _ _) H1).
  - eapply List.Forall_impl; [|exact Hwf]. intros col [_ Hr].
    eapply List.Forall_impl; [|exact Hr]. intros v Hv. by apply unit_sample.
Qed.

(** X22: an instance built by [__init__] and fitted transforms every image
    of at least 3 channels that has more pixels than the palette has colours
    and a positive target size: the image returned has the target size times
    the upscale factors, and 3 channels, or 4 when the input has more than
    3. *)
Theorem fit_then_transform h w f u d pal di s a b (p q : Pyx) (X Y : image)
    (new_h new_w : nat) :
  Pyx_init h w f u d pal di s a b = Ok p -> palette_wf pal ->
  fit p X = Ok q ->
  3 <= shape_d Y -> palette_size pal < shape_h Y * shape_w Y ->
  _get_size q (shape_h Y) (shape_w Y) = Ok (new_h, new_w) ->
  0 < new_h -> 0 < new_w ->
  exists out q',
    transform q Y = Ok (out, q') /\
    shape_h out = new_h * u.1 /\ shape_w out = new_w * u.2 /\
    shape_d out = (if 3 <? shape_d Y then 4 else 3) /\ shaped out.
Proof.
  intros Hinit Hpal Hfit Hd Hsize Hget Hh Hw.
  destruct (init_fields _ _ _ _ _ _ _ _ _ _ _ Hinit) as (mode & _ & Hp).
  destruct (init_valid _ _ _ _ _ _ _ _ _ _ _ Hinit) as (Hv & _ & Hc & Hpp).
  assert (ready q) as Hq.
  { eapply fit_ready; [exact Hv| | |exact Hfit]; rewrite ?Hpp, ?Hc; done. }
  assert (palette q = pal /\ upscale q = u) as [Hqp Hqu].
  { apply bind_ok in Hfit as (S & _ & (m & _ & [= <-])%bind_ok). by rewrite Hp. }
  destruct (transform_returns q Y new_h new_w Hq Hd ltac:(by rewrite Hqp) Hget Hh Hw)
    as (out & cols & q' & Ht & _ & _ & _ & Hoh & How & Hod & _ & [Hlen Hrows]).
  exists out, q'. rewrite Hqu in Hoh, How. split_and!; try done.
  split; [done|]. eapply List.Forall_impl; [|exact Hrows].
  intros row [Hrow Hpx]. split; [done|].
  eapply List.Forall_impl; [|exact Hpx]. by intros px [? _].
Qed.

(** X23: [run] on an image of 3 or 4 channels, a factor between 1 and the
    smaller side of the image and at least two colours, fewer than the image
    has pixels: it fails only if the fit of the mixture fails, and otherwise
    returns an image of the height and width of the input divided by the
    factor, with the channels of the input. *)
Theorem run_output (image_ : image) (downSample : nat) (colours : list (list Qc))
    (di : dither_mode) :
  shaped image_ -> shape_d image_ = 3 \/ shape_d image_ = 4 ->
  1 <= downSample <= Nat.min (shape_h image_) (shape_w image_) ->
  2 <= length colours -> Forall (fun c => length c = 3) colours ->
  length colours < shape_h image_ * shape_w image_ ->
  exists pyx S,
    Pyx_init None None (Some downSample) (1, 1) 1 (FloatColors colours) di 3
             (frac 6 10) true = Ok pyx /\
    fit_samples pyx image_ = Ok S /\
    match sk_fit (FloatColors colours) S with
    | None => run image_ downSample colours di = Err LibraryError
    | Some _ =>
        exists out, run image_ downSample colours di = Ok out /\
          shape_h out = shape_h image_ / downSample /\
          shape_w out = shape_w image_ / downSample /\
          shape_d out = shape_d image_ /\ shaped out
    end.
Proof.
  intros HX Hd Hf Hn Hcol Hsize.
  set (pyx := MkPyx None None (Some downSample) (1, 1) 1 (FloatColors colours) di 3
                    (frac 6 10) true None false None).
  assert (Pyx_init None None (Some downSample) (1, 1) 1 (FloatColors colours) di 3
                   (frac 6 10) true = Ok pyx) as Hinit.
  { unfold Pyx_init. cbn [is_some orb andb from_option fst snd palette_size].
    rewrite (proj2 (Nat.leb_le 1 downSample)) by lia.
    rewrite (proj2 (Nat.ltb_ge (length colours) 2)) by lia.
    by rewrite dither_of_name. }
  destruct (fit_samples_returns pyx image_ HX Hd) as (S & HS & _ & _).
  assert (fit pyx image_ = match sk_fit (FloatColors colours) S with
                           | Some m => Ok (with_model pyx m)
                           | None => Err LibraryError
                           end) as Hfit.
  { unfold fit, BGM_fit. rewrite HS, bind_Ok. cbn [palette pyx].
    by destruct (sk_fit _ _). }
  exists pyx, S. split_and!; [done..|].
  unfold run. rewrite Hinit, bind_Ok.
  destruct (sk_fit (FloatColors colours) S) as [m|]; rewrite Hfit; [|done].
  rewrite bind_Ok.
  assert (ready (with_model pyx m)) as Hq.
  { unfold ready, valid. cbn. split_and!; try done; lia. }
  assert (_get_size (with_model pyx m) (shape_h image_) (shape_w image_)
          = Ok (shape_h image_ / downSample, shape_w image_ / downSample)) as Hget.
  { unfold _get_size. cbn [height width factor with_model pyx].
    destruct (Nat.eqb_spec downSample 0); [lia|done]. }
  destruct (transform_returns (with_model pyx m) image_ _ _ Hq ltac:(lia) Hsize Hget)
    as (out & cols & q' & -> & _ & _ & _ & Hoh & How & Hod & _ & [Hlen Hrows]).
  { apply Nat.div_str_pos. lia. }
  { apply Nat.div_str_pos. lia. }
  rewrite bind_Ok. exists out. split; [done|].
  cbn [upscale with_model pyx fst snd] in Hoh, How. rewrite Nat.mul_1_r in Hoh, How.
  split_and!; try done.
  - rewrite Hod. by destruct Hd as [-> | ->].
  - split; [done|]. eapply List.Forall_impl; [|exact Hrows].
    intros row [Hrow Hpx]. split; [done|].
    eapply List.Forall_impl; [|exact Hpx]. intros px [Hl _].
    rewrite Hl, Hod. by destruct Hd as [-> | ->].
Qed.

End Flow.

(** The witness of X21. *)
Lemma plottable_palette_witness :
  ready Toy.fitted_a /\
  exists cols p',
    colors Toy.fitted_a = Ok (cols, p') /\
    _palette Toy.fitted_a = Ok (map (map (fun v => of_int v / of_int 255)%Qc) cols, p') /\
    Forall (Forall (fun v => (0 <= of_int v / of_int 255 <= 1)%Qc)) cols.
Proof.
  split; [exact toy_ready|]. apply (plottable_palette Toy.fitted_a). exact toy_ready.
Defined.

Lemma fit_a_returns : is_ok (fit Toy.fresh Toy.img_a) = true.
Proof. vm_compute. reflexivity. Qed.

(** The witness of X22. *)
Lemma fit_then_transform_witness :
  exists q,
    Toy.make 2 DitherNone 3 1 1 = Ok Toy.fresh /\ palette_wf (Count 2) /\
    fit Toy.fresh Toy.img_a = Ok q /\
    3 <= shape_d Toy.img_b /\ 2 < shape_h Toy.img_b * shape_w Toy.img_b /\
    _get_size q (shape_h Toy.img_b) (shape_w Toy.img_b) = Ok (4, 4) /\
    0 < 4 /\
    exists out q',
      transform q Toy.img_b = Ok (out, q') /\
      shape_h out = 4 * 1 /\ shape_w out = 4 * 1 /\
      shape_d out = 3 /\ shaped out.
Proof.
  pose proof fit_a_returns as H.
  destruct (fit Toy.fresh Toy.img_a) as [q|e] eqn:Hfit; [|discriminate H].
  assert (_get_size q (shape_h Toy.img_b) (shape_w Toy.img_b) = Ok (4, 4)) as Hget.
  { pose proof Hfit as Hf.
    apply bind_ok in Hf as (X_ & _ & (m & _ & [= <-])%bind_ok). reflexivity. }
  exists q.
  split; [reflexivity|]. split; [exact I|]. split; [reflexivity|].
  split; [simpl; lia|]. split; [simpl; lia|]. split; [exact Hget|]. split; [lia|].
  apply (fit_then_transform None None None (1, 1) 1 (Count 2) DitherNone 3 (frac 6 10) false
           Toy.fresh q Toy.img_a Toy.img_b 4 4);
    [reflexivity | exact I | exact Hfit | simpl; lia | simpl; lia
    | exact Hget | lia | lia].
Defined.

(** The witness of X23. *)
Lemma run_output_witness :
  shaped Toy.img_a /\ (shape_d Toy.img_a = 3 \/ shape_d Toy.img_a = 4) /\
  1 <= 2 <= Nat.min (shape_h Toy.img_a) (shape_w Toy.img_a) /\
  2 <= length Toy.given_colours /\ Forall (fun c => length c = 3) Toy.given_colours /\
  length Toy.given_colours < shape_h Toy.img_a * shape_w Toy.img_a /\
  exists pyx S,
    Pyx_init None None (Some 2) (1, 1) 1 (FloatColors Toy.given_colours) DitherNone 3
             (frac 6 10) true = Ok pyx /\
    fit_samples pyx Toy.img_a = Ok S /\
    match sk_fit (FloatColors Toy.given_colours) S with
    | None => run Toy.img_a 2 Toy.given_colours DitherNone = Err LibraryError
    | Some _ =>
        exists out, run Toy.img_a 2 Toy.given_colours DitherNone = Ok out /\
          shape_h out = shape_h Toy.img_a / 2 /\
          shape_w out = shape_w Toy.img_a / 2 /\
          shape_d out = shape_d Toy.img_a /\ shaped out
    end.
Proof.
  assert (shaped Toy.img_a) as HX.
  { split; [reflexivity|]. repeat constructor. }
  assert (Forall (fun c : list Qc => length c = 3) Toy.given_colours) as Hc.
  { repeat constructor. }
  split; [exact HX|]. split; [by left|]. split; [simpl; lia|]. split; [simpl; lia|].
  split; [exact Hc|]. split; [simpl; lia|].
  apply (run_output Toy.img_a 2 Toy.given_colours DitherNone);
    [exact HX | by left | simpl; lia | simpl; lia | exact Hc | simpl; lia].
Defined.
